(** * ros2_snapshot: entity extraction and reconciliation engine

    A shallow embedding of the parts of the snapshot tool that its
    specification makes checkable statements about:

    - [PyStr]      the Python string primitives the code relies on
                   ([str.split], [in], [str.endswith], [sorted]);
    - [Filters]    core/utilities/filters.py;
    - [BankBuilder] snapshot/builders/base_builders.py;
    - [Action]     snapshot/builders/action_builder.py;
    - [NodePid]    snapshot/builders/node_builder.py ([get_node_pid]);
    - [Metamodel]  core/base_metamodel.py ([update_attributes]);
    - [Reconciler] snapshot/snapshot.py (specification validation and
                   learning).

    and of the code around these parts:

    - [AttributesKept] what [update_attributes] never loses;
    - [Matching]   what a token match means, and validation of a learnt
                   specification;
    - [Remapper]   snapshot/remapper_bank.py and [_create_spec_remappers];
    - [EntityName] [name_base], [name_suffix] and the test for the topics
                   of an action;
    - [BankOps]    adding, removing and preparing the builders of a bank;
    - [TopicTypes] snapshot/builders/topic_bank_builder.py;
    - [ProcessTable] the process table of the node builders;
    - [NodeTopics] the topics and services of a node builder;
    - [FilterAnswers] what the filter singletons reject;
    - [RosExeFilter] core/utilities/ros_exe_filter.py;
    - [SystemInfo] [collect_system_info];
    - [LearntSpecification] what [_update_node_specification] records,
                   with the numbering of the names that share a token
                   and the type strings of
                   snapshot/builders/parameter_builder.py.

    Python dictionaries whose iteration order is observable are lists in
    insertion order; dictionaries and sets that are only looked up, or
    iterated through [sorted], are [gmap]s and [gset]s. *)

From Stdlib Require Import Ascii String ZArith Lia.
From stdpp Require Import gmap strings list sorting pretty.

Open Scope string_scope.

(** ** Python string primitives *)

Module PyStr.

(** [s.split(sep)] for a one-character separator: never empty, and
    ["".split(sep) == [""]]. *)
Fixpoint split (sep : ascii) (s : string) : list string :=
  match s with
  | EmptyString => [EmptyString]
  | String c s' =>
      if Ascii.eqb c sep then EmptyString :: split sep s'
      else match split sep s' with
           | [] => [String c EmptyString]
           | tok :: toks => String c tok :: toks
           end
  end.

(** [s.split(sep)[-1]] *)
Definition last_token (sep : ascii) (s : string) : string :=
  List.last (split sep s) EmptyString.

(** [a in b] on strings: [a] occurs in [b] as a contiguous substring. *)
Fixpoint contains (a b : string) : bool :=
  String.prefix a b ||
  match b with
  | EmptyString => false
  | String _ b' => contains a b'
  end.

(** [s.endswith(suffix)] *)
Fixpoint endswith (s suffix : string) : bool :=
  String.eqb s suffix ||
  match s with
  | EmptyString => false
  | String _ s' => endswith s' suffix
  end.

(** [sorted(xs)] on strings: ascending code-point order. *)
Definition sorted (xs : list string) : list string :=
  merge_sort (fun a b => String.leb a b) xs.

Lemma split_nonempty sep s : split sep s <> [].
Proof.
  destruct s as [|c s]; simpl; [discriminate|].
  destruct (Ascii.eqb c sep); [discriminate|].
  destruct (split sep s); discriminate.
Qed.

Lemma contains_empty b : contains EmptyString b = true.
Proof. destruct b; reflexivity. Qed.

Lemma contains_refl a : contains a a = true.
Proof.
  assert (H : forall s, String.prefix s s = true).
  { induction s as [|c s IH]; simpl; [reflexivity|].
    destruct (ascii_dec c c); [exact IH | congruence]. }
  destruct a as [|c a]; [reflexivity|].
  change (contains (String c a) (String c a))
    with (String.prefix (String c a) (String c a)
          || contains (String c a) a).
  rewrite H. reflexivity.
Qed.

Example split_path :
  split "/" "/ws/install/pkg/lib/pkg/talker"
  = [""; "ws"; "install"; "pkg"; "lib"; "pkg"; "talker"].
Proof. reflexivity. Qed.

Example split_trailing : split "_" "talker_" = ["talker"; ""].
Proof. reflexivity. Qed.

Example last_token_plain : last_token "/" "thresh" = "thresh".
Proof. reflexivity. Qed.

Example contains_mid : contains "alk" "talker" = true.
Proof. reflexivity. Qed.

Example contains_no : contains "talker_2" "talker" = false.
Proof. reflexivity. Qed.

Example endswith_type :
  endswith "pkg/action/Fibonacci_ActionGoal" "ActionGoal" = true.
Proof. reflexivity. Qed.

Example sorted_names : sorted ["/b/x"; "/a/y"; "/a/x"] = ["/a/x"; "/a/y"; "/b/x"].
Proof. reflexivity. Qed.

End PyStr.

(** ** core/utilities/filters.py

    The exclusion containers are Python objects that classes and filter
    instances refer to; they live in a heap indexed by location, and an
    attribute holds a location.  [Filter.BASE_EXCLUSIONS = {}] is a
    dictionary (only its keys matter for [in]); [NodeFilter] overrides it
    with a set.  [TopicFilter] and [ServiceTypeFilter] inherit the
    dictionary object of [Filter] itself, so they share it. *)

Module Filters.

(** The concrete filter classes; the base class [Filter] contributes the
    inherited class attributes and the two flags. *)
Inductive cls := NodeFilter | TopicFilter | ServiceTypeFilter.

#[export] Instance cls_eq_dec : EqDecision cls.
Proof. solve_decision. Defined.

Inductive container :=
| PySet (elems : gset string)
| PyDict (keys : gset string).

Definition members (c : container) : gset string :=
  match c with PySet s => s | PyDict s => s end.

Definition loc := nat.

(** Objects created when the module is imported. *)
Definition Filter_BASE : loc := 0.
Definition Filter_DEBUG : loc := 1.
Definition Filter_TF : loc := 2.
Definition NodeFilter_BASE : loc := 3.
Definition NodeFilter_DEBUG : loc := 4.
Definition TopicFilter_DEBUG : loc := 5.
Definition TopicFilter_TF : loc := 6.
Definition ServiceTypeFilter_DEBUG : loc := 7.

(** Class attribute lookup, following inheritance from [Filter]. *)
Definition BASE_EXCLUSIONS (c : cls) : loc :=
  match c with
  | NodeFilter => NodeFilter_BASE
  | TopicFilter | ServiceTypeFilter => Filter_BASE
  end.

Definition DEBUG_EXCLUSIONS (c : cls) : loc :=
  match c with
  | NodeFilter => NodeFilter_DEBUG
  | TopicFilter => TopicFilter_DEBUG
  | ServiceTypeFilter => ServiceTypeFilter_DEBUG
  end.

Definition TF_EXCLUSIONS (c : cls) : loc :=
  match c with
  | TopicFilter => TopicFilter_TF
  | NodeFilter | ServiceTypeFilter => Filter_TF
  end.

(** A filter instance: three references. *)
Record instance := {
  _base_exclusions : loc;
  _debug_exclusions : loc;
  _tf_exclusions : loc
}.

Record state := {
  heap : gmap loc container;
  next_loc : loc;
  FILTER_OUT_DEBUG : bool;
  FILTER_OUT_TF : bool;
  INSTANCE : cls -> option instance
}.

Definition initial_state : state := {|
  heap :=
    <[Filter_BASE := PyDict ∅]> (
    <[Filter_DEBUG := PyDict ∅]> (
    <[Filter_TF := PyDict ∅]> (
    <[NodeFilter_BASE := PySet {["/roslaunch"]}]> (
    <[NodeFilter_DEBUG := PySet {["/rosout"]}]> (
    <[TopicFilter_DEBUG := PySet {["/rosout"; "/rosout_agg"; "/statistics"]}]> (
    <[TopicFilter_TF := PySet {["/tf"; "/tf_static"]}]> (
    <[ServiceTypeFilter_DEBUG :=
        PySet {["roscpp/GetLoggers"; "roscpp/SetLoggerLevel"]}]> ∅)))))));
  next_loc := 8;
  FILTER_OUT_DEBUG := false;
  FILTER_OUT_TF := false;
  INSTANCE := fun _ => None
|}.

(** [item in obj] *)
Definition py_in (st : state) (item : string) (l : loc) : bool :=
  match heap st !! l with
  | Some c => bool_decide (item ∈ members c)
  | None => false
  end.

(** A fresh empty dictionary [{}]. *)
Definition alloc_dict (st : state) : loc * state :=
  (next_loc st,
   {| heap := <[next_loc st := PyDict ∅]> (heap st);
      next_loc := S (next_loc st);
      FILTER_OUT_DEBUG := FILTER_OUT_DEBUG st;
      FILTER_OUT_TF := FILTER_OUT_TF st;
      INSTANCE := INSTANCE st |}).

(** [Filter.__init__(self, filter_out_debug, filter_out_tf)] *)
Definition __init__ (c : cls) (filter_out_debug filter_out_tf : bool)
    (st : state) : instance * state :=
  let base := BASE_EXCLUSIONS c in
  let '(d, st) := alloc_dict st in
  let '(t, st) := alloc_dict st in
  let d := if filter_out_debug then DEBUG_EXCLUSIONS c else d in
  let t := if filter_out_tf then TF_EXCLUSIONS c else t in
  ({| _base_exclusions := base; _debug_exclusions := d;
      _tf_exclusions := t |}, st).

(** [Filter.should_filter_out(self, item)] *)
Definition should_filter_out (self : instance) (item : string)
    (st : state) : bool :=
  py_in st item (_base_exclusions self)
  || py_in st item (_debug_exclusions self)
  || py_in st item (_tf_exclusions self).

Definition set_instance (c : cls) (i : instance) (st : state) : state :=
  {| heap := heap st; next_loc := next_loc st;
     FILTER_OUT_DEBUG := FILTER_OUT_DEBUG st;
     FILTER_OUT_TF := FILTER_OUT_TF st;
     INSTANCE := fun c' => if decide (c' = c) then Some i else INSTANCE st c' |}.

(** [Filter.get_filter(cls)] *)
Definition get_filter (c : cls) (st : state) : instance * state :=
  match INSTANCE st c with
  | Some i => (i, st)
  | None =>
      let '(i, st) := __init__ c (FILTER_OUT_DEBUG st) (FILTER_OUT_TF st) st in
      (i, set_instance c i st)
  end.

Definition store (l : loc) (c : container) (st : state) : state :=
  {| heap := <[l := c]> (heap st); next_loc := next_loc st;
     FILTER_OUT_DEBUG := FILTER_OUT_DEBUG st;
     FILTER_OUT_TF := FILTER_OUT_TF st;
     INSTANCE := INSTANCE st |}.

(** [obj.add(item)]: only sets have the method ([AttributeError] on a
    dictionary is [None]). *)
Definition set_add (l : loc) (item : string) (st : state) : option state :=
  match heap st !! l with
  | Some (PySet s) => Some (store l (PySet ({[item]} ∪ s)) st)
  | _ => None
  end.

(** [obj[item] = value]: only dictionaries support item assignment. *)
Definition dict_setitem (l : loc) (item : string) (st : state) : option state :=
  match heap st !! l with
  | Some (PyDict s) => Some (store l (PyDict ({[item]} ∪ s)) st)
  | _ => None
  end.

Definition set_flags (d t : bool) (st : state) : state :=
  {| heap := heap st; next_loc := next_loc st;
     FILTER_OUT_DEBUG := d; FILTER_OUT_TF := t;
     INSTANCE := INSTANCE st |}.

(** What the program does with the filters module, one step at a time. *)
Inductive op :=
| GetFilter (c : cls)                       (* [c.get_filter()] *)
| Construct (c : cls) (d t : bool)          (* [c(d, t)], e.g. [NodeFilter(True, True)] *)
| AddBase (c : cls) (item : string)         (* [c.BASE_EXCLUSIONS.add(item)] *)
| SetItemBase (c : cls) (item : string)     (* [c.BASE_EXCLUSIONS[item] = ...] *)
| SetDebugFlag (b : bool)                   (* [Filter.FILTER_OUT_DEBUG = b] *)
| SetTFFlag (b : bool).                     (* [Filter.FILTER_OUT_TF = b] *)

Definition step (o : op) (st : state) : option state :=
  match o with
  | GetFilter c => Some (get_filter c st).2
  | Construct c d t => Some (__init__ c d t st).2
  | AddBase c item => set_add (BASE_EXCLUSIONS c) item st
  | SetItemBase c item => dict_setitem (BASE_EXCLUSIONS c) item st
  | SetDebugFlag b => Some (set_flags b (FILTER_OUT_TF st) st)
  | SetTFFlag b => Some (set_flags (FILTER_OUT_DEBUG st) b st)
  end.

Fixpoint run (ops : list op) (st : state) : option state :=
  match ops with
  | [] => Some st
  | o :: ops' =>
      match step o st with
      | Some st' => run ops' st'
      | None => None
      end
  end.

(** The item [item] is put into the class-level base exclusions of [c]. *)
Definition adds_to_base (o : op) (c : cls) (item : string) : Prop :=
  o = AddBase c item \/ o = SetItemBase c item.

(** *** Invariants of the filter state *)

(** Every stored singleton still refers to its class's base container,
    and the module-level objects lie below the allocation pointer. *)
Record inv (st : state) : Prop := {
  inv_next : 8 <= next_loc st;
  inv_base : forall c i, INSTANCE st c = Some i ->
               _base_exclusions i = BASE_EXCLUSIONS c
}.

(** Nothing is ever removed from a module-level container, and a stored
    singleton is never replaced. *)
Record grows (st st' : state) : Prop := {
  grows_in : forall l item, l < 8 ->
               py_in st item l = true -> py_in st' item l = true;
  grows_instance : forall c i, INSTANCE st c = Some i -> INSTANCE st' c = Some i
}.

Lemma grows_refl st : grows st st.
Proof. split; auto. Qed.

Lemma grows_trans st1 st2 st3 : grows st1 st2 -> grows st2 st3 -> grows st1 st3.
Proof. intros [A B] [C D]. split; auto. Qed.

Lemma BASE_EXCLUSIONS_lt c : BASE_EXCLUSIONS c < 8.
Proof. destruct c; cbv; lia. Qed.

Lemma py_in_alloc st item l :
  l < next_loc st -> py_in (alloc_dict st).2 item l = py_in st item l.
Proof.
  intros Hl. unfold py_in, alloc_dict. simpl.
  rewrite lookup_insert_ne by lia. reflexivity.
Qed.

Lemma init_grows c d t st : inv st -> inv (__init__ c d t st).2
                                       /\ grows st (__init__ c d t st).2.
Proof.
  intros [Hn Hb]. unfold __init__. simpl. split.
  - split; simpl; [lia | exact Hb].
  - split; simpl; [|auto].
    intros l item Hl. unfold py_in. simpl.
    rewrite !lookup_insert_ne by lia. auto.
Qed.

Lemma get_filter_grows c st :
  inv st -> inv (get_filter c st).2 /\ grows st (get_filter c st).2.
Proof.
  intros Hinv. unfold get_filter.
  destruct (INSTANCE st c) as [i|] eqn:Hi.
  - split; [assumption | apply grows_refl].
  - destruct (init_grows c (FILTER_OUT_DEBUG st) (FILTER_OUT_TF st) st Hinv)
      as [[Hn Hb] [Hg1 Hg2]].
    assert (Hbase : _base_exclusions
              (__init__ c (FILTER_OUT_DEBUG st) (FILTER_OUT_TF st) st).1
            = BASE_EXCLUSIONS c) by reflexivity.
    destruct (__init__ c (FILTER_OUT_DEBUG st) (FILTER_OUT_TF st) st)
      as [i st'].
    simpl in *. split; split; simpl; auto.
    + intros c' i'. destruct (decide (c' = c)) as [->|]; [|auto].
      intros [= <-]. exact Hbase.
    + intros c' i' Hc'. destruct (decide (c' = c)) as [->|]; [congruence|auto].
Qed.

Lemma store_grows l (old new : container) st :
  heap st !! l = Some old -> members old ⊆ members new ->
  inv st -> inv (store l new st) /\ grows st (store l new st).
Proof.
  intros Hold Hsub [Hn Hb]. split; split; simpl; auto.
  intros l' item _. unfold py_in. simpl.
  destruct (decide (l = l')) as [<-|Hne].
  - rewrite lookup_insert_eq, Hold.
    rewrite !bool_decide_eq_true. apply Hsub.
  - rewrite lookup_insert_ne by assumption. auto.
Qed.

Lemma step_grows o st st' :
  inv st -> step o st = Some st' -> inv st' /\ grows st st'.
Proof.
  intros Hinv. destruct o as [c|c d t|c item|c item|b|b]; cbn [step].
  - intros [= <-]. exact (get_filter_grows c st Hinv).
  - intros [= <-]. exact (init_grows c d t st Hinv).
  - unfold set_add.
    destruct (heap st !! BASE_EXCLUSIONS c) as [[s|s]|] eqn:Hl; try discriminate.
    intros [= <-]. eapply store_grows; eauto. simpl. set_solver.
  - unfold dict_setitem.
    destruct (heap st !! BASE_EXCLUSIONS c) as [[s|s]|] eqn:Hl; try discriminate.
    intros [= <-]. eapply store_grows; eauto. simpl. set_solver.
  - intros [= <-]. destruct Hinv. split; split; simpl; auto.
  - intros [= <-]. destruct Hinv. split; split; simpl; auto.
Qed.

Lemma run_grows ops : forall st st',
  inv st -> run ops st = Some st' -> inv st' /\ grows st st'.
Proof.
  induction ops as [|o ops IH]; simpl; intros st st' Hinv.
  - intros [= <-]. split; [assumption | apply grows_refl].
  - destruct (step o st) as [st1|] eqn:Hstep; [|discriminate].
    intros Hrun. destruct (step_grows _ _ _ Hinv Hstep) as [Hinv1 Hg1].
    destruct (IH _ _ Hinv1 Hrun) as [Hinv' Hg']. split; [assumption|].
    eapply grows_trans; eassumption.
Qed.

Lemma run_app ops1 ops2 st st' :
  run (ops1 ++ ops2) st = Some st' ->
  exists st1, run ops1 st = Some st1 /\ run ops2 st1 = Some st'.
Proof.
  revert st. induction ops1 as [|o ops1 IH]; simpl; intros st.
  - eauto.
  - destruct (step o st); [apply IH | discriminate].
Qed.

Lemma inv_initial : inv initial_state.
Proof. split; simpl; [lia | discriminate]. Qed.

Lemma adds_to_base_in o c item st st' :
  adds_to_base o c item -> step o st = Some st' ->
  py_in st' item (BASE_EXCLUSIONS c) = true.
Proof.
  intros [-> | ->]; simpl; unfold set_add, dict_setitem;
    destruct (heap st !! BASE_EXCLUSIONS c) as [[s|s]|]; try discriminate;
    intros [= <-]; unfold py_in; simpl; rewrite lookup_insert_eq;
    apply bool_decide_eq_true; simpl; set_solver.
Qed.

Lemma get_filter_base c st :
  inv st -> _base_exclusions (get_filter c st).1 = BASE_EXCLUSIONS c.
Proof.
  intros [_ Hb]. unfold get_filter.
  destruct (INSTANCE st c) as [i|] eqn:Hi; simpl; [eauto | reflexivity].
Qed.

Lemma get_filter_stored c st :
  INSTANCE (get_filter c st).2 c = Some (get_filter c st).1.
Proof.
  unfold get_filter. destruct (INSTANCE st c) as [i|] eqn:Hi; simpl; [assumption|].
  destruct (decide (c = c)); congruence.
Qed.

Lemma get_filter_again c st i :
  INSTANCE st c = Some i -> (get_filter c st).1 = i.
Proof. intros H. unfold get_filter. rewrite H. reflexivity. Qed.

(** C10. Each filter singleton refers to the class-level
    [BASE_EXCLUSIONS] object instead of copying it: once an item has
    been put into a filter class's [BASE_EXCLUSIONS], at any moment
    before or after the singleton's first use, the singleton's
    [should_filter_out] answers [True] for it, whatever else the
    program does with the filters afterwards.  The debug and transform
    containers are chosen when the singleton is first built, from the
    flags of that moment, and the singleton is never rebuilt: later
    changes of [FILTER_OUT_DEBUG] and [FILTER_OUT_TF] do not alter the
    choice. *)
Theorem base_exclusions_held_by_reference :
  (forall c item o before after st,
      adds_to_base o c item ->
      run (before ++ o :: after) initial_state = Some st ->
      should_filter_out (get_filter c st).1 item (get_filter c st).2 = true)
  /\
  (forall c first_use later st1 st2,
      run first_use initial_state = Some st1 ->
      INSTANCE st1 c = None ->
      run later (get_filter c st1).2 = Some st2 ->
      let i := (get_filter c st2).1 in
      i = (get_filter c st1).1
      /\ _debug_exclusions i =
           (if FILTER_OUT_DEBUG st1 then DEBUG_EXCLUSIONS c else next_loc st1)
      /\ _tf_exclusions i =
           (if FILTER_OUT_TF st1 then TF_EXCLUSIONS c else S (next_loc st1))).
Proof.
  split.
  - intros c item o before after st Hadd Hrun.
    apply run_app in Hrun as (st1 & Hrun1 & Hrun2). simpl in Hrun2.
    destruct (step o st1) as [st2|] eqn:Hstep; [|discriminate].
    destruct (run_grows _ _ _ inv_initial Hrun1) as [Hinv1 _].
    destruct (step_grows _ _ _ Hinv1 Hstep) as [Hinv2 _].
    destruct (run_grows _ _ _ Hinv2 Hrun2) as [Hinv [Hin _]].
    destruct (get_filter_grows c st Hinv) as [_ [Hin' _]].
    unfold should_filter_out.
    rewrite (get_filter_base c st Hinv).
    rewrite (Hin' _ _ (BASE_EXCLUSIONS_lt c)); [reflexivity|].
    apply Hin; [apply BASE_EXCLUSIONS_lt|].
    eapply adds_to_base_in; eassumption.
  - intros c first_use later st1 st2 Hrun1 Hnone Hrun2 i.
    destruct (run_grows _ _ _ inv_initial Hrun1) as [Hinv1 _].
    destruct (get_filter_grows c st1 Hinv1) as [Hinv1' _].
    destruct (run_grows _ _ _ Hinv1' Hrun2) as [_ [_ Hinst]].
    assert (Hi : i = (get_filter c st1).1).
    { apply get_filter_again, Hinst, get_filter_stored. }
    split; [exact Hi|]. rewrite Hi.
    unfold get_filter. rewrite Hnone. unfold __init__. simpl.
    split; [destruct (FILTER_OUT_DEBUG st1) | destruct (FILTER_OUT_TF st1)];
      reflexivity.
Qed.

(** The run of [main] followed by [snapshot]: the flags are set and
    names are added before and after the node filter is first used. *)
Definition sample_run : list op :=
  [AddBase NodeFilter "/ros_snapshot"; SetDebugFlag true; SetTFFlag false;
   GetFilter NodeFilter; AddBase NodeFilter "/_ros2cli_daemon";
   SetDebugFlag false].

Definition sample_state : state :=
  default initial_state (run sample_run initial_state).

Lemma base_exclusions_held_by_reference_witness :
  should_filter_out (get_filter NodeFilter sample_state).1 "/_ros2cli_daemon"
    (get_filter NodeFilter sample_state).2 = true.
Proof.
  apply (proj1 base_exclusions_held_by_reference NodeFilter "/_ros2cli_daemon"
           (AddBase NodeFilter "/_ros2cli_daemon")
           [AddBase NodeFilter "/ros_snapshot"; SetDebugFlag true;
            SetTFFlag false; GetFilter NodeFilter]
           [SetDebugFlag false] sample_state).
  - left. reflexivity.
  - reflexivity.
Defined.

(** The debug selection made at first use survives the later flag change. *)
Example debug_selection_frozen :
  should_filter_out (get_filter NodeFilter sample_state).1 "/rosout"
    (get_filter NodeFilter sample_state).2 = true
  /\ FILTER_OUT_DEBUG sample_state = false.
Proof. split; reflexivity. Qed.

(** [TopicFilter] and [ServiceTypeFilter] share the dictionary of
    [Filter]; it has no [add]. *)
Example topic_base_has_no_add :
  step (AddBase TopicFilter "/x") initial_state = None.
Proof. reflexivity. Qed.

End Filters.

(** ** snapshot/builders/base_builders.py: [_BankBuilder]

    The abstract methods and the per-entity hooks are the section's
    variables; [_EntityBuilder.__init__] stores the name it is given,
    which is the one property of a freshly created builder the bank
    relies on. *)

Module BankBuilder.
Section BankBuilder.

Context {Builder : Type}.

(** [entity_builder.name] *)
Variable name : Builder -> string.
(** the subclass's [_create_entity_builder(name)] *)
Variable _create_entity_builder : string -> Builder.
(** the subclass's [_should_filter_out(name, entity_builder)] *)
Variable _should_filter_out : string -> Builder -> bool.
(** the effect of [entity_builder.prepare] on the builder *)
Variable entity_prepare : Builder -> Builder.

(** [self._name = name] in [_EntityBuilder.__init__] *)
Hypothesis created_name : forall n, name (_create_entity_builder n) = n.

(** [self._names_to_entity_builders] *)
Local Abbreviation bank := (gmap string Builder).

Definition add_entity_builder (b : Builder) (bk : bank) : bank :=
  <[name b := b]> bk.

(** [__getitem__]; [None] is the [KeyError] of the final lookup. *)
Definition __getitem__ (n : string) (bk : bank) : option (Builder * bank) :=
  let bk' :=
    match bk !! n with
    | None => add_entity_builder (_create_entity_builder n) bk
    | Some _ => bk
    end in
  match bk' !! n with
  | Some b => Some (b, bk')
  | None => None
  end.

Definition _gather_filtered_names_to_entity_builders (bk : bank) : bank :=
  filter (fun kv => _should_filter_out kv.1 kv.2 = false) bk.

(** the base class's [_post_prepare] returns at once, and no subclass
    overrides it *)
Definition _post_prepare (bk : bank) : bank := bk.

Definition prepare (bk : bank) : bank :=
  _post_prepare (entity_prepare <$> _gather_filtered_names_to_entity_builders bk).

Lemma getitem_absent n (bk : bank) :
  bk !! n = None ->
  __getitem__ n bk
  = Some (_create_entity_builder n, <[n := _create_entity_builder n]> bk).
Proof using created_name.
  intros Hn. unfold __getitem__, add_entity_builder.
  rewrite Hn, created_name, lookup_insert_eq. reflexivity.
Qed.

Lemma getitem_present n b (bk : bank) :
  bk !! n = Some b -> __getitem__ n bk = Some (b, bk).
Proof. intros Hn. unfold __getitem__. rewrite Hn, Hn. reflexivity. Qed.

Lemma prepare_filtered n b (bk : bank) :
  bk !! n = Some b -> _should_filter_out n b = true -> prepare bk !! n = None.
Proof.
  intros Hn Hf. unfold prepare, _post_prepare,
    _gather_filtered_names_to_entity_builders.
  rewrite lookup_fmap. apply fmap_None, map_lookup_filter_None.
  right. intros b' Hb'. simpl. congruence.
Qed.

Lemma prepare_kept n b (bk : bank) :
  bk !! n = Some b -> _should_filter_out n b = false ->
  prepare bk !! n = Some (entity_prepare b).
Proof.
  intros Hn Hf. unfold prepare, _post_prepare,
    _gather_filtered_names_to_entity_builders.
  rewrite lookup_fmap.
  erewrite (proj2 (map_lookup_filter_Some _ bk n b)); [reflexivity|].
  split; assumption.
Qed.

(** C9. Looking up a name always succeeds.  A name that is absent is
    given a freshly created builder, which is stored under that name.
    [prepare] drops the builders its filter rejects, yet a later lookup
    of a dropped name creates and stores a fresh builder again: the
    filtering is not a permanent exclusion. *)
Theorem lookup_recreates_filtered_builder :
  (forall n (bk : bank), exists b bk',
      __getitem__ n bk = Some (b, bk') /\ bk' !! n = Some b)
  /\ (forall n (bk : bank), bk !! n = None ->
        __getitem__ n bk
        = Some (_create_entity_builder n, <[n := _create_entity_builder n]> bk))
  /\ (forall n b (bk : bank),
        bk !! n = Some b -> _should_filter_out n b = true ->
        prepare bk !! n = None
        /\ exists bk', __getitem__ n (prepare bk)
                       = Some (_create_entity_builder n, bk')
                       /\ bk' !! n = Some (_create_entity_builder n)).
Proof using created_name.
  split; [|split].
  - intros n bk. destruct (bk !! n) as [b|] eqn:Hn.
    + exists b, bk. split; [apply getitem_present|]; assumption.
    + eexists _, _. split; [apply getitem_absent; assumption|].
      apply lookup_insert_eq.
  - apply getitem_absent.
  - intros n b bk Hn Hf.
    pose proof (prepare_filtered n b bk Hn Hf) as Hgone.
    split; [assumption|]. eexists. split; [apply getitem_absent; assumption|].
    apply lookup_insert_eq.
Qed.

End BankBuilder.

(** A node bank: builders are a name with the number of facts added,
    and [/rosout] is filtered. *)
Definition sample_create (n : string) : string * nat := (n, 0).
Definition sample_filter (n : string) (_ : string * nat) : bool :=
  String.eqb n "/rosout".
Definition sample_bank : gmap string (string * nat) :=
  <["/rosout" := ("/rosout", 3)]> (<["/talker" := ("/talker", 2)]> ∅).

Lemma lookup_recreates_filtered_builder_witness :
  prepare sample_filter id sample_bank !! "/rosout" = None
  /\ exists bk', __getitem__ fst sample_create "/rosout"
                   (prepare sample_filter id sample_bank)
                 = Some (("/rosout", 0), bk')
                 /\ bk' !! "/rosout" = Some ("/rosout", 0).
Proof.
  apply (proj2 (proj2 (lookup_recreates_filtered_builder
                         fst sample_create sample_filter id
                         (fun n => eq_refl)))
           "/rosout" ("/rosout", 3) sample_bank); reflexivity.
Defined.

End BankBuilder.

(** ** snapshot/builders/action_builder.py *)

Module Action.

(** The part of a [TopicBuilder] that the action builder reads. *)
Record TopicBuilder := {
  name : string;
  construct_type : option string;          (* [None] until the type is set *)
  _node_names_published : gset string;
  _node_names_subscribed : gset string
}.

(** [_EntityBuilder.__init__]: [f"/{name.split('/')[-1]}"] *)
Definition name_suffix (tb : TopicBuilder) : string :=
  "/" ++ PyStr.last_token "/" (name tb).

Definition CLIENT_PUBLISHED_TOPIC_SUFFIXES : gset string := {["/cancel"; "/goal"]}.
Definition SERVER_PUBLISHED_TOPIC_SUFFIXES : gset string :=
  {["/feedback"; "/result"; "/status"]}.
Definition TOPIC_SUFFIXES : gset string :=
  CLIENT_PUBLISHED_TOPIC_SUFFIXES ∪ SERVER_PUBLISHED_TOPIC_SUFFIXES.
Definition NUM_TOPIC_SUFFIXES : nat := size TOPIC_SUFFIXES.
Definition CORE_TOPIC_SUFFIXES_TO_TYPE_TOKENS : list (string * string) :=
  [("/feedback", "Feedback"); ("/goal", "Goal"); ("/result", "Result")].

Record ActionBuilder := {
  _topic_names_to_builders : gmap string TopicBuilder;
  _topic_name_suffixes_to_builders : gmap string TopicBuilder
}.

(** the two dictionaries after [ActionBuilder.__init__] *)
Definition new_action_builder : ActionBuilder :=
  {| _topic_names_to_builders := ∅; _topic_name_suffixes_to_builders := ∅ |}.

Definition add_topic_builder (self : ActionBuilder) (tb : TopicBuilder)
    : ActionBuilder :=
  {| _topic_names_to_builders := <[name tb := tb]> (_topic_names_to_builders self);
     _topic_name_suffixes_to_builders :=
       <[name_suffix tb := tb]> (_topic_name_suffixes_to_builders self) |}.

(** the builders handed to [_validate_topic_builders_have_required_suffixes]:
    [list(self.topic_names_to_builders.values())] *)
Definition topic_builder_values (self : ActionBuilder) : list TopicBuilder :=
  (map_to_list (_topic_names_to_builders self)).*2.

Definition _validate_topic_builders_have_required_suffixes
    (topic_builders : list TopicBuilder) : bool :=
  let found_topic_suffixes : gset string :=
    list_to_set (name_suffix <$> topic_builders) in
  bool_decide (3 <= size found_topic_suffixes)
  && bool_decide (found_topic_suffixes ⊆ TOPIC_SUFFIXES).

(** [topic_type and topic_type.endswith(f"Action{type_token}")] *)
Definition has_action_type (type_token : string) (tb : TopicBuilder) : bool :=
  match construct_type tb with
  | None => false
  | Some topic_type =>
      negb (String.eqb topic_type "")
      && PyStr.endswith topic_type ("Action" ++ type_token)
  end.

Definition _validate_core_topic_builders_have_required_types
    (topic_name_suffixes_to_builders : gmap string TopicBuilder) : bool :=
  forallb (fun '(core_suffix, type_token) =>
             match topic_name_suffixes_to_builders !! core_suffix with
             | None => false
             | Some topic_builder => has_action_type type_token topic_builder
             end)
          CORE_TOPIC_SUFFIXES_TO_TYPE_TOKENS.

Definition validate_action_topic_builders (self : ActionBuilder) : bool :=
  let valid_topic_suffixes :=
    _validate_topic_builders_have_required_suffixes (topic_builder_values self) in
  let valid_core_topic_types :=
    _validate_core_topic_builders_have_required_types
      (_topic_name_suffixes_to_builders self) in
  valid_topic_suffixes && valid_core_topic_types.

(** An action builder that received [tbs], first to last. *)
Definition action_builder_of (tbs : list TopicBuilder) : ActionBuilder :=
  foldl add_topic_builder new_action_builder tbs.

(** The suffixes the constituent topic builders expose. *)
Definition found_suffixes (self : ActionBuilder) : gset string :=
  list_to_set (name_suffix <$> topic_builder_values self).

(** [_add_or_increment_dictionary_count] *)
Definition _add_or_increment_dictionary_count
    (counts_dictionary : gmap string nat) (key : string) : gmap string nat :=
  <[key := S (default 0 (counts_dictionary !! key))]> counts_dictionary.

Section Counting.

(** [filters.NodeFilter.get_filter().should_filter_out] *)
Variable node_filter : string -> bool.

(** the properties [publisher_node_names] and [subscriber_node_names]:
    a list made from a set comprehension *)
Definition publisher_node_names (tb : TopicBuilder) : list string :=
  elements (filter (fun n => node_filter n = false) (_node_names_published tb)).
Definition subscriber_node_names (tb : TopicBuilder) : list string :=
  elements (filter (fun n => node_filter n = false) (_node_names_subscribed tb)).

(** One of the two loops of [_count_action_node_appearances]; [None]
    is the [KeyError] of a suffix without a topic builder. *)
Fixpoint count_suffixes (names : TopicBuilder -> list string)
    (self : ActionBuilder) (suffixes : list string)
    (action_node_to_counts : gmap string nat) : option (gmap string nat) :=
  match suffixes with
  | [] => Some action_node_to_counts
  | suffix :: rest =>
      match _topic_name_suffixes_to_builders self !! suffix with
      | None => None
      | Some topic_builder =>
          count_suffixes names self rest
            (foldl _add_or_increment_dictionary_count
                   action_node_to_counts (names topic_builder))
      end
  end.

(** The suffix sets are iterated in an order the code does not fix:
    they are lists here, in any order. *)
Definition _count_action_node_appearances (self : ActionBuilder)
    (publisher_suffixes subscriber_suffixes : list string)
    (action_node_to_counts : gmap string nat) : option (gmap string nat) :=
  match count_suffixes publisher_node_names self publisher_suffixes
          action_node_to_counts with
  | None => None
  | Some counts =>
      count_suffixes subscriber_node_names self subscriber_suffixes counts
  end.

End Counting.

(** [_gather_valid_action_node_names_based_on_appearance_counts]: the
    valid names, and the names an error is logged for. *)
Definition _gather_valid_action_node_names_based_on_appearance_counts
    (action_node_names_to_counts : gmap string nat)
    : gset string * gset string :=
  (dom (filter (fun kv => kv.2 = NUM_TOPIC_SUFFIXES) action_node_names_to_counts),
   dom (filter (fun kv => kv.2 <> NUM_TOPIC_SUFFIXES) action_node_names_to_counts)).

(** *** Validation of the constituent topic builders *)

Lemma NUM_TOPIC_SUFFIXES_eq : NUM_TOPIC_SUFFIXES = 5.
Proof. reflexivity. Qed.

Lemma elem_of_found_suffixes (self : ActionBuilder) (s : string) :
  s ∈ found_suffixes self <->
  exists k tb, _topic_names_to_builders self !! k = Some tb /\ name_suffix tb = s.
Proof.
  unfold found_suffixes, topic_builder_values.
  rewrite elem_of_list_to_set, list_elem_of_fmap. split.
  - intros (tb & -> & Htb). apply list_elem_of_fmap in Htb as ([k tb'] & -> & Hin).
    apply elem_of_map_to_list in Hin. eauto.
  - intros (k & tb & Hk & <-). exists tb. split; [reflexivity|].
    apply list_elem_of_fmap. exists (k, tb). split; [reflexivity|].
    apply elem_of_map_to_list. assumption.
Qed.

Lemma action_builder_of_snoc tbs tb :
  action_builder_of (tbs ++ [tb]) = add_topic_builder (action_builder_of tbs) tb.
Proof. unfold action_builder_of. rewrite foldl_app. reflexivity. Qed.

(** Both dictionaries only hold builders that were added, under their
    own name and their own suffix. *)
Lemma action_builder_of_keys tbs :
  (forall k tb, _topic_names_to_builders (action_builder_of tbs) !! k = Some tb ->
                name tb = k /\ tb ∈ tbs)
  /\ (forall s tb,
        _topic_name_suffixes_to_builders (action_builder_of tbs) !! s = Some tb ->
        name_suffix tb = s /\ tb ∈ tbs).
Proof.
  induction tbs as [|tb tbs [IHn IHs]] using rev_ind.
  - split; intros ? ? H; cbn in H; rewrite lookup_empty in H; discriminate.
  - rewrite action_builder_of_snoc. split; simpl.
    + intros k tb'. destruct (decide (name tb = k)) as [<-|Hne].
      * rewrite lookup_insert_eq. intros [= <-]. split; [reflexivity|].
        apply elem_of_app. right. apply list_elem_of_singleton. reflexivity.
      * rewrite lookup_insert_ne by assumption. intros H.
        destruct (IHn _ _ H). split; [assumption|]. apply elem_of_app. auto.
    + intros s tb'. destruct (decide (name_suffix tb = s)) as [<-|Hne].
      * rewrite lookup_insert_eq. intros [= <-]. split; [reflexivity|].
        apply elem_of_app. right. apply list_elem_of_singleton. reflexivity.
      * rewrite lookup_insert_ne by assumption. intros H.
        destruct (IHs _ _ H). split; [assumption|]. apply elem_of_app. auto.
Qed.

(** The suffixes found are those of all the builders ever added. *)
Lemma found_suffixes_of tbs :
  found_suffixes (action_builder_of tbs) = list_to_set (name_suffix <$> tbs).
Proof.
  induction tbs as [|tb tbs IH] using rev_ind.
  - reflexivity.
  - rewrite fmap_app, list_to_set_app_L, <- IH. simpl.
    apply set_eq. intros s. rewrite elem_of_union, !elem_of_found_suffixes.
    rewrite action_builder_of_snoc. simpl. split.
    + intros (k & tb' & Hk & <-).
      destruct (decide (name tb = k)) as [<-|Hne].
      * rewrite lookup_insert_eq in Hk. injection Hk as <-. right.
        apply elem_of_union. left. apply elem_of_singleton. reflexivity.
      * rewrite lookup_insert_ne in Hk by assumption. left. eauto.
    + intros [(k & tb' & Hk & <-) | Hs].
      * destruct (decide (name tb = k)) as [<-|Hne].
        -- exists (name tb), tb. rewrite lookup_insert_eq. split; [reflexivity|].
           destruct (proj1 (action_builder_of_keys tbs) _ _ Hk) as [Hname _].
           unfold name_suffix. rewrite Hname. reflexivity.
        -- exists k, tb'. rewrite lookup_insert_ne by assumption. auto.
      * apply elem_of_union in Hs as [Hs|Hs];
          [|apply not_elem_of_empty in Hs; contradiction].
        apply elem_of_singleton in Hs as ->.
        exists (name tb), tb. rewrite lookup_insert_eq. auto.
Qed.

Lemma core_types_spec (m : gmap string TopicBuilder) :
  _validate_core_topic_builders_have_required_types m = true <->
  forall core_suffix type_token,
    (core_suffix, type_token) ∈ CORE_TOPIC_SUFFIXES_TO_TYPE_TOKENS ->
    exists tb topic_type,
      m !! core_suffix = Some tb /\ construct_type tb = Some topic_type
      /\ PyStr.endswith topic_type ("Action" ++ type_token) = true.
Proof.
  unfold _validate_core_topic_builders_have_required_types.
  rewrite forallb_forall. split.
  - intros H s tok Hin. apply list_elem_of_In in Hin. specialize (H _ Hin).
    simpl in H. destruct (m !! s) as [tb|]; [|discriminate].
    unfold has_action_type in H.
    destruct (construct_type tb) as [ty|] eqn:Hty; [|discriminate].
    apply andb_true_iff in H as [_ H]. eauto.
  - intros H [s tok] Hin. apply list_elem_of_In in Hin.
    destruct (H _ _ Hin) as (tb & ty & -> & Hty & Hend).
    unfold has_action_type. rewrite Hty, Hend, andb_true_r.
    destruct ty; [|reflexivity].
    exfalso. revert Hend. clear. simpl.
    destruct tok; discriminate.
Qed.

(** C6. An action builder that was given the topic builders [tbs]
    accepts them exactly when they expose at least three distinct name
    suffixes, every suffix they expose is one of [/goal], [/cancel],
    [/feedback], [/result], [/status], and each of [/feedback], [/goal],
    [/result] is the suffix of an added topic builder whose type ends in
    [ActionFeedback], [ActionGoal], [ActionResult] respectively.  With
    two suffixes or fewer the action is rejected. *)
Theorem validate_action_topic_builders_iff (tbs : list TopicBuilder) :
  let self := action_builder_of tbs in
  let found : gset string := list_to_set (name_suffix <$> tbs) in
  (validate_action_topic_builders self = true <->
     3 <= size found
     /\ found ⊆ TOPIC_SUFFIXES
     /\ forall core_suffix type_token,
          (core_suffix, type_token) ∈ CORE_TOPIC_SUFFIXES_TO_TYPE_TOKENS ->
          exists tb topic_type,
            tb ∈ tbs /\ name_suffix tb = core_suffix
            /\ _topic_name_suffixes_to_builders self !! core_suffix = Some tb
            /\ construct_type tb = Some topic_type
            /\ PyStr.endswith topic_type ("Action" ++ type_token) = true)
  /\ (size found <= 2 -> validate_action_topic_builders self = false).
Proof.
  intros self found.
  assert (Hfound : found_suffixes self = found) by apply found_suffixes_of.
  assert (Hiff : validate_action_topic_builders self = true <->
     3 <= size found /\ found ⊆ TOPIC_SUFFIXES
     /\ _validate_core_topic_builders_have_required_types
          (_topic_name_suffixes_to_builders self) = true).
  { unfold validate_action_topic_builders,
      _validate_topic_builders_have_required_suffixes.
    fold (found_suffixes self). rewrite Hfound.
    rewrite !andb_true_iff, !bool_decide_eq_true. tauto. }
  split.
  - rewrite Hiff, core_types_spec. split.
    + intros (H3 & Hsub & Hcore). repeat split; try assumption.
      intros s tok Hin. destruct (Hcore s tok Hin) as (tb & ty & Hs & Hty & Hend).
      destruct (proj2 (action_builder_of_keys tbs) _ _ Hs) as [Hsuf Hmem].
      exists tb, ty. auto.
    + intros (H3 & Hsub & Hcore). repeat split; try assumption.
      intros s tok Hin.
      destruct (Hcore s tok Hin) as (tb & ty & _ & _ & Hs & Hty & Hend).
      eauto.
  - intros Hle. apply not_true_is_false. intros Hv.
    apply Hiff in Hv as [H3 _]. lia.
Qed.

(** The five topics of a well-formed action, and two of them only. *)
Definition sample_topic (n ty : string) : TopicBuilder :=
  {| name := n; construct_type := Some ty;
     _node_names_published := ∅; _node_names_subscribed := ∅ |}.

Definition fibonacci_topics : list TopicBuilder :=
  [sample_topic "/fibonacci/goal" "pkg/FibonacciActionGoal";
   sample_topic "/fibonacci/cancel" "actionlib_msgs/GoalID";
   sample_topic "/fibonacci/feedback" "pkg/FibonacciActionFeedback";
   sample_topic "/fibonacci/result" "pkg/FibonacciActionResult";
   sample_topic "/fibonacci/status" "actionlib_msgs/GoalStatusArray"].

Example five_suffixes_accepted :
  validate_action_topic_builders (action_builder_of fibonacci_topics) = true.
Proof. reflexivity. Qed.

Lemma validate_action_topic_builders_iff_witness :
  validate_action_topic_builders (action_builder_of (take 2 fibonacci_topics))
  = false.
Proof.
  apply (proj2 (validate_action_topic_builders_iff (take 2 fibonacci_topics))).
  vm_compute. lia.
Defined.

(** *** Appearance counts *)

(** On how many of the topics named by [suffixes] the node [n] is among
    the names [names] gives. *)
Fixpoint appearances (names : TopicBuilder -> list string)
    (self : ActionBuilder) (suffixes : list string) (n : string) : nat :=
  match suffixes with
  | [] => 0
  | suffix :: rest =>
      match _topic_name_suffixes_to_builders self !! suffix with
      | Some tb => if bool_decide (n ∈ names tb) then 1 else 0
      | None => 0
      end + appearances names self rest n
  end.

Definition count_of (counts : gmap string nat) (n : string) : nat :=
  default 0 (counts !! n).

Definition positive (counts : gmap string nat) : Prop :=
  forall n k, counts !! n = Some k -> 0 < k.

Lemma increment_count_of counts key n :
  count_of (_add_or_increment_dictionary_count counts key) n
  = count_of counts n + (if bool_decide (n = key) then 1 else 0).
Proof.
  unfold count_of, _add_or_increment_dictionary_count.
  case_bool_decide as Hn.
  - subst. rewrite lookup_insert_eq. simpl. lia.
  - rewrite lookup_insert_ne by congruence. lia.
Qed.

Lemma increment_positive counts key :
  positive counts -> positive (_add_or_increment_dictionary_count counts key).
Proof.
  intros Hpos n k. unfold _add_or_increment_dictionary_count.
  destruct (decide (key = n)) as [->|Hne].
  - rewrite lookup_insert_eq. intros [= <-]. lia.
  - rewrite lookup_insert_ne by assumption. apply Hpos.
Qed.

Lemma foldl_increment (l : list string) : forall counts n,
  NoDup l ->
  count_of (foldl _add_or_increment_dictionary_count counts l) n
  = count_of counts n + (if bool_decide (n ∈ l) then 1 else 0)
  /\ (positive counts ->
      positive (foldl _add_or_increment_dictionary_count counts l)).
Proof.
  induction l as [|x l IH]; intros counts n Hnd; cbn [foldl].
  - split; [|auto].
    case_bool_decide as Hn; [apply not_elem_of_nil in Hn; contradiction | lia].
  - apply NoDup_cons in Hnd as [Hx Hnd].
    destruct (IH (_add_or_increment_dictionary_count counts x) n Hnd) as [-> Hp].
    split; [|auto using increment_positive].
    rewrite increment_count_of.
    destruct (decide (n = x)) as [->|Hne].
    + rewrite (bool_decide_eq_true_2 (x = x)) by reflexivity.
      rewrite (bool_decide_eq_false_2 (x ∈ l)) by assumption.
      rewrite (bool_decide_eq_true_2 (x ∈ x :: l)) by left. lia.
    + rewrite (bool_decide_eq_false_2 (n = x)) by assumption.
      destruct (decide (n ∈ l)) as [Hin|Hnin].
      * rewrite (bool_decide_eq_true_2 (n ∈ l)) by assumption.
        rewrite (bool_decide_eq_true_2 (n ∈ x :: l)) by (right; assumption).
        lia.
      * rewrite (bool_decide_eq_false_2 (n ∈ l)) by assumption.
        rewrite (bool_decide_eq_false_2 (n ∈ x :: l)); [lia|].
        intros [?|?]%elem_of_cons; contradiction.
Qed.

Lemma count_suffixes_spec names self (suffixes : list string) :
  (forall tb, NoDup (names tb)) ->
  forall counts counts',
    count_suffixes names self suffixes counts = Some counts' ->
    (forall n, count_of counts' n
               = count_of counts n + appearances names self suffixes n)
    /\ (positive counts -> positive counts')
    /\ (forall s, s ∈ suffixes ->
          is_Some (_topic_name_suffixes_to_builders self !! s)).
Proof.
  intros Hnd. induction suffixes as [|s rest IH]; simpl; intros counts counts'.
  - intros [= <-]. split; [intros; lia|]. split; [auto|].
    intros s Hs. apply not_elem_of_nil in Hs. contradiction.
  - destruct (_topic_name_suffixes_to_builders self !! s) as [tb|] eqn:Hs;
      [|discriminate].
    intros Hrest. destruct (IH _ _ Hrest) as (Hc & Hp & Hall).
    split; [|split].
    + intros n. rewrite Hc.
      rewrite (proj1 (foldl_increment (names tb) counts n (Hnd tb))). lia.
    + intros Hpos. apply Hp.
      apply (proj2 (foldl_increment (names tb) counts s (Hnd tb))), Hpos.
    + intros s' Hs'. apply elem_of_cons in Hs' as [->|Hs']; [|auto].
      rewrite Hs. eauto.
Qed.

Lemma appearances_le names self suffixes n :
  appearances names self suffixes n <= length suffixes.
Proof.
  induction suffixes as [|s rest IH]; simpl; [lia|].
  destruct (_topic_name_suffixes_to_builders self !! s);
    [case_bool_decide|]; lia.
Qed.

Lemma appearances_full names self (suffixes : list string) n :
  appearances names self suffixes n = length suffixes <->
  forall s, s ∈ suffixes ->
    exists tb, _topic_name_suffixes_to_builders self !! s = Some tb
               /\ n ∈ names tb.
Proof.
  induction suffixes as [|s rest IH]; simpl.
  - split; [|reflexivity]. intros _ s Hs.
    apply not_elem_of_nil in Hs. contradiction.
  - pose proof (appearances_le names self rest n) as Hle. split.
    + intros Heq s' Hs'.
      destruct (_topic_name_suffixes_to_builders self !! s) as [tb|] eqn:Hs;
        [case_bool_decide as Hn|]; try lia.
      apply elem_of_cons in Hs' as [->|Hs']; [eauto|].
      apply IH; [lia | assumption].
    + intros Hall.
      destruct (Hall s) as (tb & -> & Hn); [left|].
      rewrite bool_decide_eq_true_2 by assumption.
      rewrite (proj2 IH); [lia|]. intros s' Hs'. apply Hall. right. assumption.
Qed.

Lemma elem_of_valid counts n :
  n ∈ (_gather_valid_action_node_names_based_on_appearance_counts counts).1
  <-> counts !! n = Some NUM_TOPIC_SUFFIXES.
Proof.
  unfold _gather_valid_action_node_names_based_on_appearance_counts. simpl.
  rewrite elem_of_dom. unfold is_Some. split.
  - intros (k & Hk). apply map_lookup_filter_Some in Hk as [Hk Heq].
    simpl in Heq. congruence.
  - intros Hk. exists NUM_TOPIC_SUFFIXES. apply map_lookup_filter_Some. auto.
Qed.

Lemma elem_of_logged counts n :
  n ∈ (_gather_valid_action_node_names_based_on_appearance_counts counts).2
  <-> exists k, counts !! n = Some k /\ k <> NUM_TOPIC_SUFFIXES.
Proof.
  unfold _gather_valid_action_node_names_based_on_appearance_counts. simpl.
  rewrite elem_of_dom. unfold is_Some. split.
  - intros (k & Hk). apply map_lookup_filter_Some in Hk as [Hk Heq]. eauto.
  - intros (k & Hk & Hne). exists k. apply map_lookup_filter_Some. auto.
Qed.

(** C5. For a role, the node appearances are counted over the topics
    whose suffix the role publishes and the topics whose suffix it
    subscribes to (a client publishes on [/cancel] and [/goal] and
    subscribes to [/feedback], [/result] and [/status]; a server the
    other way round), five suffixes in all.  A node is accepted exactly
    when its appearance count equals that total number of suffixes, that
    is, when it appears on every one of the topics checked; a node that
    appears on some of them only is left out and an error is logged for
    it. *)
Theorem valid_iff_appears_on_all_suffixes
    (node_filter : string -> bool) (self : ActionBuilder)
    (publisher_suffixes subscriber_suffixes : list string)
    (counts : gmap string nat) :
  length publisher_suffixes + length subscriber_suffixes = NUM_TOPIC_SUFFIXES ->
  _count_action_node_appearances node_filter self
    publisher_suffixes subscriber_suffixes ∅ = Some counts ->
  forall n,
    let total := length publisher_suffixes + length subscriber_suffixes in
    let k := appearances (publisher_node_names node_filter) self
               publisher_suffixes n
             + appearances (subscriber_node_names node_filter) self
                 subscriber_suffixes n in
    let result :=
      _gather_valid_action_node_names_based_on_appearance_counts counts in
    count_of counts n = k
    /\ (n ∈ result.1 <-> k = total)
    /\ (n ∈ result.1 <->
          (forall s, s ∈ publisher_suffixes ->
             exists tb, _topic_name_suffixes_to_builders self !! s = Some tb
                        /\ n ∈ publisher_node_names node_filter tb)
          /\ (forall s, s ∈ subscriber_suffixes ->
             exists tb, _topic_name_suffixes_to_builders self !! s = Some tb
                        /\ n ∈ subscriber_node_names node_filter tb))
    /\ (0 < k < total -> (n ∉ result.1) /\ (n ∈ result.2)).
Proof.
  intros Htotal Hcount n total k result.
  unfold _count_action_node_appearances in Hcount.
  destruct (count_suffixes (publisher_node_names node_filter) self
              publisher_suffixes ∅) as [c1|] eqn:H1; [|discriminate].
  assert (Hndp : forall tb, NoDup (publisher_node_names node_filter tb))
    by (intros; apply NoDup_elements).
  assert (Hnds : forall tb, NoDup (subscriber_node_names node_filter tb))
    by (intros; apply NoDup_elements).
  destruct (count_suffixes_spec _ _ _ Hndp _ _ H1) as (Hc1 & Hp1 & _).
  destruct (count_suffixes_spec _ _ _ Hnds _ _ Hcount) as (Hc2 & Hp2 & _).
  assert (Hpos : positive counts).
  { apply Hp2, Hp1. intros ? ? H. rewrite lookup_empty in H. discriminate. }
  assert (Hk : count_of counts n = k).
  { rewrite Hc2, Hc1. unfold count_of at 1. rewrite lookup_empty. reflexivity. }
  assert (Hvalid : n ∈ result.1 <-> k = total).
  { unfold result. rewrite elem_of_valid. unfold total. rewrite Htotal, <- Hk.
    unfold count_of. split; [intros ->; reflexivity|].
    destruct (counts !! n) as [j|]; simpl; [congruence|].
    rewrite NUM_TOPIC_SUFFIXES_eq. discriminate. }
  pose proof (appearances_le (publisher_node_names node_filter) self
                publisher_suffixes n) as Hle1.
  pose proof (appearances_le (subscriber_node_names node_filter) self
                subscriber_suffixes n) as Hle2.
  split; [exact Hk|]. split; [exact Hvalid|]. split.
  - rewrite Hvalid, <- !appearances_full. unfold k, total. lia.
  - intros [Hlo Hhi]. split.
    + rewrite Hvalid. lia.
    + unfold result. apply elem_of_logged. exists k. split.
      * revert Hk. unfold count_of.
        destruct (counts !! n) as [j|]; simpl; [congruence | lia].
      * unfold total in Hhi. lia.
Qed.

(** An action with one client and one server, and a node that only
    publishes goals. *)
Definition role_topic (n : string) (pubs subs : gset string) : TopicBuilder :=
  {| name := n; construct_type := None;
     _node_names_published := pubs; _node_names_subscribed := subs |}.

Definition sample_action : ActionBuilder :=
  action_builder_of
    [role_topic "/fib/goal" {["/client"; "/stray"]} {["/server"]};
     role_topic "/fib/cancel" {["/client"]} {["/server"]};
     role_topic "/fib/feedback" {["/server"]} {["/client"]};
     role_topic "/fib/result" {["/server"]} {["/client"]};
     role_topic "/fib/status" {["/server"]} {["/client"]}].

Definition sample_client_counts : gmap string nat :=
  default ∅ (_count_action_node_appearances (fun _ => false) sample_action
               ["/cancel"; "/goal"] ["/feedback"; "/result"; "/status"] ∅).

Lemma valid_iff_appears_on_all_suffixes_witness :
  ("/stray" ∉ (_gather_valid_action_node_names_based_on_appearance_counts
                 sample_client_counts).1)
  /\ ("/stray" ∈ (_gather_valid_action_node_names_based_on_appearance_counts
                    sample_client_counts).2).
Proof.
  apply (valid_iff_appears_on_all_suffixes (fun _ => false) sample_action
           ["/cancel"; "/goal"] ["/feedback"; "/result"; "/status"]
           sample_client_counts eq_refl eq_refl "/stray").
  vm_compute. split; lia.
Defined.

Example client_is_valid :
  (_gather_valid_action_node_names_based_on_appearance_counts
     sample_client_counts).1 = {["/client"]}.
Proof. reflexivity. Qed.

End Action.

(** ** snapshot/builders/node_builder.py: [NodeBuilder.get_node_pid]

    [NodeBuilder.__processes] is a dictionary from pid to the process
    record that [list_ros_like_processes] produced.  Its iteration order
    is observable (the guess takes the first remaining key), so it is the
    list of its values in insertion order; being keyed by pid, the pids
    of its values are pairwise distinct. *)

Module NodePid.

Record proc := {
  pid : Z;
  ppid : option Z;            (* [None]: the feed's ["Unknown"] *)
  name : string;
  cmdline : list string;
  assigned : option string
}.

Definition set_assigned (a : option string) (p : proc) : proc :=
  {| pid := pid p; ppid := ppid p; name := name p; cmdline := cmdline p;
     assigned := a |}.

(** The token-overlap test of the inner [else] branch; [len(m) >= len(t) / 2]
    on integers is [len(t) <= 2 * len(m)]. *)
Definition parts_overlap (node_name : string) (node_parts : list string)
    (last_cmd : string) : bool :=
  let cmd_parts := PyStr.split "_" last_cmd in
  let parts_match := List.filter (fun s => PyStr.contains s last_cmd) node_parts in
  let cmd_match := List.filter (fun s => PyStr.contains s node_name) cmd_parts in
  (length node_parts <=? 2 * length parts_match)%nat
  && (length cmd_parts <=? 2 * length cmd_match)%nat.

(** The body of [for cmd in cmdline], threading the two flags. *)
Fixpoint scan_cmdline (namespace node_name : string) (node_parts : list string)
    (cmds : list string) (found_ns found_name : bool) : bool * bool :=
  match cmds with
  | [] => (found_ns, found_name)
  | cmd :: rest =>
      let last_cmd := PyStr.last_token "/" cmd in
      let found_ns :=
        if PyStr.contains ("__ns:=" ++ namespace) cmd then true else found_ns in
      let found_name :=
        if PyStr.contains node_name last_cmd then true
        else if parts_overlap node_name node_parts last_cmd then true
             else found_name in
      scan_cmdline namespace node_name node_parts rest found_ns found_name
  end.

(** The body of [for proc in NodeBuilder.__processes.values()]: does the
    process enter [possible_procs]? *)
Definition is_candidate (namespace node_name : string) (p : proc) : bool :=
  let node_parts := PyStr.split "_" node_name in
  match cmdline p with
  | [] => false                         (* "Cannot process pid for ..." *)
  | _ :: _ =>
      let found_ns := String.eqb namespace "/" in
      let found_name := String.eqb (name p) node_name in
      let '(found_ns, found_name) :=
        if negb found_ns || negb found_name
        then scan_cmdline namespace node_name node_parts (cmdline p)
               found_ns found_name
        else (found_ns, found_name) in
      found_ns && found_name
  end.

Definition has_pid (procs : list proc) (x : Z) : bool :=
  existsb (fun p => Z.eqb (pid p) x) procs.

(** [parents_to_remove]: the parent pids that are themselves candidates *)
Definition parents_to_remove (possible_procs : list proc) : list Z :=
  omap (fun p => match ppid p with
                 | Some pp => if has_pid possible_procs pp then Some pp else None
                 | None => None
                 end) possible_procs.

(** [for k in ks: possible_procs.pop(k, None)] *)
Definition pop_all (ks : list Z) (possible_procs : list proc) : list proc :=
  List.filter (fun p => negb (existsb (Z.eqb (pid p)) ks)) possible_procs.

Definition previously_assigned (possible_procs : list proc) : list Z :=
  pid <$> List.filter (fun p => match assigned p with
                                | Some _ => true | None => false end)
                      possible_procs.

(** The assignment label: ["/".join([namespace, node_name])] unless the
    namespace is the root. *)
Definition label (namespace node_name : string) : string :=
  if String.eqb namespace "/" then node_name
  else namespace ++ "/" ++ node_name.

Definition mark_assigned (namespace node_name : string) (chosen : Z)
    (processes : list proc) : list proc :=
  (fun p => if Z.eqb (pid p) chosen
            then set_assigned
                   (Some match assigned p with
                         | None => label namespace node_name
                         | Some a => a ++ "," ++ label namespace node_name
                         end) p
            else p) <$> processes.

(** The pid that is selected, if any. *)
Definition select_pid (namespace node_name : string) (guess : bool)
    (processes : list proc) : option Z :=
  let possible_procs := List.filter (is_candidate namespace node_name) processes in
  match possible_procs with
  | [] => None                                   (* "Failed to find process pid" *)
  | [p] => Some (pid p)                          (* only relevant entry *)
  | _ =>
      let possible_procs :=
        pop_all (parents_to_remove possible_procs) possible_procs in
      let possible_procs :=
        pop_all (previously_assigned possible_procs) possible_procs in
      match possible_procs with
      | [] => None                               (* no unassigned process *)
      | [p] => Some (pid p)
      | p :: _ => if guess then Some (pid p) else None
      end
  end.

(** [get_node_pid]: the result and the process table afterwards. *)
Definition get_node_pid (namespace node_name : string) (guess : bool)
    (processes : list proc) : option Z * list proc :=
  match select_pid namespace node_name guess processes with
  | Some chosen => (Some chosen, mark_assigned namespace node_name chosen processes)
  | None => (None, processes)
  end.

(** *** The candidate filter as the specification words it *)

Definition namespace_matches (namespace : string) (p : proc) : Prop :=
  (exists cmd, cmd ∈ cmdline p /\ PyStr.contains ("__ns:=" ++ namespace) cmd = true)
  \/ namespace = "/".

Definition name_matches (node_name : string) (p : proc) : Prop :=
  name p = node_name
  \/ (exists cmd, cmd ∈ cmdline p
                  /\ PyStr.contains node_name (PyStr.last_token "/" cmd) = true)
  \/ (exists cmd, cmd ∈ cmdline p
                  /\ parts_overlap node_name (PyStr.split "_" node_name)
                       (PyStr.last_token "/" cmd) = true).

Definition candidate_as_specified (namespace node_name : string) (p : proc) : Prop :=
  namespace_matches namespace p /\ name_matches node_name p.

(** *** The candidate filter *)

(** What the loop over the command line computes. *)
Lemma scan_cmdline_spec namespace node_name node_parts cmds :
  forall found_ns found_name,
    scan_cmdline namespace node_name node_parts cmds found_ns found_name
    = (found_ns
       || existsb (fun cmd => PyStr.contains ("__ns:=" ++ namespace) cmd) cmds,
       found_name
       || existsb (fun cmd =>
                     PyStr.contains node_name (PyStr.last_token "/" cmd)
                     || parts_overlap node_name node_parts
                          (PyStr.last_token "/" cmd)) cmds).
Proof.
  induction cmds as [|cmd rest IH]; intros found_ns found_name.
  - cbn [scan_cmdline existsb]. rewrite !orb_false_r. reflexivity.
  - cbn [scan_cmdline existsb]. rewrite IH.
    destruct (PyStr.contains ("__ns:=" ++ namespace) cmd);
      destruct (PyStr.contains node_name (PyStr.last_token "/" cmd));
      destruct (parts_overlap node_name node_parts (PyStr.last_token "/" cmd));
      destruct found_ns; destruct found_name; reflexivity.
Qed.

Lemma is_candidate_nonempty namespace node_name p :
  cmdline p <> [] ->
  is_candidate namespace node_name p
  = (String.eqb namespace "/"
     || existsb (fun cmd => PyStr.contains ("__ns:=" ++ namespace) cmd) (cmdline p))
    && (String.eqb (name p) node_name
        || existsb (fun cmd =>
                      PyStr.contains node_name (PyStr.last_token "/" cmd)
                      || parts_overlap node_name (PyStr.split "_" node_name)
                           (PyStr.last_token "/" cmd)) (cmdline p)).
Proof.
  intros Hne. unfold is_candidate.
  destruct (cmdline p) as [|c cs] eqn:Hc; [congruence|].
  destruct (String.eqb namespace "/"); destruct (String.eqb (name p) node_name);
    cbn [negb orb]; try rewrite scan_cmdline_spec; reflexivity.
Qed.

Lemma existsb_elem_of {A} (f : A -> bool) (l : list A) :
  existsb f l = true <-> exists x, x ∈ l /\ f x = true.
Proof.
  rewrite existsb_exists. split; intros (x & Hin & Hf); exists x;
    (split; [apply list_elem_of_In; assumption | assumption]).
Qed.

(** C4, as the code has it.  A process whose command line is not empty
    is a candidate exactly when (one of its command-line tokens embeds
    [__ns:=<namespace>], or the namespace is the root) and (its name
    equals the node name, or the node name occurs in the last path
    segment of a command-line token, or at least half of the [_]-parts
    of the node name occur in that segment and at least half of the
    segment's [_]-parts occur in the node name).  A process with an empty
    command line is never a candidate. *)
Theorem candidate_iff_for_nonempty_cmdline namespace node_name p :
  (cmdline p <> [] ->
     (is_candidate namespace node_name p = true
      <-> candidate_as_specified namespace node_name p))
  /\ (cmdline p = [] -> is_candidate namespace node_name p = false).
Proof.
  split.
  - intros Hne. rewrite (is_candidate_nonempty _ _ _ Hne).
    unfold candidate_as_specified, namespace_matches, name_matches.
    rewrite andb_true_iff, !orb_true_iff, !existsb_elem_of, !String.eqb_eq.
    split.
    + intros [Hns Hname]. split; [tauto|].
      destruct Hname as [?|(cmd & Hin & H)]; [tauto|].
      apply orb_true_iff in H as [?|?]; eauto.
    + intros [Hns Hname]. split; [tauto|].
      destruct Hname as [?|[(cmd & Hin & H)|(cmd & Hin & H)]]; [tauto| |];
        right; exists cmd; rewrite H; split; auto using orb_true_r.
  - intros Hnil. unfold is_candidate. rewrite Hnil. reflexivity.
Qed.

(** The two processes of the specification's third scenario. *)
Definition talker : proc :=
  {| pid := 100; ppid := Some 1%Z; name := "python3";
     cmdline := ["python3"; "/ws/install/pkg/lib/pkg/talker"];
     assigned := None |}.
Definition talker_2 : proc :=
  {| pid := 101; ppid := Some 1%Z; name := "python3";
     cmdline := ["python3"; "/ws/install/pkg/lib/pkg/talker_2"];
     assigned := None |}.

Lemma candidate_iff_for_nonempty_cmdline_witness :
  is_candidate "/" "talker" talker = true
  <-> candidate_as_specified "/" "talker" talker.
Proof.
  apply (proj1 (candidate_iff_for_nonempty_cmdline "/" "talker" talker)).
  discriminate.
Defined.

(** A process the feed reports by its executable path, with no command
    line (it was not readable). *)
Definition no_cmdline : proc :=
  {| pid := 200; ppid := None; name := "talker"; cmdline := [];
     assigned := None |}.

(** C4 as stated fails: a process named as the node, in the root
    namespace, is not a candidate when its command line is empty. *)
Lemma candidate_iff_fails_without_cmdline :
  ~ (forall namespace node_name p,
       is_candidate namespace node_name p = true
       <-> candidate_as_specified namespace node_name p).
Proof.
  intros H. specialize (H "/" "talker" no_cmdline).
  assert (Hc : candidate_as_specified "/" "talker" no_cmdline).
  { split; [right; reflexivity | left; reflexivity]. }
  apply H in Hc. discriminate Hc.
Qed.

(** *** Selection among the candidates *)

Lemma filter_perm {A} (f : A -> bool) (l l' : list A) :
  l ≡ₚ l' -> List.filter f l ≡ₚ List.filter f l'.
Proof.
  induction 1 as [|x l l' _ IH|x y l|l1 l2 l3 _ IH1 _ IH2]; simpl.
  - constructor.
  - destruct (f x); [constructor|]; assumption.
  - destruct (f x), (f y); try reflexivity. apply perm_swap.
  - etransitivity; eassumption.
Qed.

Lemma elem_of_filter_bool {A} (f : A -> bool) (l : list A) x :
  x ∈ List.filter f l <-> x ∈ l /\ f x = true.
Proof. rewrite !list_elem_of_In. apply filter_In. Qed.

Lemma existsb_eqb_elem_of (x : Z) (ks : list Z) :
  existsb (Z.eqb x) ks = true <-> x ∈ ks.
Proof.
  rewrite existsb_elem_of. split.
  - intros (y & Hy & Heq). apply Z.eqb_eq in Heq. subst. assumption.
  - intros Hx. exists x. split; [assumption | apply Z.eqb_refl].
Qed.

Lemma has_pid_spec procs x :
  has_pid procs x = true <-> exists p, p ∈ procs /\ pid p = x.
Proof.
  unfold has_pid. rewrite existsb_elem_of.
  split; intros (p & Hp & Heq); exists p; (split; [assumption|]);
    apply Z.eqb_eq; assumption.
Qed.

Lemma has_pid_perm l l' x : l ≡ₚ l' -> has_pid l x = has_pid l' x.
Proof.
  intros Hperm. apply eq_true_iff_eq. rewrite !has_pid_spec.
  split; intros (p & Hp & Heq); exists p; (split; [|assumption]).
  - rewrite <- Hperm. assumption.
  - rewrite Hperm. assumption.
Qed.

Lemma pop_all_ext ks ks' l :
  (forall x, x ∈ ks <-> x ∈ ks') -> pop_all ks l = pop_all ks' l.
Proof.
  intros Hks. unfold pop_all. apply filter_ext. intros p. f_equal.
  apply eq_true_iff_eq. rewrite !existsb_eqb_elem_of. apply Hks.
Qed.

Lemma pop_all_perm ks l l' : l ≡ₚ l' -> pop_all ks l ≡ₚ pop_all ks l'.
Proof. apply filter_perm. Qed.

Lemma parents_to_remove_perm l l' x :
  l ≡ₚ l' -> x ∈ parents_to_remove l <-> x ∈ parents_to_remove l'.
Proof.
  intros Hperm. unfold parents_to_remove. rewrite !list_elem_of_omap.
  split; intros (p & Hp & Hx); exists p.
  - rewrite <- Hperm. split; [assumption|].
    destruct (ppid p) as [pp|]; [|discriminate].
    rewrite <- (has_pid_perm l l' pp Hperm). assumption.
  - rewrite Hperm. split; [assumption|].
    destruct (ppid p) as [pp|]; [|discriminate].
    rewrite (has_pid_perm l l' pp Hperm). assumption.
Qed.

Lemma previously_assigned_perm l l' x :
  l ≡ₚ l' -> x ∈ previously_assigned l <-> x ∈ previously_assigned l'.
Proof.
  intros Hperm. unfold previously_assigned.
  rewrite (filter_perm _ l l' Hperm). reflexivity.
Qed.

(** What remains after the parents and the assigned processes are
    removed. *)
Definition remaining (possible_procs : list proc) : list proc :=
  let possible_procs :=
    pop_all (parents_to_remove possible_procs) possible_procs in
  pop_all (previously_assigned possible_procs) possible_procs.

Lemma remaining_perm l l' : l ≡ₚ l' -> remaining l ≡ₚ remaining l'.
Proof.
  intros Hperm. unfold remaining.
  assert (H1 : pop_all (parents_to_remove l) l
               ≡ₚ pop_all (parents_to_remove l') l').
  { rewrite (pop_all_ext _ (parents_to_remove l') l)
      by (intros; apply parents_to_remove_perm; assumption).
    apply pop_all_perm. assumption. }
  rewrite (pop_all_ext _ (previously_assigned (pop_all (parents_to_remove l') l'))
             (pop_all (parents_to_remove l) l))
    by (intros; apply previously_assigned_perm; assumption).
  apply pop_all_perm. assumption.
Qed.

Lemma remaining_unassigned l p :
  p ∈ remaining l -> p ∈ l /\ assigned p = None.
Proof.
  unfold remaining, pop_all. intros Hp.
  apply elem_of_filter_bool in Hp as [Hp Hnot].
  pose proof Hp as Hp1. apply elem_of_filter_bool in Hp as [Hp _].
  split; [assumption|].
  destruct (assigned p) as [a|] eqn:Ha; [|reflexivity].
  apply negb_true_iff in Hnot.
  assert (Hin : pid p ∈ previously_assigned
            (List.filter
               (fun p0 => negb (existsb (Z.eqb (pid p0)) (parents_to_remove l))) l)).
  { unfold previously_assigned. apply list_elem_of_fmap. exists p.
    split; [reflexivity|]. apply elem_of_filter_bool.
    split; [assumption|]. rewrite Ha. reflexivity. }
  apply existsb_eqb_elem_of in Hin. congruence.
Qed.

(** The pid of the only element, if there is exactly one. *)
Definition sole (l : list proc) : option Z :=
  match l with
  | [p] => Some (pid p)
  | _ => None
  end.

Lemma sole_perm l l' : l ≡ₚ l' -> sole l = sole l'.
Proof.
  intros Hperm. pose proof (Permutation_length Hperm) as Hlen.
  destruct l as [|p [|q l]], l' as [|p' [|q' l']]; try discriminate Hlen;
    try reflexivity.
  apply Permutation_length_1 in Hperm. subst. reflexivity.
Qed.

Lemma select_pid_no_guess namespace node_name processes :
  select_pid namespace node_name false processes
  = let possible_procs := List.filter (is_candidate namespace node_name) processes in
    match possible_procs with
    | [] => None
    | [p] => Some (pid p)
    | _ => sole (remaining possible_procs)
    end.
Proof.
  unfold select_pid. cbv zeta.
  destruct (List.filter (is_candidate namespace node_name) processes)
    as [|p [|q l]]; reflexivity.
Qed.

Lemma select_pid_perm namespace node_name l l' :
  l ≡ₚ l' ->
  select_pid namespace node_name false l = select_pid namespace node_name false l'.
Proof.
  intros Hperm. rewrite !select_pid_no_guess. cbv zeta.
  pose proof (filter_perm (is_candidate namespace node_name) l l' Hperm) as Hf.
  pose proof (Permutation_length Hf) as Hlen.
  pose proof (sole_perm _ _ (remaining_perm _ _ Hf)) as Hsole.
  destruct (List.filter (is_candidate namespace node_name) l) as [|p [|q c]],
           (List.filter (is_candidate namespace node_name) l') as [|p' [|q' c']];
    try discriminate Hlen; try reflexivity; [|assumption].
  apply Permutation_length_1 in Hf. subst. reflexivity.
Qed.

Lemma pid_unique (l : list proc) p q :
  NoDup (pid <$> l) -> p ∈ l -> q ∈ l -> pid p = pid q -> p = q.
Proof.
  induction l as [|x l IH]; intros Hnd Hp Hq Heq.
  - apply not_elem_of_nil in Hp. contradiction.
  - rewrite fmap_cons in Hnd. apply NoDup_cons in Hnd as [Hx Hnd].
    apply elem_of_cons in Hp as [->|Hp]; apply elem_of_cons in Hq as [->|Hq].
    + reflexivity.
    + exfalso. apply Hx. rewrite Heq. apply list_elem_of_fmap. eauto.
    + exfalso. apply Hx. rewrite <- Heq. apply list_elem_of_fmap. eauto.
    + apply IH; assumption.
Qed.

Lemma select_pid_multi namespace node_name guess processes chosen :
  1 < length (List.filter (is_candidate namespace node_name) processes) ->
  select_pid namespace node_name guess processes = Some chosen ->
  exists q, q ∈ remaining (List.filter (is_candidate namespace node_name) processes)
            /\ pid q = chosen.
Proof.
  unfold select_pid. cbv zeta.
  destruct (List.filter (is_candidate namespace node_name) processes)
    as [|p [|q l]]; simpl length; try lia.
  intros _. fold (remaining (p :: q :: l)).
  destruct (remaining (p :: q :: l)) as [|p' [|q' l']]; [discriminate| |].
  - intros [= <-]. exists p'. split; [left | reflexivity].
  - destruct guess; [|discriminate].
    intros [= <-]. exists p'. split; [left | reflexivity].
Qed.

Lemma get_node_pid_fst namespace node_name guess processes :
  (get_node_pid namespace node_name guess processes).1
  = select_pid namespace node_name guess processes.
Proof.
  unfold get_node_pid.
  destruct (select_pid namespace node_name guess processes); reflexivity.
Qed.

(** C3, as the code has it.  When several processes are candidates, the
    one selected (with or without the guess) has no assignment marker
    yet.  A sole candidate is selected whatever its marker says.
    Without the guess the outcome, a pid or no match, is a function of
    the set of process records alone: it does not depend on the order in
    which the snapshot lists them, and the process tables afterwards
    agree up to that order. *)
Theorem get_node_pid_selection namespace node_name :
  (forall guess processes chosen p,
      NoDup (pid <$> processes) ->
      1 < length (List.filter (is_candidate namespace node_name) processes) ->
      (get_node_pid namespace node_name guess processes).1 = Some chosen ->
      p ∈ processes -> pid p = chosen -> assigned p = None)
  /\ (forall guess processes p,
        List.filter (is_candidate namespace node_name) processes = [p] ->
        (get_node_pid namespace node_name guess processes).1 = Some (pid p))
  /\ (forall processes processes',
        processes ≡ₚ processes' ->
        (get_node_pid namespace node_name false processes).1
        = (get_node_pid namespace node_name false processes').1
        /\ (get_node_pid namespace node_name false processes).2
           ≡ₚ (get_node_pid namespace node_name false processes').2).
Proof.
  split; [|split].
  - intros guess processes chosen p Hnd Hmulti Hsel Hp Hpid.
    rewrite get_node_pid_fst in Hsel.
    destruct (select_pid_multi _ _ _ _ _ Hmulti Hsel) as (q & Hq & Hqpid).
    apply remaining_unassigned in Hq as [Hq Hnone].
    apply elem_of_filter_bool in Hq as [Hq _].
    assert (p = q) as -> by (eapply pid_unique; eauto; congruence).
    assumption.
  - intros guess processes p Hsole. rewrite get_node_pid_fst.
    unfold select_pid. cbv zeta. rewrite Hsole. reflexivity.
  - intros processes processes' Hperm.
    pose proof (select_pid_perm namespace node_name _ _ Hperm) as Hsel.
    split; [rewrite !get_node_pid_fst; assumption|].
    unfold get_node_pid. rewrite <- Hsel.
    destruct (select_pid namespace node_name false processes); simpl;
      [|assumption].
    unfold mark_assigned. apply fmap_Permutation. assumption.
Qed.

Lemma get_node_pid_selection_witness :
  (get_node_pid "/" "talker" false [talker; talker_2]).1
  = (get_node_pid "/" "talker" false [talker_2; talker]).1
  /\ (get_node_pid "/" "talker" false [talker; talker_2]).2
     ≡ₚ (get_node_pid "/" "talker" false [talker_2; talker]).2.
Proof.
  apply (proj2 (proj2 (get_node_pid_selection "/" "talker"))
           [talker; talker_2] [talker_2; talker]).
  apply perm_swap.
Defined.

(** The third scenario: both processes match [talker], and both match
    [talker_2]; nothing is chosen without the guess.  Once a guess has
    given the first process to [talker], the other one is the only
    unassigned candidate left for [talker_2]. *)
Example two_talkers :
  (get_node_pid "/" "talker" false [talker; talker_2]).1 = None
  /\ (get_node_pid "/" "talker_2" false [talker; talker_2]).1 = None
  /\ (let after := (get_node_pid "/" "talker" true [talker; talker_2]) in
      after.1 = Some 100%Z
      /\ (get_node_pid "/" "talker_2" false after.2).1 = Some 101%Z).
Proof. vm_compute. auto. Qed.

(** The markers are part of the input: asked again for [talker_2] on the
    table the successful call left, the lookup finds every candidate
    assigned and reports no match. *)
Example second_call_sees_the_markers :
  let guessed := get_node_pid "/" "talker" true [talker; talker_2] in
  let found := get_node_pid "/" "talker_2" false guessed.2 in
  found.1 = Some 101%Z
  /\ (get_node_pid "/" "talker_2" false found.2).1 = None.
Proof. vm_compute. auto. Qed.

(** C3 as stated fails.  The process of [talker] is the only candidate
    for the node [talker_2] (half of the name's parts occur in the
    executable's name) and is assigned to it; looked up for the node
    [talker] afterwards, the same process is selected again, and the
    second node is appended to its marker. *)
Lemma get_node_pid_reselects_assigned_process :
  let first := get_node_pid "/" "talker_2" false [talker] in
  let second := get_node_pid "/" "talker" false first.2 in
  first.1 = Some 100%Z
  /\ assigned <$> first.2 = [Some "talker_2"]
  /\ second.1 = Some 100%Z
  /\ assigned <$> second.2 = [Some "talker_2,talker"].
Proof. vm_compute. auto. Qed.

End NodePid.

(** ** core/base_metamodel.py: [_EntityMetamodel.update_attributes]

    Attribute values are the Python values the entity schemas declare:
    [None], booleans, integers and strings, lists of those, dictionaries
    from strings to those, and sets of strings.  Floating-point values
    are left out.  An entity is the dictionary of its attributes, the
    fields its model declares (a field always has a value, [None] when
    nothing else was given); each
    attribute owns its list, dictionary or set (no two attributes share
    one object), so that an in-place [extend] or [update] of the value of
    an attribute is a change of that attribute alone. *)

Module Metamodel.

Inductive scalar :=
| SNone
| SBool (b : bool)
| SInt (z : Z)
| SStr (s : string).

Inductive value :=
| Scalar (x : scalar)
| VList (l : list scalar)
| VDict (d : gmap string scalar)
| VSet (s : gset string).

Abbreviation VNone := (Scalar SNone).

#[export] Instance scalar_eq_dec : EqDecision scalar.
Proof. solve_decision. Defined.

#[export] Instance value_eq_dec : EqDecision value.
Proof. solve_decision. Defined.

(** Where an operation leaves the values above (a list that would hold
    a dictionary, say), the model stops with [Unmodelled]. *)
Inductive exn := TypeError | ValueError | KeyError | AssertionError.

Inductive outcome (A : Type) :=
| Done (a : A)
| Raises (e : exn)
| Unmodelled.
Arguments Done {A} a.
Arguments Raises {A} e.
Arguments Unmodelled {A}.

(** [isinstance(x, int)], with the integer it stands for ([bool] is a
    subclass of [int]). *)
Definition as_int (x : scalar) : option Z :=
  match x with
  | SInt z => Some z
  | SBool b => Some (if b then 1 else 0)%Z
  | _ => None
  end.

(** [x == y] on scalars *)
Definition scalar_eq (x y : scalar) : bool :=
  match as_int x, as_int y with
  | Some a, Some b => Z.eqb a b
  | None, None =>
      match x, y with
      | SNone, SNone => true
      | SStr s, SStr t => String.eqb s t
      | _, _ => false
      end
  | _, _ => false
  end.

Fixpoint list_eq (l l' : list scalar) : bool :=
  match l, l' with
  | [], [] => true
  | x :: r, y :: r' => scalar_eq x y && list_eq r r'
  | _, _ => false
  end.

Definition dict_eq (d d' : gmap string scalar) : bool :=
  (size d =? size d')%nat
  && bool_decide (map_Forall (fun k v =>
                    match d' !! k with
                    | Some v' => scalar_eq v v'
                    | None => false
                    end = true) d).

(** [a == b] *)
Definition py_eq (a b : value) : bool :=
  match a, b with
  | Scalar x, Scalar y => scalar_eq x y
  | VList l, VList l' => list_eq l l'
  | VDict d, VDict d' => dict_eq d d'
  | VSet s, VSet s' => bool_decide (s = s')
  | _, _ => false
  end.

(** [x in l] for a list [l] *)
Definition list_contains (l : list scalar) (x : scalar) : bool :=
  existsb (fun y => scalar_eq x y) l.

(** the strings of a list, when all its elements are strings *)
Fixpoint all_strings (l : list scalar) : option (list string) :=
  match l with
  | [] => Some []
  | SStr s :: r => option_map (cons s) (all_strings r)
  | _ :: _ => None
  end.

Abbreviation entity := (gmap string value).

Section UpdateAttributes.

(** [int(s)] for a string: the integer it denotes, or [ValueError] *)
Variable py_int_of_str : string -> option Z.
(** [str(v)] *)
Variable py_str : value -> string.

(** The branch [elif key == "version"], for a current value [val]
    that is not [None]. *)
Definition new_version (val incoming : value) : value :=
  match val with
  | Scalar x =>
      match as_int x with
      | Some cur =>
          let val :=
            match incoming with
            | Scalar (SStr s) =>
                match py_int_of_str s with
                | Some val2 => Z.max cur val2
                | None => cur                  (* [ValueError], printed *)
                end
            | Scalar y =>
                match as_int y with
                | Some val2 => Z.max cur val2
                | None => cur                  (* [TypeError], passed *)
                end
            | _ => cur                         (* [TypeError], passed *)
            end in
          Scalar (SInt (val + 1))
      | None => Scalar (SStr (py_str val ++ "_" ++ py_str incoming))
      end
  | _ => Scalar (SStr (py_str val ++ "_" ++ py_str incoming))
  end.

(** The last [else]: "update based on specific types".  The result is
    the attribute's value afterwards. *)
Definition merge_by_type (val incoming : value) : outcome value :=
  match val with
  | VList l =>
      match incoming with
      | VList l' => Done (VList (l ++ l'))            (* [val.extend] *)
      | Scalar x =>
          if list_contains l x then Done (VList l)
          else Done (VList (l ++ [x]))                (* [val.append] *)
      | _ => Unmodelled
      end
  | VDict d =>
      match incoming with
      | VDict d' => Done (VDict (d' ∪ d))             (* [val.update] *)
      | Scalar (SBool _) | Scalar (SInt _) => Raises TypeError
      | _ => Unmodelled
      end
  | VSet s =>
      match incoming with
      | VSet s' => Done (VSet (s ∪ s'))               (* [val.update] *)
      | VDict d' => Done (VSet (s ∪ dom d'))
      | VList l' =>
          match all_strings l' with
          | Some strs => Done (VSet (s ∪ list_to_set strs))
          | None => Unmodelled
          end
      | Scalar (SBool _) | Scalar (SInt _) => Raises TypeError
      | _ => Unmodelled
      end
  | Scalar (SStr s) =>
      match incoming with
      | VList l' => Done (VList (SStr s :: l'))       (* [new_list.extend] *)
      | Scalar x =>
          if list_contains [SStr s] x then Done (VList [SStr s])
          else Done (VList [SStr s; x])               (* [new_list.append] *)
      | _ => Unmodelled
      end
  | Scalar _ => Done incoming                         (* by default *)
  end.

(** One round of the loop of [update_attributes], for the pair
    [(key, incoming)] and the attribute's current state [current].  The
    result is what the attribute is set to, [None] when it is left as
    it is.  With [current = None] the entity has no such attribute:
    [__getattribute__] raises [AttributeError], and the [__setattr__] in
    the handler is the one of pydantic's [BaseModel], which raises
    [ValueError] for a name that is not a field of the model (no model
    of the repository allows extra fields). *)
Definition new_value (key : string) (current : option value)
    (incoming : value) : outcome (option value) :=
  match current with
  | None => Raises ValueError           (* [__setattr__]: not a field *)
  | Some VNone => Done (Some incoming)
  | Some val =>
      if py_eq val incoming && negb (String.eqb key "version")
      then Done None
      else match incoming with
           | VNone => Done None
           | _ =>
               if String.eqb key "version"
               then Done (Some (new_version val incoming))
               else match merge_by_type val incoming with
                    | Done w => Done (Some w)
                    | Raises x => Raises x
                    | Unmodelled => Unmodelled
                    end
           end
  end.

Definition apply_value (key : string) (r : option value) (e : entity) : entity :=
  match r with
  | Some w => <[key := w]> e
  | None => e
  end.

Definition update_attribute (e : entity) (key : string) (incoming : value)
    : outcome entity :=
  match new_value key (e !! key) incoming with
  | Done r => Done (apply_value key r e)
  | Raises x => Raises x
  | Unmodelled => Unmodelled
  end.

(** [update_attributes(self, kwargs)]; the keyword arguments come in
    the order they were written, each keyword once. *)
Fixpoint update_attributes (e : entity) (kwargs : list (string * value))
    : outcome entity :=
  match kwargs with
  | [] => Done e
  | (key, incoming) :: rest =>
      match update_attribute e key incoming with
      | Done e' => update_attributes e' rest
      | Raises x => Raises x
      | Unmodelled => Unmodelled
      end
  end.

(** *** Equality of values *)

Lemma scalar_eq_refl x : scalar_eq x x = true.
Proof.
  destruct x as [|b|z|s]; unfold scalar_eq; simpl;
    auto using Z.eqb_refl, String.eqb_refl.
Qed.

Lemma scalar_eq_sym x y : scalar_eq x y = scalar_eq y x.
Proof.
  unfold scalar_eq.
  destruct (as_int x), (as_int y); try reflexivity; [apply Z.eqb_sym|].
  destruct x, y; try reflexivity. apply String.eqb_sym.
Qed.

Lemma list_eq_refl l : list_eq l l = true.
Proof.
  induction l as [|x l IH]; simpl; [reflexivity|].
  rewrite scalar_eq_refl, IH. reflexivity.
Qed.

Lemma list_eq_length l l' : list_eq l l' = true -> length l = length l'.
Proof.
  revert l'. induction l as [|x l IH]; intros [|y l']; simpl;
    try discriminate; [reflexivity|].
  intros [_ H]%andb_true_iff. f_equal. auto.
Qed.

Lemma dict_eq_refl d : dict_eq d d = true.
Proof.
  unfold dict_eq. rewrite Nat.eqb_refl. simpl.
  apply bool_decide_eq_true. intros k v Hk. rewrite Hk.
  apply scalar_eq_refl.
Qed.

Lemma py_eq_refl v : py_eq v v = true.
Proof.
  destruct v; simpl;
    auto using scalar_eq_refl, list_eq_refl, dict_eq_refl.
  apply bool_decide_eq_true. reflexivity.
Qed.

Lemma list_contains_app l l' x :
  list_contains (l ++ l') x = list_contains l x || list_contains l' x.
Proof. apply existsb_app. Qed.

(** *** The loop touches one attribute per keyword *)

Lemma apply_value_other key r (e : entity) k :
  k <> key -> apply_value key r e !! k = e !! k.
Proof.
  intros Hne. destruct r as [w|]; simpl; [|reflexivity].
  apply lookup_insert_ne. congruence.
Qed.

Lemma update_attribute_Done e key incoming e' :
  update_attribute e key incoming = Done e' ->
  exists r, new_value key (e !! key) incoming = Done r
            /\ e' = apply_value key r e.
Proof.
  unfold update_attribute.
  destruct (new_value key (e !! key) incoming) as [r| |]; try discriminate.
  intros [= <-]. eauto.
Qed.

Lemma update_attributes_fieldwise kwargs : forall (e e' : entity),
  NoDup kwargs.*1 ->
  update_attributes e kwargs = Done e' ->
  (forall k, k ∉ kwargs.*1 -> e' !! k = e !! k)
  /\ (forall k v, (k, v) ∈ kwargs ->
        exists r, new_value k (e !! k) v = Done r
                  /\ e' !! k = apply_value k r e !! k).
Proof.
  induction kwargs as [|[k0 v0] rest IH]; intros e e' Hnd Hrun.
  - injection Hrun as <-. split; [reflexivity|].
    intros k v Hin. apply not_elem_of_nil in Hin. contradiction.
  - rewrite fmap_cons in Hnd. apply NoDup_cons in Hnd as [Hk0 Hnd].
    cbn [update_attributes] in Hrun.
    destruct (update_attribute e k0 v0) as [e0| |] eqn:H0; try discriminate.
    apply update_attribute_Done in H0 as (r0 & Hr0 & ->).
    destruct (IH _ _ Hnd Hrun) as [Hout Hin]. split.
    + intros k Hk. rewrite fmap_cons in Hk.
      apply not_elem_of_cons in Hk as [Hne Hk].
      rewrite (Hout k Hk). apply apply_value_other. assumption.
    + intros k v Hkv. apply elem_of_cons in Hkv as [[= -> ->]|Hkv].
      * exists r0. split; [assumption|]. apply Hout. assumption.
      * assert (Hne : k <> k0).
        { intros ->. apply Hk0. apply list_elem_of_fmap.
          exists (k0, v). auto. }
        destruct (Hin k v Hkv) as (r & Hr & He').
        rewrite apply_value_other in Hr by assumption.
        exists r. split; [assumption|]. rewrite He'.
        destruct r as [w|]; simpl.
        -- rewrite !lookup_insert_eq. reflexivity.
        -- apply apply_value_other. assumption.
Qed.

Lemma update_attributes_total kwargs : forall (e : entity),
  NoDup kwargs.*1 ->
  (forall k v, (k, v) ∈ kwargs -> exists r, new_value k (e !! k) v = Done r) ->
  exists e', update_attributes e kwargs = Done e'.
Proof.
  induction kwargs as [|[k0 v0] rest IH]; intros e Hnd Hall.
  - eexists. reflexivity.
  - rewrite fmap_cons in Hnd. apply NoDup_cons in Hnd as [Hk0 Hnd].
    destruct (Hall k0 v0) as (r0 & Hr0); [left|].
    cbn [update_attributes]. unfold update_attribute. rewrite Hr0.
    apply IH; [assumption|]. intros k v Hkv.
    assert (Hne : k <> k0).
    { intros ->. apply Hk0. apply list_elem_of_fmap. exists (k0, v). auto. }
    rewrite apply_value_other by assumption. apply Hall. right. assumption.
Qed.

(** *** The merge rules *)

Lemma update_attribute_set (e : entity) key incoming w :
  new_value key (e !! key) incoming = Done (Some w) ->
  update_attribute e key incoming = Done (<[key := w]> e).
Proof. intros H. unfold update_attribute. rewrite H. reflexivity. Qed.

Lemma update_attribute_keep (e : entity) key incoming :
  new_value key (e !! key) incoming = Done None ->
  update_attribute e key incoming = Done e.
Proof. intros H. unfold update_attribute. rewrite H. reflexivity. Qed.

Lemma not_version key : key <> "version" -> String.eqb key "version" = false.
Proof. intros H. apply String.eqb_neq. assumption. Qed.


(** *** Calling twice with the same arguments *)

(** The one way in which a second call differs from the first: a
    non-empty incoming list meets an attribute that holds a string,
    or another non-empty list, and is appended once more. *)
Definition extends_with_list (current : option value) (incoming : value)
    : Prop :=
  match incoming, current with
  | VList (_ :: _), Some (VList (x :: l)) =>
      py_eq (VList (x :: l)) incoming = false
  | VList (_ :: _), Some (Scalar (SStr _)) => True
  | _, _ => False
  end.

(** The attribute after the round that returned [r]. *)
Definition after_round (r : option value) (current : option value)
    : option value :=
  match r with
  | Some w => Some w
  | None => current
  end.

(** A further round with [incoming] leaves the attribute as it is. *)
Definition settled (key : string) (current : option value)
    (incoming : value) : Prop :=
  exists r, new_value key current incoming = Done r
            /\ after_round r current = current.

Lemma settled_equal key w incoming :
  key <> "version" -> py_eq w incoming = true ->
  settled key (Some w) incoming.
Proof.
  intros Hkey Heq. unfold settled, new_value.
  rewrite Heq, (not_version _ Hkey). cbn [andb negb].
  destruct w as [[| | |]| | |]; try (exists None; split; reflexivity).
  destruct incoming as [[| | |]| | |]; try discriminate Heq.
  exists (Some VNone). split; reflexivity.
Qed.

Lemma settled_merge key w incoming :
  key <> "version" -> w <> VNone -> incoming <> VNone ->
  merge_by_type w incoming = Done w ->
  settled key (Some w) incoming.
Proof.
  intros Hkey Hw Hinc Hmerge.
  destruct (py_eq w incoming) eqn:Heq; [apply settled_equal; assumption|].
  exists (Some w). split; [|reflexivity].
  unfold new_value. rewrite Heq, (not_version _ Hkey), Hmerge.
  cbn [andb].
  destruct w as [[| | |]| | |]; try congruence;
    destruct incoming as [[| | |]| | |]; congruence.
Qed.

Lemma merge_twice val incoming w :
  merge_by_type val incoming = Done w ->
  py_eq val incoming = false ->
  ~ extends_with_list (Some val) incoming ->
  val <> VNone -> incoming <> VNone ->
  w <> VNone
  /\ (py_eq w incoming = true \/ merge_by_type w incoming = Done w).
Proof.
  intros Hmerge Hneq Hext Hval Hinc.
  destruct val as [[|b|z|s]|l|d|st]; try congruence.
  - (* bool *) injection Hmerge as <-. split; [assumption|].
    left. apply py_eq_refl.
  - (* int *) injection Hmerge as <-. split; [assumption|].
    left. apply py_eq_refl.
  - (* str *)
    destruct incoming as [x|l'|d'|s']; try discriminate Hmerge.
    + cbn [merge_by_type] in Hmerge.
      destruct (list_contains [SStr s] x) eqn:Hc; injection Hmerge as <-;
        (split; [discriminate|]); right; cbn [merge_by_type].
      * rewrite Hc. reflexivity.
      * unfold list_contains. cbn [existsb].
        rewrite scalar_eq_refl, orb_true_r. reflexivity.
    + injection Hmerge as <-. split; [discriminate|].
      destruct l' as [|y l']; [right; reflexivity|].
      exfalso. apply Hext. exact I.
  - (* list *)
    destruct incoming as [x|l'|d'|s']; try discriminate Hmerge.
    + cbn [merge_by_type] in Hmerge.
      destruct (list_contains l x) eqn:Hc; injection Hmerge as <-;
        (split; [discriminate|]); right; cbn [merge_by_type].
      * rewrite Hc. reflexivity.
      * rewrite list_contains_app. unfold list_contains at 2.
        cbn [existsb]. rewrite scalar_eq_refl, orb_true_r. reflexivity.
    + injection Hmerge as <-. split; [discriminate|].
      destruct l' as [|y l'].
      * right. cbn [merge_by_type]. rewrite !app_nil_r. reflexivity.
      * destruct l as [|x l]; [left; apply list_eq_refl|].
        exfalso. apply Hext. exact Hneq.
  - (* dict *)
    destruct incoming as [[| | |]|l'|d'|s']; try discriminate Hmerge.
    injection Hmerge as <-. split; [discriminate|]. right.
    cbn [merge_by_type]. rewrite (assoc_L (∪)), (idemp_L (∪)). reflexivity.
  - (* set *)
    destruct incoming as [[| | |]|l'|d'|s']; try discriminate Hmerge.
    + cbn [merge_by_type] in Hmerge.
      destruct (all_strings l') as [strs|] eqn:Hstrs; [|discriminate].
      injection Hmerge as <-. split; [discriminate|]. right.
      cbn [merge_by_type]. rewrite Hstrs.
      rewrite <- (assoc_L (∪) st), (idemp_L (∪)). reflexivity.
    + injection Hmerge as <-. split; [discriminate|]. right.
      cbn [merge_by_type].
      rewrite <- (assoc_L (∪) st), (idemp_L (∪)). reflexivity.
    + injection Hmerge as <-. split; [discriminate|]. right.
      cbn [merge_by_type].
      rewrite <- (assoc_L (∪) st), (idemp_L (∪)). reflexivity.
Qed.

Lemma new_value_merge key val incoming :
  key <> "version" -> val <> VNone -> incoming <> VNone ->
  py_eq val incoming = false ->
  new_value key (Some val) incoming
  = match merge_by_type val incoming with
    | Done w => Done (Some w)
    | Raises x => Raises x
    | Unmodelled => Unmodelled
    end.
Proof.
  intros Hkey Hval Hinc Hneq. unfold new_value.
  rewrite Hneq, (not_version _ Hkey). cbn [andb].
  destruct val as [[| | |]| | |]; try congruence;
    destruct incoming as [[| | |]| | |]; congruence.
Qed.

Lemma new_value_None_incoming key val :
  val <> VNone -> new_value key (Some val) VNone = Done None.
Proof.
  intros Hval. unfold new_value.
  destruct val as [[| | |]| | |]; try congruence;
    destruct (_ && _); reflexivity.
Qed.

Lemma new_value_twice key current incoming r :
  key <> "version" ->
  new_value key current incoming = Done r ->
  ~ extends_with_list current incoming ->
  settled key (after_round r current) incoming.
Proof.
  intros Hkey Hnew Hext.
  assert (Hfresh : settled key (Some incoming) incoming)
    by (apply settled_equal; [assumption | apply py_eq_refl]).
  destruct current as [val|]; [|discriminate Hnew].
  destruct (decide (val = VNone)) as [->|Hval];
    [injection Hnew as <-; exact Hfresh|].
  destruct (py_eq val incoming) eqn:Heq.
  - pose proof (settled_equal key val incoming Hkey Heq) as Hs.
    destruct Hs as (r' & Hr' & Hafter).
    rewrite Hnew in Hr'. injection Hr' as <-.
    rewrite Hafter. exists r. split; [assumption|].
    rewrite Hafter. reflexivity.
  - destruct (decide (incoming = VNone)) as [->|Hinc].
    + rewrite new_value_None_incoming in Hnew by assumption.
      injection Hnew as <-. exists None.
      split; [apply new_value_None_incoming; assumption | reflexivity].
    + rewrite new_value_merge in Hnew by assumption.
      destruct (merge_by_type val incoming) as [w| |] eqn:Hmerge;
        try discriminate.
      injection Hnew as <-. cbn [after_round].
      destruct (merge_twice _ _ _ Hmerge Heq Hext Hval Hinc) as [Hw [Hsame|Hm]].
      * apply settled_equal; assumption.
      * apply settled_merge; assumption.
Qed.

Lemma new_value_version current incoming :
  is_Some current ->
  exists r, new_value "version" current incoming = Done r.
Proof.
  intros [val ->]. unfold new_value.
  destruct val as [[| | |]| | |]; cbn [String.eqb negb];
    try rewrite andb_false_r;
    destruct incoming as [[| | |]| | |]; eauto.
Qed.

Lemma after_round_is_Some key current incoming r :
  new_value key current incoming = Done r -> is_Some (after_round r current).
Proof.
  destruct current as [val|]; [|discriminate].
  intros _. destruct r; cbn; eauto.
Qed.

Lemma lookup_apply_value key r (e : entity) :
  apply_value key r e !! key = after_round r (e !! key).
Proof. destruct r; simpl; [apply lookup_insert_eq | reflexivity]. Qed.

(** C8, as the code has it.  Provided no keyword passes a non-empty
    list to an attribute that holds a string or a different non-empty
    list, a second call with the same keyword arguments succeeds and
    changes no attribute other than [version].  An integer [version]
    that is passed again is raised again, to one more than the larger
    of the two; when [version] is not among the keywords it stays. *)
Theorem update_attributes_twice (e e1 : entity) kwargs :
  NoDup kwargs.*1 ->
  update_attributes e kwargs = Done e1 ->
  (forall k v, (k, v) ∈ kwargs -> k <> "version" ->
               ~ extends_with_list (e !! k) v) ->
  exists e2,
    update_attributes e1 kwargs = Done e2
    /\ (forall k, k <> "version" -> e2 !! k = e1 !! k)
    /\ (forall inc cur,
          ("version", Scalar (SInt inc)) ∈ kwargs ->
          e1 !! "version" = Some (Scalar (SInt cur)) ->
          e2 !! "version" = Some (Scalar (SInt (Z.max cur inc + 1))))
    /\ ("version" ∉ kwargs.*1 -> e2 !! "version" = e1 !! "version").
Proof.
  intros Hnd Hfirst Hext.
  destruct (update_attributes_fieldwise _ _ _ Hnd Hfirst) as [Hout1 Hin1].
  assert (Hsettled : forall k v, (k, v) ∈ kwargs -> k <> "version" ->
            settled k (e1 !! k) v).
  { intros k v Hkv Hk. destruct (Hin1 k v Hkv) as (r & Hr & He1).
    rewrite He1, lookup_apply_value.
    apply new_value_twice; auto. }
  destruct (update_attributes_total kwargs e1 Hnd) as [e2 Hsecond].
  { intros k v Hkv. destruct (decide (k = "version")) as [->|Hk].
    - apply new_value_version.
      destruct (Hin1 _ _ Hkv) as (r & Hr & He1).
      rewrite He1, lookup_apply_value.
      eapply after_round_is_Some. eassumption.
    - destruct (Hsettled k v Hkv Hk) as (r & Hr & _). eauto. }
  destruct (update_attributes_fieldwise _ _ _ Hnd Hsecond) as [Hout2 Hin2].
  exists e2. split; [assumption|]. split; [|split].
  - intros k Hk. destruct (decide (k ∈ kwargs.*1)) as [Hmem|Hmem];
      [|auto].
    apply list_elem_of_fmap in Hmem as ([k' v] & -> & Hkv). simpl in *.
    destruct (Hin2 k' v Hkv) as (r2 & Hr2 & He2).
    destruct (Hsettled k' v Hkv Hk) as (r & Hr & Hafter).
    rewrite Hr in Hr2. injection Hr2 as <-.
    rewrite He2, lookup_apply_value. assumption.
  - intros inc cur Hkv Hcur.
    destruct (Hin2 _ _ Hkv) as (r2 & Hr2 & He2).
    rewrite He2, lookup_apply_value. rewrite Hcur in Hr2.
    cbn in Hr2. rewrite andb_false_r in Hr2. injection Hr2 as <-.
    reflexivity.
  - apply Hout2.
Qed.

End UpdateAttributes.

(** A node specification found by the workspace modeller, updated with
    what a snapshot saw. *)
Definition sample_spec : entity :=
  <["name" := Scalar (SStr "pkg/talker")]> (
  <["source" := Scalar (SStr "workspace_modeler")]> (
  <["version" := Scalar (SInt 0)]> (
  <["file_path" := VList [SStr "/ws/a"]]> (
  <["validated" := Scalar (SBool false)]> ∅)))).


Example version_always_incremented :
  update_attributes (fun _ => None) (fun _ => "") sample_spec
    [("version", Scalar (SInt 0))] = Done (<["version" := Scalar (SInt 1)]> sample_spec).
Proof. reflexivity. Qed.

(** What the snapshot passes when it has learnt a specification. *)
Definition learnt_kwargs : list (string * value) :=
  [("validated", Scalar (SBool true));
   ("source", Scalar (SStr "ros_snapshot"));
   ("version", Scalar (SInt 0))].

Definition sample_spec_learnt : entity :=
  <["validated" := Scalar (SBool true)]> (
  <["source" := VList [SStr "workspace_modeler"; SStr "ros_snapshot"]]> (
  <["version" := Scalar (SInt 1)]> sample_spec)).

Lemma update_attributes_twice_witness :
  exists e2,
    update_attributes (fun _ => None) (fun _ => "") sample_spec_learnt
      learnt_kwargs = Done e2
    /\ (forall k, k <> "version" -> e2 !! k = sample_spec_learnt !! k)
    /\ (forall inc cur,
          ("version", Scalar (SInt inc)) ∈ learnt_kwargs ->
          sample_spec_learnt !! "version" = Some (Scalar (SInt cur)) ->
          e2 !! "version" = Some (Scalar (SInt (Z.max cur inc + 1))))
    /\ ("version" ∉ learnt_kwargs.*1 ->
        e2 !! "version" = sample_spec_learnt !! "version").
Proof.
  apply (update_attributes_twice (fun _ => None) (fun _ => "") sample_spec).
  - apply (bool_decide_unpack _). vm_compute. exact I.
  - reflexivity.
  - intros k v Hkv _.
    repeat (apply elem_of_cons in Hkv as [[= -> ->]|Hkv]); simpl; auto.
    apply not_elem_of_nil in Hkv. contradiction.
Defined.

(** A package specification whose node list is extended, as the
    workspace modeller does with [update_attributes(nodes=...)]. *)
Definition package_spec : entity :=
  <["name" := Scalar (SStr "pkg")]> (
  <["nodes" := VList [SStr "talker"]]> ∅).

(** C8 as stated fails: the same list argument is appended on every
    call, so the second call changes [nodes]. *)
Lemma list_argument_is_appended_again :
  update_attributes (fun _ => None) (fun _ => "") package_spec
    [("nodes", VList [SStr "listener"])]
  = Done (<["nodes" := VList [SStr "talker"; SStr "listener"]]> package_spec)
  /\ update_attributes (fun _ => None) (fun _ => "")
       (<["nodes" := VList [SStr "talker"; SStr "listener"]]> package_spec)
       [("nodes", VList [SStr "listener"])]
     = Done (<["nodes" := VList [SStr "talker"; SStr "listener"; SStr "listener"]]>
               package_spec).
Proof. split; reflexivity. Qed.

(** Without [version] among the keywords, the version stays. *)
Example version_untouched :
  update_attributes (fun _ => None) (fun _ => "") sample_spec
    [("file_path", Scalar (SStr "/ws/b"))]
  = Done (<["file_path" := VList [SStr "/ws/a"; SStr "/ws/b"]]> sample_spec).
Proof. reflexivity. Qed.

(** A keyword that names no attribute of the entity is refused, and the
    keywords after it are not looked at. *)
Example undeclared_attribute_is_refused :
  update_attributes (fun _ => None) (fun _ => "") sample_spec
    [("packages", Scalar (SStr "pkg")); ("version", Scalar (SInt 0))]
  = Raises ValueError.
Proof. reflexivity. Qed.

End Metamodel.

(** ** snapshot/snapshot.py: the specification reconciler

    A node specification is an entity of [Metamodel]; each of its I/O
    categories is [None] or a dictionary from tokens to types (the list
    form the schema also admits is left out).  A type is what
    [construct_type] of the item's builder returns: a string, or [None].
    Looking a name up in a bank builder always yields a builder, so a
    bank is the function from names to the [construct_type] found. *)

Module Reconciler.
Import Metamodel.

(** The values [_match_token_types] and [_validate_node_builder] return:
    [True], [False], or [None] when the function ends without a
    [return]. *)
Inductive pybool := PyTrue | PyFalse | PyNone.

Definition truthy (b : pybool) : bool :=
  match b with PyTrue => true | _ => false end.

Definition of_bool (b : bool) : pybool := if b then PyTrue else PyFalse.

(** The warnings that are logged. *)
Inductive warning :=
| IncorrectParameterCount                 (* "incorrect number of parameters" *)
| Unmatched (io_name : string).           (* "unmatched data {io_name}" *)

(** The lists a [NodeBuilder] reports. *)
Record NodeBuilder := {
  parameter_names : list string;
  action_clients : list string;
  action_servers : list string;
  published_topic_names : list string;
  subscribed_topic_names : list string;
  service_names_with_remap : list string
}.

(** [list_to_io_dict]: [{name: None for name in names}] *)
Definition list_to_io_dict (names : list string) : gmap string (option string) :=
  list_to_map ((fun n => (n, None)) <$> names).

(** The state of the loop of [_match_token_types]. *)
Record match_state := {
  available_tokens : gset string;
  io_names : gmap string (option string);
  io_is_valid : bool;
  log : list warning
}.

(** [for test in sorted(tests): if spec_types[test] == io_type: ... break] *)
Definition first_match (spec_types : gmap string scalar) (io_type : scalar)
    (tests : gset string) : option string :=
  List.find (fun test => match spec_types !! test with
                         | Some t => scalar_eq t io_type
                         | None => false
                         end)
            (PyStr.sorted (elements tests)).

Definition assign (io_name test : string) (st : match_state) : match_state :=
  {| available_tokens := available_tokens st ∖ {[test]};
     io_names := <[io_name := Some test]> (io_names st);
     io_is_valid := io_is_valid st;
     log := log st |}.

Definition is_unset (io_name : string) (st : match_state) : bool :=
  match io_names st !! io_name with
  | Some None => true
  | _ => false
  end.

(** The body of [for io_name in sorted(io_names)]. *)
Definition match_one (io_type_of : string -> scalar)
    (spec_types : gmap string scalar) (st : match_state) (io_name : string)
    : match_state :=
  let io_type := io_type_of io_name in
  let token := PyStr.last_token "/" io_name in
  let exact :=
    bool_decide (token ∈ available_tokens st)
    && match spec_types !! token with
       | Some t => scalar_eq io_type t
       | None => false
       end in
  if exact then assign io_name token st
  else
    let potential : gset string :=
      filter (fun ss => PyStr.contains token ss = true) (available_tokens st) in
    let remaining := available_tokens st ∖ potential in
    let st :=
      match first_match spec_types io_type potential with
      | Some test => assign io_name test st
      | None => st
      end in
    let st :=
      if is_unset io_name st then
        match first_match spec_types io_type remaining with
        | Some test => assign io_name test st
        | None => st
        end
      else st in
    if is_unset io_name st then
      {| available_tokens := available_tokens st; io_names := io_names st;
         io_is_valid := false; log := log st ++ [Unmatched io_name] |}
    else st.

(** [_match_token_types(node_name, io_names, io_builders, spec_types)]:
    the value returned and the warnings logged. *)
Definition _match_token_types (io_names : gmap string (option string))
    (io_type_of : string -> scalar) (spec_types : option (gmap string scalar))
    : pybool * list warning :=
  match spec_types with
  | None =>
      if (0 <? size io_names)%nat then (PyFalse, [])
      else (PyNone, [])                        (* no [return] is reached *)
  | Some spec_types =>
      let st :=
        foldl (match_one io_type_of spec_types)
          {| available_tokens := dom spec_types; io_names := io_names;
             io_is_valid := true; log := [] |}
          (PyStr.sorted (elements (dom io_names))) in
      (of_bool (io_is_valid st), log st)
  end.

(** An I/O category of the specification: [None] or a dictionary. *)
Definition category (node_spec : entity) (field : string)
    : outcome (option (gmap string scalar)) :=
  match node_spec !! field with
  | Some VNone => Done None
  | Some (VDict d) => Done (Some d)
  | _ => Unmodelled
  end.

#[export] Instance outcome_bind : MBind outcome := fun A B f m =>
  match m with
  | Done a => f a
  | Raises e => Raises e
  | Unmodelled => Unmodelled
  end.

(** [node_is_valid = node_is_valid and self._match_token_types(...)]:
    the arguments are evaluated and the call is made only if
    [node_is_valid] is true so far. *)
Definition and_match (acc : outcome (pybool * list warning))
    (names : list string) (io_type_of : string -> scalar)
    (spec_types : outcome (option (gmap string scalar)))
    : outcome (pybool * list warning) :=
  '(node_is_valid, logged) ← acc;
  if truthy node_is_valid then
    spec_types ← spec_types;
    let call := _match_token_types (list_to_io_dict names) io_type_of spec_types in
    Done (call.1, (logged ++ call.2)%list)
  else Done (node_is_valid, logged).

Section Banks.

(** [bank_builder[name].construct_type] for the four banks *)
Variable parameter_type action_type topic_type service_type : string -> scalar.

(** [_validate_node_builder(node_name, node_builder, node_spec)] *)
Definition _validate_node_builder (node_builder : NodeBuilder)
    (node_spec : entity) : outcome (pybool * list warning) :=
  parameters ← category node_spec "parameters";
  match parameters with
  | None => Raises TypeError               (* [len(None)] *)
  | Some d =>
      let too_few :=
        (size d <? length (parameter_names node_builder))%nat in
      let acc :=
        Done (if too_few
              then (PyFalse, [IncorrectParameterCount; IncorrectParameterCount])
              else (PyTrue, [])) in
      let acc := and_match acc (parameter_names node_builder)
                   parameter_type (Done parameters) in
      let acc := and_match acc (parameter_names node_builder)
                   parameter_type (Done parameters) in
      let acc := and_match acc (action_clients node_builder)
                   action_type (category node_spec "action_clients") in
      let acc := and_match acc (action_servers node_builder)
                   action_type (category node_spec "action_servers") in
      let acc := and_match acc (published_topic_names node_builder)
                   topic_type (category node_spec "published_topics") in
      let acc := and_match acc (subscribed_topic_names node_builder)
                   topic_type (category node_spec "subscribed_topics") in
      let acc := and_match acc (service_names_with_remap node_builder)
                   service_type (category node_spec "services_provided") in
      acc
  end.

End Banks.

(** *** Validation: the chain of categories *)

(** The categories that get validated: all up to and including the
    first one that does not match. *)
Fixpoint validated_prefix (results : list (pybool * list warning))
    : list (pybool * list warning) :=
  match results with
  | [] => []
  | r :: rest => r :: (if truthy r.1 then validated_prefix rest else [])
  end.

Definition chain (start : pybool * list warning)
    (results : list (pybool * list warning)) : pybool * list warning :=
  foldl (fun acc r => if truthy acc.1 then (r.1, (acc.2 ++ r.2)%list) else acc)
        start results.

Lemma chain_invalid b logged results :
  truthy b = false -> chain (b, logged) results = (b, logged).
Proof.
  intros Hb. induction results as [|r rest IH]; [reflexivity|].
  unfold chain in *. cbn [foldl fst]. rewrite Hb. exact IH.
Qed.

Lemma chain_spec results : forall logged,
  Forall (fun r => r.1 <> PyNone) results ->
  (chain (PyTrue, logged) results).1 <> PyNone
  /\ ((chain (PyTrue, logged) results).1 = PyTrue
      <-> Forall (fun r => r.1 = PyTrue) results)
  /\ (chain (PyTrue, logged) results).2
     = (logged ++ concat (snd <$> validated_prefix results))%list.
Proof.
  induction results as [|[b l] rest IH]; intros logged Hall.
  - cbn. rewrite app_nil_r. repeat split; auto; discriminate.
  - apply Forall_cons in Hall as [Hb Hall]. simpl in Hb.
    unfold chain. cbn [foldl fst snd truthy]. fold (chain (b, (logged ++ l)%list) rest).
    destruct b; [|clear IH|contradiction].
    + destruct (IH (logged ++ l)%list Hall) as (H1 & H2 & H3).
      split; [assumption|]. split.
      * rewrite H2. split; [intros H; constructor; auto|].
        intros H. apply Forall_cons in H as [_ H]. assumption.
      * rewrite H3. cbn. rewrite <- app_assoc. reflexivity.
    + rewrite chain_invalid by reflexivity. cbn.
      split; [discriminate|]. split.
      * split; [discriminate|]. intros H. apply Forall_cons in H as [H _].
        discriminate H.
      * rewrite app_nil_r. reflexivity.
Qed.

Lemma match_token_types_dict io ty d :
  (_match_token_types io ty (Some d)).1 <> PyNone.
Proof. unfold _match_token_types. cbn. destruct (io_is_valid _); discriminate. Qed.

Lemma and_match_Done acc names ty d :
  and_match (Done acc) names ty (Done (Some d))
  = Done (chain acc [_match_token_types (list_to_io_dict names) ty (Some d)]).
Proof.
  destruct acc as [b l]. unfold and_match, chain. cbn.
  destruct (truthy b); reflexivity.
Qed.

Lemma chain_app acc results results' :
  chain (chain acc results) results' = chain acc (results ++ results').
Proof. unfold chain. rewrite foldl_app. reflexivity. Qed.

(** *** Validation: a single category *)

Lemma list_to_io_dict_lookup names n v :
  list_to_io_dict names !! n = Some v -> v = None.
Proof.
  unfold list_to_io_dict. induction names as [|x names IH]; cbn.
  - rewrite lookup_empty. discriminate.
  - destruct (decide (x = n)) as [->|Hne].
    + rewrite lookup_insert_eq. congruence.
    + rewrite lookup_insert_ne by assumption. exact IH.
Qed.

Lemma first_match_empty spec_types io_type :
  first_match spec_types io_type ∅ = None.
Proof. unfold first_match. rewrite elements_empty. reflexivity. Qed.

(** With nothing left to match against, an observed item is reported
    and the category becomes invalid. *)
Lemma match_one_no_tokens ty spec_types st io_name :
  available_tokens st = ∅ ->
  io_names st !! io_name = Some None ->
  match_one ty spec_types st io_name
  = {| available_tokens := ∅; io_names := io_names st;
       io_is_valid := false; log := (log st ++ [Unmatched io_name])%list |}.
Proof.
  intros Hav Hio. unfold match_one. rewrite Hav.
  rewrite bool_decide_eq_false_2 by apply not_elem_of_empty.
  cbn [andb]. rewrite filter_empty_L, difference_diag_L.
  rewrite first_match_empty. unfold is_unset. rewrite Hio. cbn iota.
  rewrite Hio, Hav. all: first [reflexivity | apply _].
Qed.

Lemma foldl_no_tokens ty spec_types (names : list string) : forall st,
  available_tokens st = ∅ ->
  (forall n, n ∈ names -> io_names st !! n = Some None) ->
  names <> [] ->
  let st' := foldl (match_one ty spec_types) st names in
  io_is_valid st' = false
  /\ log st' = (log st ++ (Unmatched <$> names))%list.
Proof.
  induction names as [|n names IH]; intros st Hav Hio Hne; [congruence|].
  cbn [foldl]. rewrite match_one_no_tokens; [|assumption|apply Hio; left].
  destruct names as [|n' names'].
  - cbn. split; reflexivity.
  - edestruct (IH {| available_tokens := ∅; io_names := io_names st;
                     io_is_valid := false;
                     log := (log st ++ [Unmatched n])%list |}) as [H1 H2];
      [reflexivity | | discriminate |].
    + intros m Hm. cbn. apply Hio. right. assumption.
    + split; [exact H1|]. rewrite H2. cbn. rewrite <- app_assoc. reflexivity.
Qed.

Lemma sorted_elem_of (l : list string) n : n ∈ PyStr.sorted l <-> n ∈ l.
Proof. unfold PyStr.sorted. rewrite merge_sort_Permutation. reflexivity. Qed.

Lemma sorted_nil_inv (l : list string) : PyStr.sorted l = [] -> l = [].
Proof.
  intros H. apply Permutation_nil_r. rewrite <- H. unfold PyStr.sorted.
  symmetry. apply merge_sort_Permutation.
Qed.

Lemma list_to_io_dict_nonempty x names : list_to_io_dict (x :: names) <> ∅.
Proof. unfold list_to_io_dict. cbn. apply insert_non_empty. Qed.

(** C1, as the code has it.  For a specification whose six categories
    are dictionaries, [_validate_node_builder] returns [True] or
    [False]; it returns [True] exactly when the specification has at
    least as many parameters as the node and every category matches in
    full.  The categories are matched in the order parameters (twice),
    action clients, action servers, published topics, subscribed topics,
    services, and only up to the first one that fails: what is logged
    is the two count warnings, or else the warnings of the categories up
    to and including the first failing one.  Taken alone, a category
    with observed items and no specification ([None]) is invalid; one
    with observed items and an empty dictionary is invalid and every
    item is reported; one with no observed items and a dictionary is
    valid. *)
Theorem validate_node_builder_by_category
    (parameter_type action_type topic_type service_type : string -> scalar)
    (node_builder : NodeBuilder) (node_spec : entity)
    (d_par d_ac d_as d_pub d_sub d_srv : gmap string scalar) :
  category node_spec "parameters" = Done (Some d_par) ->
  category node_spec "action_clients" = Done (Some d_ac) ->
  category node_spec "action_servers" = Done (Some d_as) ->
  category node_spec "published_topics" = Done (Some d_pub) ->
  category node_spec "subscribed_topics" = Done (Some d_sub) ->
  category node_spec "services_provided" = Done (Some d_srv) ->
  let matched names ty d :=
    _match_token_types (list_to_io_dict names) ty (Some d) in
  let results :=
    [matched (parameter_names node_builder) parameter_type d_par;
     matched (parameter_names node_builder) parameter_type d_par;
     matched (action_clients node_builder) action_type d_ac;
     matched (action_servers node_builder) action_type d_as;
     matched (published_topic_names node_builder) topic_type d_pub;
     matched (subscribed_topic_names node_builder) topic_type d_sub;
     matched (service_names_with_remap node_builder) service_type d_srv] in
  let too_few := (size d_par <? length (parameter_names node_builder))%nat in
  (exists res logged,
      _validate_node_builder parameter_type action_type topic_type service_type
        node_builder node_spec = Done (res, logged)
      /\ res <> PyNone
      /\ (res = PyTrue <->
            too_few = false /\ Forall (fun r => r.1 = PyTrue) results)
      /\ logged = if too_few
                  then [IncorrectParameterCount; IncorrectParameterCount]
                  else concat (snd <$> validated_prefix results))
  /\ (forall names ty, names <> [] ->
        _match_token_types (list_to_io_dict names) ty None = (PyFalse, []))
  /\ (forall names ty, names <> [] ->
        _match_token_types (list_to_io_dict names) ty (Some ∅)
        = (PyFalse,
           Unmatched <$> PyStr.sorted (elements (dom (list_to_io_dict names)))))
  /\ (forall ty d, _match_token_types (list_to_io_dict []) ty (Some d)
                   = (PyTrue, [])).
Proof.
  intros Hpar Hac Has Hpub Hsub Hsrv matched results too_few.
  split; [|split; [|split]].
  - unfold _validate_node_builder. rewrite Hpar, Hac, Has, Hpub, Hsub, Hsrv.
    cbn [mbind outcome_bind]. fold too_few.
    rewrite !and_match_Done. rewrite !chain_app. cbn [app].
    fold (matched (parameter_names node_builder) parameter_type d_par).
    fold (matched (action_clients node_builder) action_type d_ac).
    fold (matched (action_servers node_builder) action_type d_as).
    fold (matched (published_topic_names node_builder) topic_type d_pub).
    fold (matched (subscribed_topic_names node_builder) topic_type d_sub).
    fold (matched (service_names_with_remap node_builder) service_type d_srv).
    fold results.
    assert (Hres : Forall (fun r => r.1 <> PyNone) results)
      by (repeat constructor; apply match_token_types_dict).
    destruct too_few.
    + rewrite chain_invalid by reflexivity.
      eexists _, _. split; [reflexivity|]. split; [discriminate|].
      split; [|reflexivity]. split; [discriminate | intros [? _]; discriminate].
    + destruct (chain_spec results [] Hres) as (H1 & H2 & H3).
      exists (chain (PyTrue, []) results).1, (chain (PyTrue, []) results).2.
      split; [destruct (chain (PyTrue, []) results); reflexivity|].
      split; [assumption|]. split; [|assumption].
      rewrite H2. tauto.
  - intros [|x names] ty Hne; [congruence|].
    unfold _match_token_types.
    pose proof (list_to_io_dict_nonempty x names) as Hnonempty.
    apply map_size_non_empty_iff in Hnonempty.
    destruct (size (list_to_io_dict (x :: names))); [congruence|reflexivity].
  - intros names ty Hne. unfold _match_token_types.
    assert (Hsorted : PyStr.sorted (elements (dom (list_to_io_dict names))) <> []).
    { intros H. apply sorted_nil_inv, elements_empty_inv in H.
      apply leibniz_equiv in H. apply dom_empty_inv_L in H.
      destruct names as [|x names]; [congruence|].
      exact (list_to_io_dict_nonempty x names H). }
    edestruct (foldl_no_tokens ty ∅
                 (PyStr.sorted (elements (dom (list_to_io_dict names))))
                 {| available_tokens := dom (∅ : gmap string scalar);
                    io_names := list_to_io_dict names;
                    io_is_valid := true; log := [] |}) as [H1 H2].
    + cbn. apply dom_empty_L.
    + intros n Hn. cbn. apply sorted_elem_of, elem_of_elements, elem_of_dom in Hn.
      destruct Hn as [v Hv]. rewrite Hv.
      apply list_to_io_dict_lookup in Hv. congruence.
    + assumption.
    + rewrite H1, H2. reflexivity.
  - intros ty d. reflexivity.
Qed.

(** The types the sample banks report. *)
Definition sample_type (n : string) : scalar :=
  if String.eqb n "/foo/out" then SStr "T"
  else if String.eqb n "thresh" then SStr "float"
  else SNone.

Definition no_io : NodeBuilder :=
  {| parameter_names := []; action_clients := []; action_servers := [];
     published_topic_names := []; subscribed_topic_names := [];
     service_names_with_remap := [] |}.

(** A validated specification with empty categories, but for the
    published topics given. *)
Definition validated_spec (published : gmap string scalar) : entity :=
  <["validated" := Scalar (SBool true)]> (
  <["parameters" := VDict ∅]> (
  <["action_clients" := VDict ∅]> (
  <["action_servers" := VDict ∅]> (
  <["published_topics" := VDict published]> (
  <["subscribed_topics" := VDict ∅]> (
  <["services_provided" := VDict ∅]> ∅)))))).

(** The first scenario: [/foo] publishes [/foo/out] of type [T], and the
    specification declares [{"out": "T"}]. *)
Definition foo_builder : NodeBuilder :=
  {| parameter_names := []; action_clients := []; action_servers := [];
     published_topic_names := ["/foo/out"]; subscribed_topic_names := [];
     service_names_with_remap := [] |}.

Example foo_is_valid :
  _validate_node_builder sample_type sample_type sample_type sample_type
    foo_builder (validated_spec {["out" := SStr "T"]}) = Done (PyTrue, []).
Proof. reflexivity. Qed.

Lemma validate_node_builder_by_category_witness :
  exists res logged,
    _validate_node_builder sample_type sample_type sample_type sample_type
      foo_builder (validated_spec {["out" := SStr "T"]}) = Done (res, logged)
    /\ res <> PyNone.
Proof.
  destruct (proj1 (validate_node_builder_by_category
                     sample_type sample_type sample_type sample_type
                     foo_builder (validated_spec {["out" := SStr "T"]})
                     ∅ ∅ ∅ {["out" := SStr "T"]} ∅ ∅
                     eq_refl eq_refl eq_refl eq_refl eq_refl eq_refl))
    as (res & logged & Hrun & Hres & _).
  exists res, logged. split; assumption.
Defined.

(** A node with an action client and a published topic, neither of
    which the specification knows. *)
Definition stray_builder : NodeBuilder :=
  {| parameter_names := []; action_clients := ["/fib"]; action_servers := [];
     published_topic_names := ["/chatter"]; subscribed_topic_names := [];
     service_names_with_remap := [] |}.

(** C1 as stated fails: once the action clients have failed, the
    published topics are not validated; their unmatched item, which the
    category reports when matched alone, is never reported. *)
Lemma later_categories_are_not_validated :
  _validate_node_builder sample_type sample_type sample_type sample_type
    stray_builder (validated_spec ∅) = Done (PyFalse, [Unmatched "/fib"])
  /\ _match_token_types (list_to_io_dict (published_topic_names stray_builder))
       sample_type (Some ∅) = (PyFalse, [Unmatched "/chatter"]).
Proof. split; reflexivity. Qed.

(** A category without specification ([None]) and without observed
    items ends [_match_token_types] without a [return]: the node's
    result is [None]. *)
Example none_category_without_items :
  _validate_node_builder sample_type sample_type sample_type sample_type
    no_io (<["action_clients" := VNone]> (validated_spec ∅))
  = Done (PyNone, []).
Proof. reflexivity. Qed.

(** The substring fallback: the observed [/ns/rate] is matched with the
    specification token [loop_rate], and no token is used twice. *)
Example renamed_parameters :
  _match_token_types (list_to_io_dict ["/ns/rate"; "/ns/gain"])
    (fun _ => SStr "float")
    (Some (<["loop_rate" := SStr "float"]> {["k" := SStr "float"]}))
  = (PyTrue, [])
  /\ _match_token_types (list_to_io_dict ["/ns/rate"; "/ns/gain"])
       (fun _ => SStr "float") (Some {["loop_rate" := SStr "float"]})
     = (PyFalse, [Unmatched "/ns/rate"]).
Proof. split; reflexivity. Qed.

(** *** Learning an unvalidated specification *)

(** The body of the loop of [_update_node_specification_data]: the
    dictionary and the token counters after [spec_name]. *)
Definition record_one (item_type_of : string -> scalar)
    (acc : gmap string scalar * gmap string nat) (spec_name : string)
    : outcome (gmap string scalar * gmap string nat) :=
  let '(spec_data, token_map) := acc in
  let spec_type := item_type_of spec_name in
  let spec_token := PyStr.last_token "/" spec_name in
  match spec_data !! spec_token with
  | Some _ =>
      match token_map !! spec_token with
      | None => Raises KeyError                  (* [token_map[spec_token] += 1] *)
      | Some n =>
          Done (<[(spec_token ++ "_" ++ pretty (S n))%string := spec_type]> spec_data,
                <[spec_token := S n]> token_map)
      end
  | None =>
      Done (<[spec_token := spec_type]> spec_data, <[spec_token := 0]> token_map)
  end.

Fixpoint record_all (item_type_of : string -> scalar)
    (acc : gmap string scalar * gmap string nat) (names : list string)
    : outcome (gmap string scalar * gmap string nat) :=
  match names with
  | [] => Done acc
  | spec_name :: rest =>
      acc ← record_one item_type_of acc spec_name;
      record_all item_type_of acc rest
  end.

(** [_update_node_specification_data(spec_data, builder_data, item_builders)]:
    the dictionary [spec_data] afterwards. *)
Definition _update_node_specification_data (spec_data : gmap string scalar)
    (builder_data : list string) (item_type_of : string -> scalar)
    : outcome (gmap string scalar) :=
  let token_map : gmap string nat := (fun _ => 0) <$> spec_data in
  acc ← record_all item_type_of (spec_data, token_map) (PyStr.sorted builder_data);
  Done acc.1.

(** One category of [_update_node_specification]: the local dictionary
    is the specification's own dictionary, which is then changed in
    place, or a new one when the specification has [None]. *)
Definition learn_category (node_spec : entity) (field : string)
    (names : list string) (item_type_of : string -> scalar)
    : outcome (entity * gmap string scalar) :=
  current ← category node_spec field;
  match current with
  | None =>
      d ← _update_node_specification_data ∅ names item_type_of;
      Done (node_spec, d)
  | Some d0 =>
      d ← _update_node_specification_data d0 names item_type_of;
      Done (<[field := VDict d]> node_spec, d)
  end.

(** The parameters are gone through twice, [parameters] and
    [set_parameters] both starting from [node_spec.parameters], and
    [parameters.update(set_parameters)] follows.  When the
    specification has a dictionary, both names denote that one
    object. *)
Definition learn_parameters (node_spec : entity) (names : list string)
    (item_type_of : string -> scalar)
    : outcome (entity * gmap string scalar) :=
  current ← category node_spec "parameters";
  match current with
  | None =>
      parameters ← _update_node_specification_data ∅ names item_type_of;
      set_parameters ← _update_node_specification_data ∅ names item_type_of;
      Done (node_spec, set_parameters ∪ parameters)
  | Some d0 =>
      shared ← _update_node_specification_data d0 names item_type_of;
      shared ← _update_node_specification_data shared names item_type_of;
      let shared := shared ∪ shared in
      Done (<["parameters" := VDict shared]> node_spec, shared)
  end.

(** [assert node_spec.validated] (with [expected := true]) and
    [assert not node_spec.validated] (with [expected := false]) *)
Definition assert_validated (expected : bool) (node_spec : entity)
    : outcome unit :=
  match node_spec !! "validated" with
  | Some (Scalar (SBool b)) =>
      if Bool.eqb b expected then Done tt else Raises AssertionError
  | _ => Unmodelled
  end.

Section Learning.

Variable parameter_type action_type topic_type service_type : string -> scalar.
Variable py_int_of_str : string -> option Z.
Variable py_str : value -> string.

Definition learnt_arguments
    (parameters action_clients action_servers published_topics
       subscribed_topics services_provided : gmap string scalar)
    : list (string * value) :=
  [("validated", Scalar (SBool true));
   ("source", Scalar (SStr "ros_snapshot"));
   ("parameters", VDict parameters);
   ("action_clients", VDict action_clients);
   ("action_servers", VDict action_servers);
   ("published_topics", VDict published_topics);
   ("subscribed_topics", VDict subscribed_topics);
   ("services_provided", VDict services_provided);
   ("version", Scalar (SInt 0))].

(** [_update_node_specification(node_spec, node_builder)]: the
    specification afterwards. *)
Definition _update_node_specification (node_spec : entity)
    (node_builder : NodeBuilder) : outcome entity :=
  assert_validated false node_spec;;
  '(node_spec, parameters) ←
    learn_parameters node_spec (parameter_names node_builder) parameter_type;
  '(node_spec, action_clients) ←
    learn_category node_spec "action_clients"
      (action_clients node_builder) action_type;
  '(node_spec, action_servers) ←
    learn_category node_spec "action_servers"
      (action_servers node_builder) action_type;
  '(node_spec, published_topics) ←
    learn_category node_spec "published_topics"
      (published_topic_names node_builder) topic_type;
  '(node_spec, subscribed_topics) ←
    learn_category node_spec "subscribed_topics"
      (subscribed_topic_names node_builder) topic_type;
  '(node_spec, services_provided) ←
    learn_category node_spec "services_provided"
      (service_names_with_remap node_builder) service_type;
  node_spec ←
    update_attributes py_int_of_str py_str node_spec
      (learnt_arguments parameters action_clients action_servers
         published_topics subscribed_topics services_provided);
  assert_validated true node_spec;;
  Done node_spec.

End Learning.

(** The specification the workspace modeller made for the executable
    of [/bar], and a node with one parameter. *)
Definition bar_spec : entity :=
  <["name" := Scalar (SStr "/ws/install/pkg/lib/pkg/bar")]> (
  <["source" := Scalar (SStr "workspace_modeler")]> (
  <["version" := Scalar (SInt 1)]> (
  <["package" := Scalar (SStr "pkg")]> (
  <["file_path" := Scalar (SStr "/ws/install/pkg/lib/pkg/bar")]> (
  <["validated" := Scalar (SBool false)]> (
  <["parameters" := VNone]> (
  <["action_clients" := VNone]> (
  <["action_servers" := VNone]> (
  <["published_topics" := VNone]> (
  <["subscribed_topics" := VNone]> (
  <["services_provided" := VNone]> ∅))))))))))).

Definition bar_builder : NodeBuilder :=
  {| parameter_names := ["thresh"]; action_clients := []; action_servers := [];
     published_topic_names := []; subscribed_topic_names := [];
     service_names_with_remap := [] |}.

(** Three names with the same last token, learnt in one pass. *)
Example collisions_are_numbered :
  _update_node_specification_data ∅ ["/c/x"; "/a/x"; "/b/x"] (fun n => SStr n)
  = Done (<["x" := SStr "/a/x"]> (<["x_1" := SStr "/b/x"]> {["x_2" := SStr "/c/x"]})).
Proof. reflexivity. Qed.

(** What a pass records when no two tokens collide: every name's last
    token, with the name's type. *)
Definition learned (item_type_of : string -> scalar) (names : list string)
    : gmap string scalar :=
  list_to_map ((fun n => (PyStr.last_token "/" n, item_type_of n)) <$> names).

(** The names have pairwise different tokens, none of which is a key of
    [spec_data]. *)
Definition no_collision (spec_data : gmap string scalar) (names : list string)
    : Prop :=
  NoDup (PyStr.last_token "/" <$> names)
  /\ forall n, n ∈ names -> spec_data !! PyStr.last_token "/" n = None.

Lemma bind_Done {A B} (m : outcome A) (f : A -> outcome B) b :
  m ≫= f = Done b -> exists a, m = Done a /\ f a = Done b.
Proof. destruct m as [a| |]; try discriminate. intros H. eauto. Qed.

Lemma learned_lookup_None ty names tok :
  tok ∉ PyStr.last_token "/" <$> names -> learned ty names !! tok = None.
Proof.
  intros Hnot. unfold learned. apply not_elem_of_list_to_map.
  rewrite <- list_fmap_compose. exact Hnot.
Qed.

Lemma record_all_no_collision ty names : forall spec_data token_map,
  no_collision spec_data names ->
  exists token_map',
    record_all ty (spec_data, token_map) names
    = Done (learned ty names ∪ spec_data, token_map').
Proof.
  induction names as [|x names IH]; intros spec_data token_map [Hnd Hfresh].
  - exists token_map. cbn. unfold learned. cbn.
    rewrite (left_id_L ∅ (∪)). reflexivity.
  - rewrite fmap_cons in Hnd. apply NoDup_cons in Hnd as [Hx Hnd].
    cbn [record_all record_one]. rewrite (Hfresh x) by left.
    cbn [mbind outcome_bind].
    destruct (IH (<[PyStr.last_token "/" x := ty x]> spec_data)
                 (<[PyStr.last_token "/" x := 0]> token_map)) as [tm' ->].
    + split; [assumption|]. intros n Hn.
      rewrite lookup_insert_ne; [apply Hfresh; right; assumption|].
      intros Heq. apply Hx. rewrite Heq. apply list_elem_of_fmap. eauto.
    + exists tm'. do 2 f_equal. unfold learned at 2. cbn.
      fold (learned ty names).
      rewrite <- insert_union_l, <- insert_union_r; [reflexivity|].
      apply learned_lookup_None. assumption.
Qed.

Lemma learned_sorted ty names :
  NoDup (PyStr.last_token "/" <$> names) ->
  learned ty (PyStr.sorted names) = learned ty names.
Proof.
  intros Hnd. unfold learned.
  assert (Hperm : PyStr.sorted names ≡ₚ names)
    by apply merge_sort_Permutation.
  apply list_to_map_proper; [|rewrite Hperm; reflexivity].
  rewrite <- list_fmap_compose. rewrite Hperm. exact Hnd.
Qed.

Lemma update_data_no_collision ty spec_data names :
  no_collision spec_data names ->
  _update_node_specification_data spec_data names ty
  = Done (learned ty names ∪ spec_data).
Proof.
  intros [Hnd Hfresh]. unfold _update_node_specification_data.
  destruct (record_all_no_collision ty (PyStr.sorted names) spec_data
              ((fun _ => 0) <$> spec_data)) as [tm' ->].
  - assert (Hperm : PyStr.sorted names ≡ₚ names)
      by apply merge_sort_Permutation.
    split; [rewrite Hperm; assumption|].
    intros n Hn. apply Hfresh. rewrite <- Hperm. assumption.
  - cbn. rewrite learned_sorted by assumption. reflexivity.
Qed.

(** The dictionary a category starts from, and the specification after
    the category has been learnt: changed only if it had a dictionary. *)
Definition existing (c : option (gmap string scalar)) : gmap string scalar :=
  default ∅ c.

Definition store_if_dict (c : option (gmap string scalar)) (field : string)
    (d : gmap string scalar) (e : entity) : entity :=
  match c with
  | Some _ => <[field := VDict d]> e
  | None => e
  end.

Lemma lookup_store_ne c field d (e : entity) k :
  k <> field -> store_if_dict c field d e !! k = e !! k.
Proof.
  intros Hne. destruct c; cbn; [|reflexivity].
  apply lookup_insert_ne. congruence.
Qed.

Lemma category_store_ne c field d (e : entity) k :
  k <> field -> category (store_if_dict c field d e) k = category e k.
Proof. intros Hne. unfold category. rewrite lookup_store_ne by assumption. reflexivity. Qed.

(** After a category is learnt the attribute is [None] still, or holds
    the learnt dictionary already. *)
Definition ready (current : option value) (d : gmap string scalar) : Prop :=
  current = Some VNone \/ current = Some (VDict d).

Lemma lookup_store_ready c field d (e : entity) :
  category e field = Done c -> ready (store_if_dict c field d e !! field) d.
Proof.
  unfold category, ready. intros Hc.
  destruct c as [d0|]; cbn.
  - right. apply lookup_insert_eq.
  - left. destruct (e !! field) as [[[| | |]| | |]|]; try discriminate.
    reflexivity.
Qed.

Lemma learn_category_no_collision (e : entity) field names ty c :
  category e field = Done c ->
  no_collision (existing c) names ->
  learn_category e field names ty
  = Done (store_if_dict c field (learned ty names ∪ existing c) e,
          learned ty names ∪ existing c).
Proof.
  intros Hc Hno. unfold learn_category. rewrite Hc. cbn [mbind outcome_bind].
  destruct c as [d0|]; cbn [existing default] in *;
    rewrite (update_data_no_collision _ _ _ Hno); reflexivity.
Qed.

Lemma learn_parameters_none (e : entity) names ty :
  category e "parameters" = Done None ->
  NoDup (PyStr.last_token "/" <$> names) ->
  learn_parameters e names ty = Done (e, learned ty names).
Proof.
  intros Hc Hnd. unfold learn_parameters. rewrite Hc. cbn [mbind outcome_bind].
  rewrite update_data_no_collision
    by (split; [assumption | intros; apply lookup_empty]).
  cbn [mbind outcome_bind].
  rewrite (right_id_L ∅ (∪)), (idemp_L (∪)). reflexivity.
Qed.

(** A category whose pass returns [d]. *)
Lemma learn_category_Done (e : entity) field names ty c d :
  category e field = Done c ->
  _update_node_specification_data (existing c) names ty = Done d ->
  learn_category e field names ty = Done (store_if_dict c field d e, d).
Proof.
  intros Hc Hd. unfold learn_category. rewrite Hc. cbn [mbind outcome_bind].
  destruct c as [d0|].
  - change (existing (Some d0)) with d0 in Hd. rewrite Hd. reflexivity.
  - change (existing None) with (∅ : gmap string scalar) in Hd.
    rewrite Hd. reflexivity.
Qed.

(** The parameters of a specification that has none: the two passes
    start from two empty dictionaries and return the same. *)
Lemma learn_parameters_Done (e : entity) names ty d :
  category e "parameters" = Done None ->
  _update_node_specification_data ∅ names ty = Done d ->
  learn_parameters e names ty = Done (e, d).
Proof.
  intros Hc Hd. unfold learn_parameters. rewrite Hc. cbn [mbind outcome_bind].
  rewrite Hd. cbn [mbind outcome_bind]. rewrite (idemp_L (∪)). reflexivity.
Qed.

Lemma new_value_ready f_int f_str field current d r :
  field <> "version" -> ready current d ->
  new_value f_int f_str field current (VDict d) = Done r ->
  after_round r current = Some (VDict d).
Proof.
  intros Hkey [-> | ->]; cbn.
  - intros [= <-]. reflexivity.
  - rewrite dict_eq_refl, (not_version _ Hkey). cbn. intros [= <-]. reflexivity.
Qed.

Lemma new_value_ready_Done f_int f_str field current d :
  field <> "version" -> ready current d ->
  exists r, new_value f_int f_str field current (VDict d) = Done r.
Proof.
  intros Hkey [-> | ->]; cbn; [eauto|].
  rewrite dict_eq_refl, (not_version _ Hkey). cbn. eauto.
Qed.

Lemma assert_validated_inv expected (e : entity) :
  assert_validated expected e = Done tt <->
  e !! "validated" = Some (Scalar (SBool expected)).
Proof.
  unfold assert_validated.
  destruct (e !! "validated") as [[[|b| |]| | |]|]; try (split; discriminate).
  destruct b, expected; cbn; split; congruence.
Qed.

(** The provenance tag the schema allows: [None], a string, or a list. *)
Definition source_admissible (current : option value) : Prop :=
  current = Some VNone
  \/ (exists s, current = Some (Scalar (SStr s)))
  \/ (exists l, current = Some (VList l)).

Lemma new_value_source f_int f_str current :
  source_admissible current ->
  exists r, new_value f_int f_str "source" current
              (Scalar (SStr "ros_snapshot")) = Done r.
Proof.
  intros [-> | [[s ->] | [l ->]]]; unfold new_value.
  - eauto.
  - destruct (py_eq (Scalar (SStr s)) (Scalar (SStr "ros_snapshot")));
      cbn [andb negb String.eqb Ascii.eqb Bool.eqb]; [eauto|].
    cbn [merge_by_type].
    destruct (list_contains [SStr s] (SStr "ros_snapshot")); eauto.
  - cbn [py_eq andb]. cbn [String.eqb Ascii.eqb Bool.eqb merge_by_type].
    destruct (list_contains l (SStr "ros_snapshot")); eauto.
Qed.

Lemma category_None_inv (e : entity) field :
  category e field = Done None -> e !! field = Some VNone.
Proof.
  unfold category.
  destruct (e !! field) as [[[| | |]| | |]|]; try discriminate. reflexivity.
Qed.

Lemma learnt_arguments_NoDup p ac asv pub sub srv :
  NoDup (learnt_arguments p ac asv pub sub srv).*1.
Proof. apply (bool_decide_unpack _). vm_compute. exact I. Qed.

Ltac through_stores :=
  rewrite ?lookup_store_ne by discriminate;
  rewrite ?category_store_ne by discriminate.

(** [_update_node_specification] on an unvalidated specification
    without parameters, when every pass returns: the specification is
    validated and every category holds what its pass returned. *)
Lemma learning_completes
    (parameter_type action_type topic_type service_type : string -> scalar)
    (f_int : string -> option Z) (f_str : value -> string)
    (node_spec : entity) (node_builder : NodeBuilder)
    (c_ac c_as c_pub c_sub c_srv : option (gmap string scalar))
    (d_par d_ac d_as d_pub d_sub d_srv : gmap string scalar) :
  node_spec !! "validated" = Some (Scalar (SBool false)) ->
  source_admissible (node_spec !! "source") ->
  is_Some (node_spec !! "version") ->
  category node_spec "parameters" = Done None ->
  category node_spec "action_clients" = Done c_ac ->
  category node_spec "action_servers" = Done c_as ->
  category node_spec "published_topics" = Done c_pub ->
  category node_spec "subscribed_topics" = Done c_sub ->
  category node_spec "services_provided" = Done c_srv ->
  _update_node_specification_data ∅ (parameter_names node_builder)
    parameter_type = Done d_par ->
  _update_node_specification_data (existing c_ac) (action_clients node_builder)
    action_type = Done d_ac ->
  _update_node_specification_data (existing c_as) (action_servers node_builder)
    action_type = Done d_as ->
  _update_node_specification_data (existing c_pub)
    (published_topic_names node_builder) topic_type = Done d_pub ->
  _update_node_specification_data (existing c_sub)
    (subscribed_topic_names node_builder) topic_type = Done d_sub ->
  _update_node_specification_data (existing c_srv)
    (service_names_with_remap node_builder) service_type = Done d_srv ->
  exists learnt,
    _update_node_specification parameter_type action_type topic_type
      service_type f_int f_str node_spec node_builder = Done learnt
    /\ learnt !! "validated" = Some (Scalar (SBool true))
    /\ learnt !! "parameters" = Some (VDict d_par)
    /\ learnt !! "action_clients" = Some (VDict d_ac)
    /\ learnt !! "action_servers" = Some (VDict d_as)
    /\ learnt !! "published_topics" = Some (VDict d_pub)
    /\ learnt !! "subscribed_topics" = Some (VDict d_sub)
    /\ learnt !! "services_provided" = Some (VDict d_srv).
Proof.
  intros Hval Hsrc Hver Hpar Hac Has Hpub Hsub Hsrv
    Dpar Dac Das Dpub Dsub Dsrv.
  unfold _update_node_specification.
  rewrite (proj2 (assert_validated_inv false node_spec) Hval).
  cbn [mbind outcome_bind].
  rewrite (learn_parameters_Done _ _ _ _ Hpar Dpar). cbn [mbind outcome_bind].
  rewrite (learn_category_Done _ _ _ _ c_ac d_ac Hac Dac).
  cbn [mbind outcome_bind].
  rewrite (learn_category_Done _ _ _ _ c_as d_as)
    by (through_stores; assumption).
  cbn [mbind outcome_bind].
  rewrite (learn_category_Done _ _ _ _ c_pub d_pub)
    by (through_stores; assumption).
  cbn [mbind outcome_bind].
  rewrite (learn_category_Done _ _ _ _ c_sub d_sub)
    by (through_stores; assumption).
  cbn [mbind outcome_bind].
  rewrite (learn_category_Done _ _ _ _ c_srv d_srv)
    by (through_stores; assumption).
  cbn [mbind outcome_bind].
  set (e1 := store_if_dict c_ac "action_clients" d_ac node_spec).
  set (e2 := store_if_dict c_as "action_servers" d_as e1).
  set (e3 := store_if_dict c_pub "published_topics" d_pub e2).
  set (e4 := store_if_dict c_sub "subscribed_topics" d_sub e3).
  set (e5 := store_if_dict c_srv "services_provided" d_srv e4).
  assert (Rpar : ready (e5 !! "parameters") d_par).
  { left. unfold e5, e4, e3, e2, e1. through_stores.
    apply category_None_inv. assumption. }
  assert (Rac : ready (e5 !! "action_clients") d_ac).
  { unfold e5, e4, e3, e2. through_stores.
    apply lookup_store_ready. assumption. }
  assert (Ras : ready (e5 !! "action_servers") d_as).
  { unfold e5, e4, e3. through_stores.
    apply lookup_store_ready. unfold e1. through_stores. assumption. }
  assert (Rpub : ready (e5 !! "published_topics") d_pub).
  { unfold e5, e4. through_stores.
    apply lookup_store_ready. unfold e2, e1. through_stores. assumption. }
  assert (Rsub : ready (e5 !! "subscribed_topics") d_sub).
  { unfold e5. through_stores.
    apply lookup_store_ready. unfold e3, e2, e1. through_stores. assumption. }
  assert (Rsrv : ready (e5 !! "services_provided") d_srv).
  { apply lookup_store_ready. unfold e4, e3, e2, e1. through_stores.
    assumption. }
  assert (Hval5 : e5 !! "validated" = Some (Scalar (SBool false))).
  { unfold e5, e4, e3, e2, e1. through_stores. assumption. }
  assert (Hsrc5 : source_admissible (e5 !! "source")).
  { unfold e5, e4, e3, e2, e1. through_stores. assumption. }
  assert (Hver5 : is_Some (e5 !! "version")).
  { unfold e5, e4, e3, e2, e1. through_stores. assumption. }
  pose proof (learnt_arguments_NoDup d_par d_ac d_as d_pub d_sub d_srv) as Hnd.
  destruct (update_attributes_total f_int f_str
              (learnt_arguments d_par d_ac d_as d_pub d_sub d_srv) e5 Hnd)
    as [learnt Hrun].
  { intros k v Hkv. unfold learnt_arguments in Hkv.
    repeat (apply elem_of_cons in Hkv as [[= -> ->]|Hkv]).
    - rewrite Hval5. cbn. eauto.
    - apply new_value_source. assumption.
    - apply new_value_ready_Done; [discriminate | assumption].
    - apply new_value_ready_Done; [discriminate | assumption].
    - apply new_value_ready_Done; [discriminate | assumption].
    - apply new_value_ready_Done; [discriminate | assumption].
    - apply new_value_ready_Done; [discriminate | assumption].
    - apply new_value_ready_Done; [discriminate | assumption].
    - apply new_value_version. assumption.
    - apply not_elem_of_nil in Hkv. contradiction. }
  rewrite Hrun. cbn [mbind outcome_bind].
  destruct (update_attributes_fieldwise _ _ _ _ _ Hnd Hrun) as [_ Hfield].
  assert (Hdict : forall field d,
            (field, VDict d) ∈ learnt_arguments d_par d_ac d_as d_pub d_sub d_srv ->
            field <> "version" -> ready (e5 !! field) d ->
            learnt !! field = Some (VDict d)).
  { intros field d Hin Hkey Hready.
    destruct (Hfield _ _ Hin) as (r & Hr & ->).
    rewrite lookup_apply_value. eapply new_value_ready; eassumption. }
  assert (Hlearnt : learnt !! "validated" = Some (Scalar (SBool true))).
  { destruct (Hfield "validated" (Scalar (SBool true))) as (r & Hr & ->);
      [left|].
    rewrite lookup_apply_value. rewrite Hval5 in *. cbn in Hr.
    injection Hr as <-. reflexivity. }
  rewrite (proj2 (assert_validated_inv true learnt) Hlearnt).
  cbn [mbind outcome_bind].
  exists learnt. split; [reflexivity|]. split; [assumption|].
  unfold learnt_arguments in Hdict.
  repeat split; apply Hdict; try discriminate; try assumption;
    repeat first [left | right].
Qed.

Lemma no_collision_nil spec_data : no_collision spec_data [].
Proof.
  split; [constructor|]. intros n Hn. apply not_elem_of_nil in Hn. contradiction.
Qed.

End Reconciler.

(** ** core/base_metamodel.py: what [update_attributes] never loses *)

Module AttributesKept.
Import Metamodel.

(** [after] holds what [before] held: a list was extended at its end, a
    dictionary has its keys still, a set its members, and a scalar that
    was not [None] did not become [None]. *)
Definition keeps (before after : value) : Prop :=
  match before with
  | VNone => True
  | Scalar _ => after <> VNone
  | VList l => exists more, after = VList (l ++ more)
  | VDict d => exists d', after = VDict d' /\ dom d ⊆ dom d'
  | VSet s => exists s', after = VSet s' /\ s ⊆ s'
  end.

Lemma keeps_refl v : keeps v v.
Proof.
  destruct v as [[| | |]|l|d|s]; cbn; try discriminate; try exact I.
  - exists []. rewrite app_nil_r. reflexivity.
  - exists d. split; reflexivity.
  - exists s. split; reflexivity.
Qed.

Lemma keeps_not_None before after :
  keeps before after -> before <> VNone -> after <> VNone.
Proof.
  destruct before as [[| | |]|l|d|s]; cbn; try congruence.
  - intros [more ->]. discriminate.
  - intros (d' & -> & _). discriminate.
  - intros (s' & -> & _). discriminate.
Qed.

Section Kept.

Variable py_int_of_str : string -> option Z.
Variable py_str : value -> string.

Lemma merge_by_type_keeps val incoming w :
  incoming <> VNone ->
  merge_by_type val incoming = Done w -> keeps val w.
Proof.
  intros Hinc. destruct val as [[| |z|s]|l|d|s]; cbn.
  - intros _. exact I.
  - intros [= <-]. assumption.
  - intros [= <-]. assumption.
  - destruct incoming as [x|l'|d'|s']; try discriminate.
    + match goal with
      | |- (if ?b then _ else _) = _ -> _ => destruct b
      end; intros [= <-]; discriminate.
    + intros [= <-]. discriminate.
  - destruct incoming as [x|l'|d'|s']; try discriminate.
    + match goal with
      | |- (if ?b then _ else _) = _ -> _ => destruct b
      end; intros [= <-].
      * exists []. rewrite app_nil_r. reflexivity.
      * eexists. reflexivity.
    + intros [= <-]. eexists. reflexivity.
  - destruct incoming as [[| | |]|l'|d'|s']; try discriminate.
    intros [= <-]. exists (d' ∪ d). split; [reflexivity|].
    rewrite dom_union_L. apply union_subseteq_r.
  - destruct incoming as [[| | |]|l'|d'|s']; try discriminate.
    + destruct (all_strings l'); [|discriminate].
      intros [= <-]. eexists. split; [reflexivity | apply union_subseteq_l].
    + intros [= <-]. eexists. split; [reflexivity | apply union_subseteq_l].
    + intros [= <-]. eexists. split; [reflexivity | apply union_subseteq_l].
Qed.

Lemma new_version_not_None val incoming :
  new_version py_int_of_str py_str val incoming <> VNone.
Proof.
  unfold new_version. destruct val as [x|l|d|s]; try discriminate.
  destruct (as_int x); discriminate.
Qed.

(** One keyword argument: the value the attribute has afterwards. *)
Lemma new_value_keeps key val incoming r :
  new_value py_int_of_str py_str key (Some val) incoming = Done r ->
  (val <> VNone -> default val r <> VNone)
  /\ (key <> "version" -> keeps val (default val r)).
Proof.
  unfold new_value.
  destruct (decide (val = VNone)) as [->|Hval].
  - intros [= <-]. cbn. split; [congruence | intros _; exact I].
  - assert (Hbody :
      (if py_eq val incoming && negb (String.eqb key "version")
       then Done None
       else match incoming with
            | VNone => Done None
            | _ =>
                if String.eqb key "version"
                then Done (Some (new_version py_int_of_str py_str val incoming))
                else match merge_by_type val incoming with
                     | Done w => Done (Some w)
                     | Raises x => Raises x
                     | Unmodelled => Unmodelled
                     end
            end) = Done r ->
      (val <> VNone -> default val r <> VNone)
      /\ (key <> "version" -> keeps val (default val r))).
    { destruct (py_eq val incoming && negb (String.eqb key "version")).
      { intros [= <-]. cbn. split; [auto | intros _; apply keeps_refl]. }
      destruct (decide (incoming = VNone)) as [->|Hinc].
      { intros [= <-]. cbn. split; [auto | intros _; apply keeps_refl]. }
      assert (Hrest :
        (if String.eqb key "version"
         then Done (Some (new_version py_int_of_str py_str val incoming))
         else match merge_by_type val incoming with
              | Done w => Done (Some w)
              | Raises x => Raises x
              | Unmodelled => Unmodelled
              end) = Done r ->
        (val <> VNone -> default val r <> VNone)
        /\ (key <> "version" -> keeps val (default val r))).
      { destruct (String.eqb_spec key "version") as [->|Hkey].
        - intros [= <-]. cbn.
          split; [intros _; apply new_version_not_None | congruence].
        - destruct (merge_by_type val incoming) as [w| |] eqn:Hm;
            try discriminate.
          intros [= <-]. cbn.
          pose proof (merge_by_type_keeps _ _ _ Hinc Hm) as Hk.
          split; [intros _; eapply keeps_not_None; eassumption | auto]. }
      destruct incoming as [[| | |]|l'|d'|s']; try exact Hrest. congruence. }
    destruct val as [[| | |]|l|d|s]; try exact Hbody. congruence.
Qed.

(** X1. [update_attributes] never discards what an entity holds.  Every
    attribute is still there afterwards; one that was not [None] is not
    [None]; and, [version] apart, a list has only been extended at its
    end, a dictionary has kept its keys and a set its members. *)
Theorem update_attributes_keeps (e e' : entity) (kwargs : list (string * value))
    (key : string) (val : value) :
  NoDup kwargs.*1 ->
  update_attributes py_int_of_str py_str e kwargs = Done e' ->
  e !! key = Some val ->
  exists val', e' !! key = Some val'
               /\ (val <> VNone -> val' <> VNone)
               /\ (key <> "version" -> keeps val val').
Proof.
  intros Hnd Hrun Hkey.
  destruct (update_attributes_fieldwise _ _ kwargs e e' Hnd Hrun) as [Hout Hin].
  destruct (decide (key ∈ kwargs.*1)) as [Hk|Hk].
  - apply list_elem_of_fmap in Hk as ([k incoming] & -> & Hk). cbn in *.
    destruct (Hin _ _ Hk) as (r & Hr & ->). rewrite Hkey in Hr.
    apply new_value_keeps in Hr as [Hnone Hkeeps].
    exists (default val r). split; [|auto].
    destruct r as [w|]; cbn; [apply lookup_insert_eq | assumption].
  - exists val. rewrite (Hout key Hk). split; [assumption|].
    split; [auto | intros _; apply keeps_refl].
Qed.

End Kept.

Lemma update_attributes_keeps_witness :
  exists val', sample_spec_learnt !! "source" = Some val'
               /\ (Scalar (SStr "workspace_modeler") <> VNone -> val' <> VNone)
               /\ ("source" <> "version" ->
                   keeps (Scalar (SStr "workspace_modeler")) val').
Proof.
  apply (update_attributes_keeps (fun _ => None) (fun _ => "")
           sample_spec sample_spec_learnt learnt_kwargs "source"
           (Scalar (SStr "workspace_modeler"))).
  - apply (bool_decide_unpack _). vm_compute. exact I.
  - reflexivity.
  - reflexivity.
Defined.

End AttributesKept.

(** ** snapshot/snapshot.py: what the matcher guarantees

    [_match_token_types] hands out the tokens of the specification one
    at a time.  The dictionary of names it fills in is made by
    [list_to_io_dict] for the call and dropped afterwards; it is the
    evidence for the answer. *)

Module Matching.
Import Metamodel Reconciler.

(** The state in which the loop of [_match_token_types] ends. *)
Definition final_state (names : list string) (io_type_of : string -> scalar)
    (spec_types : gmap string scalar) : match_state :=
  foldl (match_one io_type_of spec_types)
    {| available_tokens := dom spec_types;
       io_names := list_to_io_dict names;
       io_is_valid := true; log := [] |}
    (PyStr.sorted (elements (dom (list_to_io_dict names)))).

Lemma match_token_types_final names ty d :
  _match_token_types (list_to_io_dict names) ty (Some d)
  = (of_bool (io_is_valid (final_state names ty d)),
     log (final_state names ty d)).
Proof. reflexivity. Qed.

(** The names that were given a token. *)
Definition assignment (st : match_state) : gmap string string :=
  omap id (io_names st).

Lemma lookup_assignment st n tok :
  assignment st !! n = Some tok <-> io_names st !! n = Some (Some tok).
Proof.
  unfold assignment. rewrite lookup_omap.
  destruct (io_names st !! n) as [[t|]|]; cbn; split; congruence.
Qed.

Lemma first_match_Some spec_types io_type tests test :
  first_match spec_types io_type tests = Some test ->
  test ∈ tests
  /\ exists t, spec_types !! test = Some t /\ scalar_eq t io_type = true.
Proof.
  unfold first_match. intros H. apply find_some in H as [Hin Hp].
  split.
  - apply list_elem_of_In, sorted_elem_of, elem_of_elements in Hin. exact Hin.
  - destruct (spec_types !! test) as [t|]; [eauto | discriminate].
Qed.

Lemma is_unset_assign x test st : is_unset x (assign x test st) = false.
Proof. unfold is_unset, assign. cbn. rewrite lookup_insert_eq. reflexivity. Qed.

(** One round of the loop either gives the name a token that was still
    available and has the name's type, or reports the name. *)
Lemma match_one_cases ty d st x :
  io_names st !! x = Some None ->
  (exists test t,
      test ∈ available_tokens st /\ d !! test = Some t
      /\ scalar_eq (ty x) t = true
      /\ match_one ty d st x = assign x test st)
  \/ match_one ty d st x
     = {| available_tokens := available_tokens st; io_names := io_names st;
          io_is_valid := false; log := (log st ++ [Unmatched x])%list |}.
Proof.
  intros Hx. unfold match_one.
  destruct (bool_decide (PyStr.last_token "/" x ∈ available_tokens st)
            && match d !! PyStr.last_token "/" x with
               | Some t => scalar_eq (ty x) t
               | None => false
               end) eqn:Hexact.
  - left. apply andb_true_iff in Hexact as [Hin Hty].
    apply bool_decide_eq_true in Hin.
    destruct (d !! PyStr.last_token "/" x) as [t|] eqn:Ht; [|discriminate].
    exists (PyStr.last_token "/" x), t. auto.
  - destruct (first_match d (ty x)
                (filter (fun ss => PyStr.contains (PyStr.last_token "/" x) ss = true)
                        (available_tokens st))) as [test|] eqn:Hpot.
    + left. apply first_match_Some in Hpot as (Hin & t & Ht & Hty).
      apply elem_of_filter in Hin as [_ Hin].
      exists test, t. rewrite scalar_eq_sym. repeat split; try assumption.
      rewrite !is_unset_assign. reflexivity.
    + assert (Hunset : is_unset x st = true) by (unfold is_unset; rewrite Hx; reflexivity).
      rewrite !Hunset.
      destruct (first_match d (ty x)
                  (available_tokens st
                   ∖ filter (fun ss => PyStr.contains (PyStr.last_token "/" x) ss
                                       = true)
                            (available_tokens st))) as [test|] eqn:Hrem.
      * left. apply first_match_Some in Hrem as (Hin & t & Ht & Hty).
        apply elem_of_difference in Hin as [Hin _].
        exists test, t. rewrite scalar_eq_sym. repeat split; try assumption.
        rewrite is_unset_assign. reflexivity.
      * right. rewrite Hunset. reflexivity.
Qed.

Lemma size_remove (X : gset string) x : x ∈ X -> size X = S (size (X ∖ {[x]})).
Proof.
  intros Hx. rewrite size_difference by (apply singleton_subseteq_l; assumption).
  rewrite size_singleton.
  assert (size X <> 0)
    by (intros H0; apply size_empty_inv, leibniz_equiv in H0; subst X;
        exact (not_elem_of_empty (C:=gset string) x Hx)).
  lia.
Qed.

Lemma elem_of_snoc (done : list string) x n :
  n ∈ (done ++ [x])%list <-> n ∈ done \/ n = x.
Proof. rewrite elem_of_app, list_elem_of_singleton. reflexivity. Qed.

(** What holds after the names [done] have been gone through. *)
Record matched_so_far (ty : string -> scalar) (d : gmap string scalar)
    (done : list string) (st : match_state) : Prop := {
  msf_available : available_tokens st ⊆ dom d;
  msf_assigned : forall n tok, io_names st !! n = Some (Some tok) ->
      n ∈ done /\ (tok ∉ available_tokens st)
      /\ exists t, d !! tok = Some t /\ scalar_eq (ty n) t = true;
  msf_injective : forall n n' tok,
      io_names st !! n = Some (Some tok) ->
      io_names st !! n' = Some (Some tok) -> n = n';
  msf_valid : io_is_valid st = true ->
      forall n, n ∈ done -> exists tok, io_names st !! n = Some (Some tok);
  msf_count : io_is_valid st = true ->
      size (available_tokens st) + length done = size d;
  msf_log : io_is_valid st = true <-> log st = []
}.

Lemma matched_step ty d done st x :
  matched_so_far ty d done st ->
  io_names st !! x = Some None ->
  matched_so_far ty d (done ++ [x]) (match_one ty d st x).
Proof.
  intros [Hav Has Hinj Hval Hcnt Hlog] Hx.
  destruct (match_one_cases ty d st x Hx)
    as [(test & t & Hin & Ht & Hty & ->) | ->].
  - split; cbn.
    + intros y Hy. apply elem_of_difference in Hy as [Hy _]. auto.
    + intros n tok. destruct (decide (x = n)) as [<-|Hne].
      * rewrite lookup_insert_eq. intros [= <-].
        split; [apply elem_of_snoc; right; reflexivity|].
        split; [|eauto]. intros H. apply elem_of_difference in H as [_ H].
        apply H, elem_of_singleton. reflexivity.
      * rewrite lookup_insert_ne by assumption. intros Hn.
        destruct (Has _ _ Hn) as (Hd & Hnot & Htok).
        split; [apply elem_of_snoc; left; assumption|].
        split; [|assumption]. intros H. apply elem_of_difference in H as [H _].
        contradiction.
    + intros n n' tok.
      destruct (decide (x = n)) as [<-|Hne], (decide (x = n')) as [<-|Hne'];
        rewrite ?lookup_insert_eq, ?lookup_insert_ne by assumption.
      * reflexivity.
      * intros [= <-] Hn'. destruct (Has _ _ Hn') as (_ & Hnot & _).
        contradiction.
      * intros Hn [= <-]. destruct (Has _ _ Hn) as (_ & Hnot & _).
        contradiction.
      * apply Hinj.
    + intros Hv n Hn. apply elem_of_snoc in Hn as [Hn| ->].
      * destruct (Hval Hv n Hn) as [tok Htok].
        destruct (decide (x = n)) as [<-|Hne]; [congruence|].
        exists tok. rewrite lookup_insert_ne by assumption. assumption.
      * exists test. apply lookup_insert_eq.
    + intros Hv. specialize (Hcnt Hv). rewrite length_app. cbn.
      rewrite (size_remove _ _ Hin) in Hcnt. lia.
    + exact Hlog.
  - split; cbn; try discriminate.
    + assumption.
    + intros n tok Hn. destruct (Has _ _ Hn) as (Hd & Hnot & Htok).
      split; [apply elem_of_snoc; left; assumption|]. auto.
    + assumption.
    + split; [discriminate|]. intros H. destruct (log st); discriminate.
Qed.

Lemma matched_fold ty d (todo : list string) : forall done st,
  matched_so_far ty d done st ->
  NoDup todo ->
  (forall n, n ∈ todo -> io_names st !! n = Some None) ->
  matched_so_far ty d (done ++ todo) (foldl (match_one ty d) st todo).
Proof.
  induction todo as [|x todo IH]; intros done st Hinv Hnd Hnone.
  - rewrite app_nil_r. assumption.
  - apply NoDup_cons in Hnd as [Hx Hnd]. cbn [foldl].
    replace (done ++ x :: todo)%list with ((done ++ [x]) ++ todo)%list
      by (rewrite <- app_assoc; reflexivity).
    apply IH; [apply matched_step; [assumption | apply Hnone; left] | assumption |].
    intros n Hn.
    assert (Hne : x <> n) by (intros ->; contradiction).
    destruct (match_one_cases ty d st x (Hnone x ltac:(left)))
      as [(test & t & _ & _ & _ & ->) | ->]; cbn.
    + rewrite lookup_insert_ne by assumption. apply Hnone. right. assumption.
    + apply Hnone. right. assumption.
Qed.

Lemma dom_list_to_io_dict names :
  dom (list_to_io_dict names) = list_to_set names.
Proof.
  unfold list_to_io_dict. induction names as [|x names IH]; cbn.
  - apply dom_empty_L.
  - rewrite dom_insert_L, IH. reflexivity.
Qed.

Lemma list_to_io_dict_None names n :
  n ∈ names -> list_to_io_dict names !! n = Some None.
Proof.
  intros Hn.
  assert (Hd : n ∈ dom (list_to_io_dict names))
    by (rewrite dom_list_to_io_dict; apply elem_of_list_to_set; assumption).
  apply elem_of_dom in Hd as [v Hv]. rewrite Hv.
  apply list_to_io_dict_lookup in Hv. congruence.
Qed.

Lemma sorted_names_NoDup names :
  NoDup (PyStr.sorted (elements (dom (list_to_io_dict names)))).
Proof.
  unfold PyStr.sorted. rewrite merge_sort_Permutation. apply NoDup_elements.
Qed.

Lemma sorted_names_elem_of names n :
  n ∈ PyStr.sorted (elements (dom (list_to_io_dict names))) <-> n ∈ names.
Proof.
  rewrite sorted_elem_of, elem_of_elements, dom_list_to_io_dict.
  apply elem_of_list_to_set.
Qed.

Lemma sorted_names_length names :
  length (PyStr.sorted (elements (dom (list_to_io_dict names))))
  = size (list_to_set names : gset string).
Proof.
  unfold PyStr.sorted. rewrite merge_sort_Permutation.
  rewrite dom_list_to_io_dict. reflexivity.
Qed.

Lemma final_state_matched names ty d :
  matched_so_far ty d (PyStr.sorted (elements (dom (list_to_io_dict names))))
    (final_state names ty d).
Proof.
  unfold final_state.
  apply (matched_fold ty d _ []).
  - split; cbn.
    + reflexivity.
    + intros n tok Hn. apply list_to_io_dict_lookup in Hn. discriminate.
    + intros n n' tok Hn. apply list_to_io_dict_lookup in Hn. discriminate.
    + intros _ n Hn. apply not_elem_of_nil in Hn. contradiction.
    + intros _. rewrite size_dom. cbn. lia.
    + tauto.
  - apply sorted_names_NoDup.
  - intros n Hn. cbn. apply list_to_io_dict_None, sorted_names_elem_of.
    assumption.
Qed.

(** X2. When [_match_token_types] answers [True] for a dictionary of the
    specification, every observed name has been given a token of the
    specification whose type is the name's type, and no token has been
    given to two names; so the specification has at least as many tokens
    as there are names.  With fewer tokens than names the answer is
    [False].  The answer is [True] exactly when no name is reported. *)
Theorem match_token_types_sound (names : list string)
    (io_type_of : string -> scalar) (spec_types : gmap string scalar) :
  let answer := _match_token_types (list_to_io_dict names) io_type_of
                  (Some spec_types) in
  (answer.1 = PyTrue ->
     let given := assignment (final_state names io_type_of spec_types) in
     (forall n, n ∈ names -> is_Some (given !! n))
     /\ (forall n tok, given !! n = Some tok ->
           n ∈ names
           /\ exists t, spec_types !! tok = Some t
                        /\ scalar_eq (io_type_of n) t = true)
     /\ (forall n n' tok, given !! n = Some tok -> given !! n' = Some tok ->
           n = n')
     /\ size (list_to_set names : gset string) <= size spec_types)
  /\ (size spec_types < size (list_to_set names : gset string) ->
        answer.1 = PyFalse)
  /\ (answer.1 = PyTrue <-> answer.2 = []).
Proof.
  intros answer. unfold answer. rewrite match_token_types_final. cbn [fst snd].
  pose proof (final_state_matched names io_type_of spec_types)
    as [Hav Has Hinj Hval Hcnt Hlog].
  assert (Hsound : io_is_valid (final_state names io_type_of spec_types) = true ->
     (forall n, n ∈ names ->
        is_Some (assignment (final_state names io_type_of spec_types) !! n))
     /\ (forall n tok,
           assignment (final_state names io_type_of spec_types) !! n = Some tok ->
           n ∈ names
           /\ exists t, spec_types !! tok = Some t
                        /\ scalar_eq (io_type_of n) t = true)
     /\ (forall n n' tok,
           assignment (final_state names io_type_of spec_types) !! n = Some tok ->
           assignment (final_state names io_type_of spec_types) !! n' = Some tok ->
           n = n')
     /\ size (list_to_set names : gset string) <= size spec_types).
  { intros Hv. split; [|split; [|split]].
    - intros n Hn. apply sorted_names_elem_of in Hn.
      destruct (Hval Hv n Hn) as [tok Htok]. exists tok.
      apply lookup_assignment. assumption.
    - intros n tok Hn. apply lookup_assignment in Hn.
      destruct (Has _ _ Hn) as (Hd & _ & Ht).
      split; [apply sorted_names_elem_of; assumption | assumption].
    - intros n n' tok Hn Hn'. apply lookup_assignment in Hn, Hn'.
      eapply Hinj; eassumption.
    - specialize (Hcnt Hv). rewrite sorted_names_length in Hcnt. lia. }
  split; [|split].
  - destruct (io_is_valid (final_state names io_type_of spec_types));
      [intros _; apply Hsound; reflexivity | discriminate].
  - intros Hlt.
    destruct (io_is_valid (final_state names io_type_of spec_types));
      [|reflexivity].
    destruct (Hsound eq_refl) as (_ & _ & _ & Hle). lia.
  - destruct (io_is_valid (final_state names io_type_of spec_types)); cbn.
    + split; [intros _; apply Hlog; reflexivity | reflexivity].
    + split; [discriminate|]. intros Hnil. apply Hlog in Hnil. discriminate.
Qed.

(** *** Specifications that name every item by its own token *)

Lemma exact_fold ty d (todo : list string) : forall st,
  NoDup (PyStr.last_token "/" <$> todo) ->
  (forall n, n ∈ todo ->
     PyStr.last_token "/" n ∈ available_tokens st
     /\ exists t, d !! PyStr.last_token "/" n = Some t
                  /\ scalar_eq (ty n) t = true) ->
  io_is_valid (foldl (match_one ty d) st todo) = io_is_valid st
  /\ log (foldl (match_one ty d) st todo) = log st.
Proof.
  induction todo as [|x todo IH]; intros st Hnd Hall; [split; reflexivity|].
  rewrite fmap_cons in Hnd. apply NoDup_cons in Hnd as [Hx Hnd].
  destruct (Hall x ltac:(left)) as (Hin & t & Ht & Hty).
  cbn [foldl].
  assert (Hstep : match_one ty d st x = assign x (PyStr.last_token "/" x) st).
  { unfold match_one. rewrite Ht, Hty.
    rewrite bool_decide_eq_true_2 by assumption. reflexivity. }
  rewrite Hstep.
  destruct (IH (assign x (PyStr.last_token "/" x) st)) as [-> ->];
    [assumption | | split; reflexivity].
  intros n Hn. destruct (Hall n ltac:(right; assumption)) as (Hn_in & Hn_ty).
  split; [|assumption]. cbn. apply elem_of_difference. split; [assumption|].
  intros Heq. apply elem_of_singleton in Heq. apply Hx. rewrite <- Heq.
  apply list_elem_of_fmap. eauto.
Qed.

Lemma NoDup_tokens_names (names : list string) :
  NoDup (PyStr.last_token "/" <$> names) -> NoDup names.
Proof. apply NoDup_fmap_1. Qed.

Lemma sorted_names_Permutation names :
  NoDup names ->
  PyStr.sorted (elements (dom (list_to_io_dict names))) ≡ₚ names.
Proof.
  intros Hnd. unfold PyStr.sorted. rewrite merge_sort_Permutation.
  rewrite dom_list_to_io_dict. apply elements_list_to_set. assumption.
Qed.

(** X3. A specification that lists every observed name under the name's own
    last token, with the name's type, is matched in full when the tokens
    of the names are pairwise different; tokens the specification has
    besides do no harm. *)
Theorem match_token_types_exact (names : list string)
    (io_type_of : string -> scalar) (spec_types : gmap string scalar) :
  NoDup (PyStr.last_token "/" <$> names) ->
  (forall n, n ∈ names ->
     exists t, spec_types !! PyStr.last_token "/" n = Some t
               /\ scalar_eq (io_type_of n) t = true) ->
  _match_token_types (list_to_io_dict names) io_type_of (Some spec_types)
  = (PyTrue, []).
Proof.
  intros Hnd Hall. rewrite match_token_types_final. unfold final_state.
  pose proof (sorted_names_Permutation names (NoDup_tokens_names _ Hnd)) as Hperm.
  edestruct (exact_fold io_type_of spec_types
               (PyStr.sorted (elements (dom (list_to_io_dict names)))))
    as [-> ->]; [| |reflexivity].
  - rewrite Hperm. assumption.
  - intros n Hn. rewrite Hperm in Hn. destruct (Hall n Hn) as (t & Ht & Hty).
    split; [|eauto]. cbn. apply elem_of_dom. eauto.
Qed.

Example token_with_another_type :
  _match_token_types (list_to_io_dict ["/a/x"]) (fun _ => SStr "T")
    (Some {["x" := SStr "U"]})
  = (PyFalse, [Unmatched "/a/x"]).
Proof. reflexivity. Qed.

Lemma match_token_types_exact_witness :
  _match_token_types (list_to_io_dict ["/foo/out"; "/foo/in"])
    (fun _ => SStr "T")
    (Some (<["out" := SStr "T"]> (<["in" := SStr "T"]> {["x" := SStr "U"]})))
  = (PyTrue, []).
Proof.
  apply match_token_types_exact.
  - apply (bool_decide_unpack _). vm_compute. exact I.
  - intros n Hn. exists (SStr "T").
    repeat (apply elem_of_cons in Hn as [->|Hn]); [split; reflexivity ..|].
    apply not_elem_of_nil in Hn. contradiction.
Defined.

Lemma match_token_types_sound_witness :
  size (list_to_set ["/foo/out"; "/foo/in"] : gset string)
  <= size (<["out" := SStr "T"]> (<["in" := SStr "T"]> {["x" := SStr "U"]})
           : gmap string scalar).
Proof.
  apply (proj1 (match_token_types_sound ["/foo/out"; "/foo/in"]
                  (fun _ => SStr "T")
                  (<["out" := SStr "T"]> (<["in" := SStr "T"]> {["x" := SStr "U"]})))).
  reflexivity.
Defined.

(** *** Learning, then validating *)

Lemma learned_lookup ty names n :
  NoDup (PyStr.last_token "/" <$> names) -> n ∈ names ->
  learned ty names !! PyStr.last_token "/" n = Some (ty n).
Proof.
  intros Hnd Hn. unfold learned. apply elem_of_list_to_map_1.
  - rewrite <- list_fmap_compose. exact Hnd.
  - apply list_elem_of_fmap. exists n. split; [reflexivity | assumption].
Qed.

Lemma size_learned ty names :
  NoDup (PyStr.last_token "/" <$> names) ->
  size (learned ty names) = length names.
Proof.
  intros Hnd. unfold learned. rewrite map_size_list_to_map.
  - apply length_fmap.
  - rewrite <- list_fmap_compose. exact Hnd.
Qed.

(** A dictionary that holds what was learnt from [names] matches
    [names]. *)
Lemma learned_matches ty names (before : gmap string scalar) :
  NoDup (PyStr.last_token "/" <$> names) ->
  _match_token_types (list_to_io_dict names) ty (Some (learned ty names ∪ before))
  = (PyTrue, []).
Proof.
  intros Hnd. apply match_token_types_exact; [assumption|].
  intros n Hn. exists (ty n). split; [|apply scalar_eq_refl].
  apply lookup_union_Some_l, learned_lookup; assumption.
Qed.

(** The specification [_update_node_specification] leaves behind. *)
Lemma learning_result
    (parameter_type action_type topic_type service_type : string -> scalar)
    (f_int : string -> option Z) (f_str : value -> string)
    (node_spec : entity) (node_builder : NodeBuilder)
    (c_ac c_as c_pub c_sub c_srv : option (gmap string scalar)) :
  node_spec !! "validated" = Some (Scalar (SBool false)) ->
  source_admissible (node_spec !! "source") ->
  is_Some (node_spec !! "version") ->
  category node_spec "parameters" = Done None ->
  category node_spec "action_clients" = Done c_ac ->
  category node_spec "action_servers" = Done c_as ->
  category node_spec "published_topics" = Done c_pub ->
  category node_spec "subscribed_topics" = Done c_sub ->
  category node_spec "services_provided" = Done c_srv ->
  NoDup (PyStr.last_token "/" <$> parameter_names node_builder) ->
  no_collision (existing c_ac) (action_clients node_builder) ->
  no_collision (existing c_as) (action_servers node_builder) ->
  no_collision (existing c_pub) (published_topic_names node_builder) ->
  no_collision (existing c_sub) (subscribed_topic_names node_builder) ->
  no_collision (existing c_srv) (service_names_with_remap node_builder) ->
  exists learnt,
    _update_node_specification parameter_type action_type topic_type
      service_type f_int f_str node_spec node_builder = Done learnt
    /\ learnt !! "parameters"
       = Some (VDict (learned parameter_type (parameter_names node_builder)))
    /\ learnt !! "action_clients"
       = Some (VDict (learned action_type (action_clients node_builder)
                      ∪ existing c_ac))
    /\ learnt !! "action_servers"
       = Some (VDict (learned action_type (action_servers node_builder)
                      ∪ existing c_as))
    /\ learnt !! "published_topics"
       = Some (VDict (learned topic_type (published_topic_names node_builder)
                      ∪ existing c_pub))
    /\ learnt !! "subscribed_topics"
       = Some (VDict (learned topic_type (subscribed_topic_names node_builder)
                      ∪ existing c_sub))
    /\ learnt !! "services_provided"
       = Some (VDict (learned service_type
                        (service_names_with_remap node_builder)
                      ∪ existing c_srv)).
Proof.
  intros Hval Hsrc Hver Hpar Hac Has Hpub Hsub Hsrv
    Hndpar Hnac Hnas Hnpub Hnsub Hnsrv.
  assert (Dpar : _update_node_specification_data ∅
                   (parameter_names node_builder) parameter_type
                 = Done (learned parameter_type (parameter_names node_builder))).
  { rewrite update_data_no_collision
      by (split; [assumption | intros; apply lookup_empty]).
    rewrite (right_id_L ∅ (∪)). reflexivity. }
  destruct (learning_completes parameter_type action_type topic_type
              service_type f_int f_str node_spec node_builder
              c_ac c_as c_pub c_sub c_srv _ _ _ _ _ _
              Hval Hsrc Hver Hpar Hac Has Hpub Hsub Hsrv Dpar
              (update_data_no_collision _ _ _ Hnac)
              (update_data_no_collision _ _ _ Hnas)
              (update_data_no_collision _ _ _ Hnpub)
              (update_data_no_collision _ _ _ Hnsub)
              (update_data_no_collision _ _ _ Hnsrv))
    as (learnt & Hrun & _ & Hfields).
  exists learnt. split; assumption.
Qed.

Lemma category_dict (e : entity) field d :
  e !! field = Some (VDict d) -> category e field = Done (Some d).
Proof. intros H. unfold category. rewrite H. reflexivity. Qed.

(** X4. A node validates against the specification that was learnt from it.
    When an unvalidated specification without parameters is completed
    from a node whose names, category by category, end in pairwise
    different tokens that the specification does not have yet, the
    completed specification is one [_validate_node_builder] accepts for
    that node, with nothing logged. *)
Theorem learnt_specification_validates
    (parameter_type action_type topic_type service_type : string -> scalar)
    (f_int : string -> option Z) (f_str : value -> string)
    (node_spec : entity) (node_builder : NodeBuilder)
    (c_ac c_as c_pub c_sub c_srv : option (gmap string scalar)) :
  node_spec !! "validated" = Some (Scalar (SBool false)) ->
  source_admissible (node_spec !! "source") ->
  is_Some (node_spec !! "version") ->
  category node_spec "parameters" = Done None ->
  category node_spec "action_clients" = Done c_ac ->
  category node_spec "action_servers" = Done c_as ->
  category node_spec "published_topics" = Done c_pub ->
  category node_spec "subscribed_topics" = Done c_sub ->
  category node_spec "services_provided" = Done c_srv ->
  NoDup (PyStr.last_token "/" <$> parameter_names node_builder) ->
  no_collision (existing c_ac) (action_clients node_builder) ->
  no_collision (existing c_as) (action_servers node_builder) ->
  no_collision (existing c_pub) (published_topic_names node_builder) ->
  no_collision (existing c_sub) (subscribed_topic_names node_builder) ->
  no_collision (existing c_srv) (service_names_with_remap node_builder) ->
  exists learnt,
    _update_node_specification parameter_type action_type topic_type
      service_type f_int f_str node_spec node_builder = Done learnt
    /\ _validate_node_builder parameter_type action_type topic_type
         service_type node_builder learnt = Done (PyTrue, []).
Proof.
  intros Hval Hsrc Hver Hpar Hac Has Hpub Hsub Hsrv
    Hndpar Hnac Hnas Hnpub Hnsub Hnsrv.
  destruct (learning_result parameter_type action_type topic_type service_type
              f_int f_str node_spec node_builder c_ac c_as c_pub c_sub c_srv)
    as (learnt & Hrun & Lpar & Lac & Las & Lpub & Lsub & Lsrv); try assumption.
  exists learnt. split; [assumption|].
  unfold _validate_node_builder.
  rewrite (category_dict _ _ _ Lpar), (category_dict _ _ _ Lac),
    (category_dict _ _ _ Las), (category_dict _ _ _ Lpub),
    (category_dict _ _ _ Lsub), (category_dict _ _ _ Lsrv).
  cbn [mbind outcome_bind].
  rewrite (size_learned _ _ Hndpar), Nat.ltb_irrefl.
  rewrite !and_match_Done.
  pose proof (learned_matches parameter_type (parameter_names node_builder)
                ∅ Hndpar) as Mpar.
  rewrite (right_id_L ∅ (∪)) in Mpar.
  rewrite Mpar, (learned_matches _ _ _ (proj1 Hnac)),
    (learned_matches _ _ _ (proj1 Hnas)), (learned_matches _ _ _ (proj1 Hnpub)),
    (learned_matches _ _ _ (proj1 Hnsub)), (learned_matches _ _ _ (proj1 Hnsrv)).
  reflexivity.
Qed.

Lemma learnt_specification_validates_witness :
  exists learnt,
    _update_node_specification sample_type sample_type sample_type sample_type
      (fun _ => None) (fun _ => "") bar_spec bar_builder = Done learnt
    /\ _validate_node_builder sample_type sample_type sample_type sample_type
         bar_builder learnt = Done (PyTrue, []).
Proof.
  apply (learnt_specification_validates
           sample_type sample_type sample_type sample_type
           (fun _ => None) (fun _ => "") bar_spec bar_builder
           None None None None None);
    try reflexivity; try apply no_collision_nil.
  - right. left. exists "workspace_modeler". reflexivity.
  - eexists. reflexivity.
  - apply (bool_decide_unpack _). vm_compute. exact I.
Defined.

End Matching.

(** ** snapshot/remapper_bank.py and [ROSSnapshot._create_spec_remappers]

    The remapper inverts a bank: it maps a datum (the executable file of
    a node specification) to the key, or keys, of the entities that hold
    it.  A stored value is [None], one key, or a list of keys; a key is a
    specification's name, a string or [None]. *)

Module Remapper.

Inductive remap :=
| One (key : option string)             (* a key, or [None] *)
| Many (keys : list (option string)).   (* a list of keys *)

(** [key] is, or is in, the stored value. *)
Definition mentions (v : remap) (key : option string) : Prop :=
  match v with
  | One k => key = k
  | Many l => key ∈ l
  end.

Section RemapperBank.

(** the data names: any hashable value *)
Context {K : Type} `{Countable K}.

(** [self._data_to_key_maps] *)
Local Abbreviation bank := (gmap K remap).

(** [__getitem__]: [None] is the [KeyError] of a missing data name. *)
Definition __getitem__ (data_name : K) (m : bank) : option remap :=
  m !! data_name.

Definition add_remap (data_name : K) (key : option string) (m : bank) : bank :=
  match m !! data_name with
  | None | Some (One None) => <[data_name := One key]> m       (* new remap *)
  | Some (One (Some s)) =>
      if decide (key = Some s) then m
      else <[data_name := Many [Some s; key]]> m
  | Some (Many l) =>
      if decide (key ∈ l) then m
      else <[data_name := Many (l ++ [key])]> m
  end.

(** The bank after the calls [add_remap(data_name, key)], first to last. *)
Definition remapper_of (calls : list (K * option string)) : bank :=
  foldl (fun m c => add_remap c.1 c.2 m) ∅ calls.

(** *** One call *)

Lemma add_remap_other data_name key (m : bank) d :
  d <> data_name -> add_remap data_name key m !! d = m !! d.
Proof.
  intros Hne. unfold add_remap.
  destruct (m !! data_name) as [[[s|]|l]|];
    repeat case_decide; rewrite ?lookup_insert_ne by congruence; reflexivity.
Qed.

(** After a call the data name can be looked up, and what is found
    mentions the key. *)
Lemma add_remap_mentions data_name key (m : bank) :
  exists v, add_remap data_name key m !! data_name = Some v /\ mentions v key.
Proof.
  unfold add_remap.
  destruct (m !! data_name) as [[[s|]|l]|] eqn:Hm;
    repeat case_decide; rewrite ?lookup_insert_eq, ?Hm; eexists;
    (split; [reflexivity|]); cbn; auto.
  - right. left.
  - apply elem_of_app. right. left.
Qed.

(** Every key but [None] that was mentioned stays mentioned. *)
Lemma add_remap_keeps data_name key (m : bank) d v s :
  m !! d = Some v -> mentions v (Some s) ->
  exists v', add_remap data_name key m !! d = Some v' /\ mentions v' (Some s).
Proof.
  intros Hd Hs. destruct (decide (d = data_name)) as [->|Hne];
    [|rewrite add_remap_other by assumption; eauto].
  unfold add_remap. rewrite Hd.
  destruct v as [[s'|]|l]; cbn in Hs; try discriminate; cbv beta iota.
  - injection Hs as ->.
    case_decide; [eexists; split; [eassumption | reflexivity]|].
    rewrite lookup_insert_eq. eexists. split; [reflexivity|]. left.
  - case_decide; [eexists; split; [eassumption | assumption]|].
    rewrite lookup_insert_eq. eexists. split; [reflexivity|].
    apply elem_of_app. left. assumption.
Qed.

(** *** A sequence of calls *)

(** What the bank holds for [d] after the calls [cs], none of which
    passes [None] for a key. *)
Definition holds (cs : list (K * option string)) (d : K) (v : option remap)
    : Prop :=
  match v with
  | None => forall k, (d, k) ∉ cs
  | Some (One None) => False
  | Some (One (Some s)) => forall k, (d, k) ∈ cs <-> k = Some s
  | Some (Many l) =>
      NoDup l /\ 2 <= length l /\ forall k, (d, k) ∈ cs <-> k ∈ l
  end.

Lemma holds_other cs d v c :
  c.1 <> d -> holds cs d v -> holds (cs ++ [c]) d v.
Proof.
  intros Hne.
  assert (Hiff : forall k, (d, k) ∈ (cs ++ [c])%list <-> (d, k) ∈ cs).
  { intros k. rewrite elem_of_app, list_elem_of_singleton.
    split; [intros [?|Heq]; [assumption | subst c; cbn in Hne; congruence]
           | auto]. }
  destruct v as [[[s|]|l]|]; cbn.
  - intros Hv k. rewrite Hiff. apply Hv.
  - auto.
  - intros (Hnd & Hlen & Hv). repeat split; try assumption;
      rewrite Hiff; apply Hv.
  - intros Hv k. rewrite Hiff. apply Hv.
Qed.

Lemma holds_step cs (m : bank) d s :
  (forall d', holds cs d' (m !! d')) ->
  forall d', holds (cs ++ [(d, Some s)]) d' (add_remap d (Some s) m !! d').
Proof.
  intros Hinv d'. destruct (decide (d' = d)) as [->|Hne];
    [|rewrite add_remap_other by assumption; apply holds_other;
      [cbn; congruence | apply Hinv]].
  specialize (Hinv d). unfold add_remap.
  assert (Hiff : forall k, (d, k) ∈ (cs ++ [(d, Some s)])%list
                           <-> (d, k) ∈ cs \/ k = Some s).
  { intros k. rewrite elem_of_app, list_elem_of_singleton.
    split; (intros [?|Heq]; [left; assumption | right; congruence]). }
  destruct (m !! d) as [[[s'|]|l]|] eqn:Hm; cbn in Hinv.
  - case_decide as Hs.
    + rewrite Hm. cbn. intros k. rewrite Hiff, Hinv. injection Hs as ->. tauto.
    + rewrite lookup_insert_eq. cbn. split; [|split; [lia|]].
      * apply NoDup_cons. split; [|apply NoDup_singleton].
        intros Hin. apply list_elem_of_singleton in Hin. congruence.
      * intros k. rewrite Hiff, Hinv, elem_of_cons, list_elem_of_singleton.
        tauto.
  - contradiction.
  - destruct Hinv as (Hnd & Hlen & Hl). case_decide as Hs.
    + rewrite Hm. cbn. repeat split; try assumption.
      * rewrite Hiff, Hl. intros [?| ->]; assumption.
      * rewrite Hiff, Hl. auto.
    + rewrite lookup_insert_eq. cbn. split; [|split].
      * apply NoDup_app. split; [assumption|]. split; [|apply NoDup_singleton].
        intros x Hx Hx'. apply list_elem_of_singleton in Hx'. congruence.
      * rewrite length_app. cbn. lia.
      * intros k. rewrite Hiff, Hl, elem_of_app, list_elem_of_singleton.
        reflexivity.
  - rewrite lookup_insert_eq. cbn. intros k. rewrite Hiff.
    split; [intros [Hin| ->]; [exfalso; exact (Hinv _ Hin) | reflexivity] | auto].
Qed.

Lemma remapper_of_holds (cs : list (K * option string)) :
  Forall (fun c => c.2 <> None) cs ->
  forall d, holds cs d (remapper_of cs !! d).
Proof.
  induction cs as [|[d k] cs IH] using rev_ind; intros Hall d'.
  - unfold remapper_of. cbn. rewrite lookup_empty. cbn.
    intros k Hin. apply not_elem_of_nil in Hin. contradiction.
  - apply Forall_app in Hall as [Hall Hlast].
    rewrite Forall_singleton in Hlast. cbn in Hlast.
    destruct k as [s|]; [|exfalso; apply Hlast; reflexivity].
    unfold remapper_of. rewrite foldl_app. cbn [foldl fst snd].
    apply holds_step. apply IH. assumption.
Qed.

(** X5. After any sequence of [add_remap] calls with keys that are not
    [None]: looking a data name up fails exactly when no call named it;
    otherwise what is found mentions exactly the keys the calls gave for
    that data name.  A list that is found has no key twice and at least
    two keys: a data name with one key holds the key itself. *)
Theorem remapper_inverts (calls : list (K * option string)) (d : K) :
  Forall (fun c => c.2 <> None) calls ->
  (__getitem__ d (remapper_of calls) = None <-> forall k, (d, k) ∉ calls)
  /\ (forall v, __getitem__ d (remapper_of calls) = Some v ->
        (forall k, mentions v k <-> (d, k) ∈ calls)
        /\ match v with
           | One k => k <> None
           | Many l => NoDup l /\ 2 <= length l
           end).
Proof.
  intros Hall. pose proof (remapper_of_holds calls Hall d) as Hd.
  unfold __getitem__. split.
  - destruct (remapper_of calls !! d) as [[[s|]|l]|]; cbn in Hd.
    + split; [discriminate|]. intros Hno. exfalso.
      apply (Hno (Some s)), Hd. reflexivity.
    + contradiction.
    + destruct Hd as (_ & Hlen & Hl). split; [discriminate|].
      intros Hno. exfalso. destruct l as [|k l]; [cbn in Hlen; lia|].
      apply (Hno k), Hl. left.
    + tauto.
  - intros v Hv. rewrite Hv in Hd. destruct v as [[s|]|l]; cbn in *.
    + split; [|discriminate]. intros k. rewrite Hd. reflexivity.
    + contradiction.
    + destruct Hd as (Hnd & Hlen & Hl). split; [|auto].
      intros k. rewrite Hl. reflexivity.
Qed.

(** What a call stores for its data name, if it changes anything. *)
Definition merged (stored : option remap) (key : option string) : option remap :=
  match stored with
  | None | Some (One None) => Some (One key)
  | Some (One (Some s)) =>
      if decide (key = Some s) then None else Some (Many [Some s; key])
  | Some (Many l) => if decide (key ∈ l) then None else Some (Many (l ++ [key]))
  end.

Lemma add_remap_merged d k (m : bank) :
  add_remap d k m
  = match merged (m !! d) k with
    | Some v => <[d := v]> m
    | None => m
    end.
Proof.
  unfold add_remap, merged.
  destruct (m !! d) as [[[s|]|l]|]; repeat case_decide; reflexivity.
Qed.

Lemma add_remap_mentioned d k (m : bank) v :
  m !! d = Some v -> mentions v k -> add_remap d k m = m.
Proof.
  intros Hd Hk. rewrite add_remap_merged, Hd.
  destruct v as [[s|]|l]; cbn in *; subst.
  - rewrite decide_True by reflexivity. reflexivity.
  - apply insert_id. assumption.
  - rewrite decide_True by assumption. reflexivity.
Qed.

(** X6. Saying the same thing twice changes nothing, and calls for
    different data names can be made in either order. *)
Theorem add_remap_idempotent_commutes (m : bank) :
  (forall d k, add_remap d k (add_remap d k m) = add_remap d k m)
  /\ (forall d1 k1 d2 k2, d1 <> d2 ->
        add_remap d1 k1 (add_remap d2 k2 m)
        = add_remap d2 k2 (add_remap d1 k1 m)).
Proof.
  split.
  - intros d k. destruct (add_remap_mentions d k m) as (v & Hv & Hk).
    exact (add_remap_mentioned d k _ v Hv Hk).
  - intros d1 k1 d2 k2 Hne.
    rewrite (add_remap_merged d1 k1 (add_remap d2 k2 m)).
    rewrite (add_remap_merged d2 k2 (add_remap d1 k1 m)).
    rewrite !add_remap_other by congruence.
    rewrite (add_remap_merged d1 k1 m), (add_remap_merged d2 k2 m).
    destruct (merged (m !! d1) k1), (merged (m !! d2) k2); try reflexivity.
    apply insert_insert_ne. congruence.
Qed.

End RemapperBank.

(** *** The remapper of the node specifications *)

(** The [file_path] of a node specification: [None], the path of its
    executable, or, once a second path was merged in by
    [update_attributes], a list of paths. *)
Inductive file_path :=
| NoPath
| Path (p : string)
| Paths (ps : list string).

Record NodeSpecification := {
  name : option string;
  spec_file_path : file_path
}.

(** The calls [_create_spec_remappers] makes for one specification; the
    data name of a specification without a path is [None]. *)
Definition remaps_of (spec : NodeSpecification)
    : list (option string * option string) :=
  match spec_file_path spec with
  | Paths ps => (fun file_name => (Some file_name, name spec)) <$> ps
  | Path p => [(Some p, name spec)]
  | NoPath => [(None, name spec)]
  end.

(** [_create_spec_remappers]: the [node_remapper], from the items of the
    node specification bank in their order. *)
Definition _create_spec_remappers (node_spec : list (string * NodeSpecification))
    : gmap (option string) remap :=
  foldl (fun node_remapper item =>
           foldl (fun m c => add_remap c.1 c.2 m) node_remapper (remaps_of item.2))
        ∅ node_spec.

(** The executable files a specification has. *)
Definition files_of (spec : NodeSpecification) : list string :=
  match spec_file_path spec with
  | Paths ps => ps
  | Path p => [p]
  | NoPath => []
  end.

Lemma foldl_foldl {A B C} (f : A -> C -> A) (g : B -> list C) (l : list B) :
  forall a, foldl (fun a b => foldl f a (g b)) a l = foldl f a (mjoin (g <$> l)).
Proof.
  induction l as [|b l IH]; intros a; [reflexivity|].
  cbn. rewrite foldl_app. apply IH.
Qed.

Lemma create_spec_remappers_calls node_spec :
  _create_spec_remappers node_spec
  = remapper_of (mjoin ((fun item => remaps_of item.2) <$> node_spec)).
Proof.
  unfold _create_spec_remappers, remapper_of.
  apply (foldl_foldl (fun m c => add_remap c.1 c.2 m)
           (fun item : string * NodeSpecification => remaps_of item.2)).
Qed.

Lemma elem_of_remaps f key spec :
  (Some f, key) ∈ remaps_of spec <-> f ∈ files_of spec /\ key = name spec.
Proof.
  unfold remaps_of, files_of. destruct (spec_file_path spec) as [|p|ps].
  - rewrite list_elem_of_singleton. split; [discriminate|].
    intros [Hin _]. apply not_elem_of_nil in Hin. contradiction.
  - rewrite !list_elem_of_singleton. split; [intros [= -> ->]; auto|].
    intros [-> ->]. reflexivity.
  - rewrite list_elem_of_fmap. split.
    + intros (x & [= -> ->] & Hx). auto.
    + intros [Hin ->]. eauto.
Qed.

(** X7. The node remapper inverts the bank of node specifications.  When
    every specification has a name, an executable file can be looked up
    exactly when some specification has it, and what is found mentions
    exactly the names of the specifications that have it. *)
Theorem spec_remapper_inverts (node_spec : list (string * NodeSpecification))
    (f : string) :
  Forall (fun item => name item.2 <> None) node_spec ->
  let node_remapper := _create_spec_remappers node_spec in
  (__getitem__ (Some f) node_remapper = None
   <-> forall item, item ∈ node_spec -> f ∉ files_of item.2)
  /\ (forall v, __getitem__ (Some f) node_remapper = Some v ->
        forall key, mentions v key
                    <-> exists item, item ∈ node_spec /\ f ∈ files_of item.2
                                     /\ key = name item.2).
Proof.
  intros Hnames node_remapper. unfold node_remapper.
  rewrite create_spec_remappers_calls.
  set (calls := mjoin ((fun item => remaps_of item.2) <$> node_spec)).
  assert (Hcalls : forall key,
            (Some f, key) ∈ calls
            <-> exists item, item ∈ node_spec /\ f ∈ files_of item.2
                             /\ key = name item.2).
  { intros key. unfold calls. rewrite list_elem_of_join. split.
    - intros (l & Hin & Hl). apply list_elem_of_fmap in Hl as (item & -> & Hitem).
      apply elem_of_remaps in Hin. eauto.
    - intros (item & Hitem & Hin). exists (remaps_of item.2).
      split; [apply elem_of_remaps; assumption|].
      apply list_elem_of_fmap. eauto. }
  assert (Hall : Forall (fun c : option string * option string => c.2 <> None)
                   calls).
  { apply Forall_forall. intros [d k] Hin. unfold calls in Hin.
    apply list_elem_of_join in Hin as (l & Hin & Hl).
    apply list_elem_of_fmap in Hl as (item & -> & Hitem).
    rewrite Forall_forall in Hnames. specialize (Hnames _ Hitem).
    unfold remaps_of in Hin. cbn.
    destruct (spec_file_path item.2) as [|p|ps].
    - apply list_elem_of_singleton in Hin. congruence.
    - apply list_elem_of_singleton in Hin. congruence.
    - apply list_elem_of_fmap in Hin as (x & [= -> ->] & _). assumption. }
  destruct (remapper_inverts calls (Some f) Hall) as [Hnone Hsome].
  split.
  - rewrite Hnone. split.
    + intros Hno item Hitem Hin. apply (Hno (name item.2)), Hcalls. eauto.
    + intros Hno key Hin. apply Hcalls in Hin as (item & Hitem & Hin & _).
      exact (Hno item Hitem Hin).
  - intros v Hv key. destruct (Hsome v Hv) as [Hm _].
    rewrite Hm. apply Hcalls.
Qed.

(** Two specifications built from one executable, and a third one. *)
Definition sample_specs : list (string * NodeSpecification) :=
  [("pkg/talker", {| name := Some "pkg/talker";
                     spec_file_path := Path "/ws/install/pkg/lib/pkg/talker" |});
   ("pkg/relay", {| name := Some "pkg/relay";
                    spec_file_path := Paths ["/ws/install/pkg/lib/pkg/relay";
                                             "/ws/install/pkg/lib/pkg/talker"] |});
   ("pkg/talker2", {| name := Some "pkg/talker";
                      spec_file_path := Path "/ws/install/pkg/lib/pkg/talker" |})].

Example sample_remapper :
  _create_spec_remappers sample_specs
  = <[Some "/ws/install/pkg/lib/pkg/talker" :=
        Many [Some "pkg/talker"; Some "pkg/relay"]]>
      {[Some "/ws/install/pkg/lib/pkg/relay" := One (Some "pkg/relay")]}.
Proof. reflexivity. Qed.

(** A key that is [None] is replaced by the next key. *)
Example none_key_is_replaced :
  remapper_of [("f", None); ("f", Some "a")] = {["f" := One (Some "a")]}
  /\ remapper_of [("f", Some "a"); ("f", None)]
     = {["f" := Many [Some "a"; None]]}.
Proof. split; reflexivity. Qed.

Lemma remapper_inverts_witness :
  __getitem__ "g" (remapper_of [("f", Some "a"); ("f", Some "b")]) = None
  <-> forall k, ("g", k) ∉ [("f", Some "a"); ("f", Some "b")].
Proof.
  apply (proj1 (remapper_inverts [("f", Some "a"); ("f", Some "b")] "g"
                  ltac:(repeat constructor; discriminate))).
Defined.

Lemma spec_remapper_inverts_witness :
  __getitem__ (Some "/usr/bin/top") (_create_spec_remappers sample_specs) = None
  <-> forall item, item ∈ sample_specs -> "/usr/bin/top" ∉ files_of item.2.
Proof.
  apply (proj1 (spec_remapper_inverts sample_specs "/usr/bin/top"
                  ltac:(repeat constructor; discriminate))).
Defined.

End Remapper.

(** ** snapshot/builders/base_builders.py: [_EntityBuilder.__init__]

    A builder splits its name on [/]: [name_suffix] is a slash and the
    last token, [name_base] the tokens before it, joined by [/]. *)

Module EntityName.

(** [sep.join(parts)] *)
Fixpoint join (sep : string) (parts : list string) : string :=
  match parts with
  | [] => ""
  | [part] => part
  | part :: rest => part ++ sep ++ join sep rest
  end.

(** [name_tokens = name.split("/")] *)
Definition name_tokens (name : string) : list string := PyStr.split "/" name.

(** [self._name_suffix = f"/{name_tokens[-1]}"] *)
Definition _name_suffix (name : string) : string :=
  "/" ++ List.last (name_tokens name) "".

(** [self._name_base = "/".join(name_tokens[0 : (len(name_tokens) - 1)])] *)
Definition _name_base (name : string) : string :=
  join "/" (take (length (name_tokens name) - 1) (name_tokens name)).

(** [ActionBuilder.test_potential_action_topic_builder(action_topic)] *)
Definition test_potential_action_topic_builder (action_topic : Action.TopicBuilder)
    : bool :=
  bool_decide (Action.name_suffix action_topic ∈ Action.TOPIC_SUFFIXES).

(** *** Splitting and joining *)

Lemma join_cons_cons sep a b rest :
  join sep (a :: b :: rest) = a ++ sep ++ join sep (b :: rest).
Proof. reflexivity. Qed.

Lemma join_String sep c a rest :
  join sep (String c a :: rest) = String c (join sep (a :: rest)).
Proof. destruct rest; reflexivity. Qed.

Lemma append_assoc (a b c : string) : (a ++ b) ++ c = a ++ (b ++ c).
Proof.
  induction a as [|x a IH]; [reflexivity|].
  change (String x ((a ++ b) ++ c) = String x (a ++ (b ++ c))).
  f_equal. exact IH.
Qed.

Lemma join_snoc sep (l : list string) x :
  l <> [] -> join sep (l ++ [x]) = join sep l ++ sep ++ x.
Proof.
  induction l as [|a [|b l] IH]; intros Hne; [congruence|reflexivity|].
  change (join sep ((a :: b :: l) ++ [x]))
    with (a ++ sep ++ join sep ((b :: l) ++ [x])).
  rewrite IH by discriminate. rewrite join_cons_cons, !append_assoc. reflexivity.
Qed.

(** Joining the tokens of a string gives the string back. *)
Lemma join_split (sep : ascii) (s : string) :
  join (String sep "") (PyStr.split sep s) = s.
Proof.
  induction s as [|c s IH]; [reflexivity|].
  cbn [PyStr.split]. pose proof (PyStr.split_nonempty sep s) as Hne.
  destruct (Ascii.eqb c sep) eqn:Hc.
  - apply Ascii.eqb_eq in Hc as ->.
    destruct (PyStr.split sep s) as [|t ts]; [congruence|].
    rewrite join_cons_cons, IH. reflexivity.
  - destruct (PyStr.split sep s) as [|t ts]; [congruence|].
    rewrite join_String, IH. reflexivity.
Qed.

(** [sep in s], for a separator of one character *)
Definition has_sep (sep : ascii) (s : string) : bool :=
  PyStr.contains (String sep "") s.

Lemma has_sep_String sep c s :
  has_sep sep (String c s) = Ascii.eqb c sep || has_sep sep s.
Proof.
  unfold has_sep.
  change (PyStr.contains (String sep "") (String c s))
    with (String.prefix (String sep "") (String c s)
          || PyStr.contains (String sep "") s).
  f_equal. cbn. destruct (ascii_dec sep c) as [->|Hne].
  - rewrite Ascii.eqb_refl. destruct s; reflexivity.
  - symmetry. apply Ascii.eqb_neq. congruence.
Qed.

Lemma split_no_sep sep s : has_sep sep s = false -> PyStr.split sep s = [s].
Proof.
  induction s as [|c s IH]; [reflexivity|].
  rewrite has_sep_String. intros Hno. apply orb_false_iff in Hno as [Hc Hs].
  cbn [PyStr.split]. rewrite Hc, (IH Hs). reflexivity.
Qed.

Lemma split_has_sep sep s :
  has_sep sep s = true -> 2 <= length (PyStr.split sep s).
Proof.
  induction s as [|c s IH]; [discriminate|].
  rewrite has_sep_String. cbn [PyStr.split].
  pose proof (PyStr.split_nonempty sep s) as Hne.
  destruct (Ascii.eqb c sep); cbn [orb].
  - intros _. destruct (PyStr.split sep s); [congruence | cbn; lia].
  - intros Hs. specialize (IH Hs).
    destruct (PyStr.split sep s); [congruence | exact IH].
Qed.

(** The tokens of [a ++ sep ++ b] are those of [a], then those of [b]. *)
Lemma split_app sep (a b : string) :
  PyStr.split sep (a ++ String sep b)
  = (PyStr.split sep a ++ PyStr.split sep b)%list.
Proof.
  induction a as [|c a IH].
  - change ("" ++ String sep b) with (String sep b).
    cbn [PyStr.split]. rewrite Ascii.eqb_refl. reflexivity.
  - change (String c a ++ String sep b) with (String c (a ++ String sep b)).
    cbn [PyStr.split]. rewrite IH.
    pose proof (PyStr.split_nonempty sep a) as Hne.
    destruct (Ascii.eqb c sep); [reflexivity|].
    destruct (PyStr.split sep a); [congruence | reflexivity].
Qed.

Lemma tokens_snoc (tokens : list string) :
  tokens <> [] ->
  tokens = (take (length tokens - 1) tokens ++ [List.last tokens ""])%list.
Proof.
  intros Hne. rewrite (app_removelast_last "" Hne) at 1.
  f_equal. rewrite removelast_firstn_len. f_equal.
  destruct tokens; [congruence | cbn; lia].
Qed.

(** X8. A name with a slash is its [name_base] followed by its
    [name_suffix].  A name without a slash is not: its [name_base] is
    empty and its [name_suffix] is the name behind a slash. *)
Theorem name_base_suffix (name : string) :
  (has_sep "/" name = true -> _name_base name ++ _name_suffix name = name)
  /\ (has_sep "/" name = false ->
        _name_base name = "" /\ _name_suffix name = "/" ++ name).
Proof.
  unfold _name_base, _name_suffix, name_tokens. split.
  - intros Hsep. pose proof (split_has_sep _ _ Hsep) as Hlen.
    pose proof (join_split "/" name) as Hjoin.
    rewrite (tokens_snoc (PyStr.split "/" name)) in Hjoin
      by apply PyStr.split_nonempty.
    rewrite join_snoc in Hjoin; [exact Hjoin|].
    destruct (PyStr.split "/" name) as [|a [|b l]]; cbn in *; try lia.
    discriminate.
  - intros Hno. rewrite (split_no_sep _ _ Hno). split; reflexivity.
Qed.

(** The builder of the name [base/token], [token] without a slash, has
    [base] for its [name_base] and [/token] for its [name_suffix]. *)
Lemma name_of_base_and_token (base token : string) :
  has_sep "/" token = false ->
  _name_base (base ++ "/" ++ token) = base
  /\ _name_suffix (base ++ "/" ++ token) = "/" ++ token.
Proof.
  intros Hno. unfold _name_base, _name_suffix, name_tokens.
  change (base ++ "/" ++ token) with (base ++ String "/" token).
  rewrite split_app, (split_no_sep _ _ Hno).
  rewrite last_last, length_app. cbn [length].
  replace (length (PyStr.split "/" base) + 1 - 1)
    with (length (PyStr.split "/" base)) by lia.
  rewrite take_app_length. split; [apply join_split | reflexivity].
Qed.

Lemma suffix_has_token (s : string) :
  s ∈ Action.TOPIC_SUFFIXES ->
  exists token, s = "/" ++ token /\ has_sep "/" token = false.
Proof.
  unfold Action.TOPIC_SUFFIXES, Action.CLIENT_PUBLISHED_TOPIC_SUFFIXES,
    Action.SERVER_PUBLISHED_TOPIC_SUFFIXES.
  intros Hs. repeat (apply elem_of_union in Hs as [Hs|Hs]);
    apply elem_of_singleton in Hs as ->; eexists; split; reflexivity.
Qed.

(** X9. A topic builder whose name has a slash in it passes
    [test_potential_action_topic_builder] exactly when its name ends in
    one of [/cancel], [/goal], [/feedback], [/result], [/status]; what
    is in front of that suffix is then its [name_base].  A name without
    a slash passes when it is one of these words without the slash. *)
Theorem potential_action_topic (action_topic : Action.TopicBuilder) :
  (has_sep "/" (Action.name action_topic) = true ->
   (test_potential_action_topic_builder action_topic = true
    <-> exists base s, s ∈ Action.TOPIC_SUFFIXES
                       /\ Action.name action_topic = base ++ s))
  /\ (forall base s, s ∈ Action.TOPIC_SUFFIXES ->
        Action.name action_topic = base ++ s ->
        _name_base (Action.name action_topic) = base
        /\ Action.name_suffix action_topic = s)
  /\ (has_sep "/" (Action.name action_topic) = false ->
      test_potential_action_topic_builder action_topic
      = bool_decide ("/" ++ Action.name action_topic ∈ Action.TOPIC_SUFFIXES)).
Proof.
  assert (Hdecode : forall base s, s ∈ Action.TOPIC_SUFFIXES ->
            Action.name action_topic = base ++ s ->
            _name_base (Action.name action_topic) = base
            /\ Action.name_suffix action_topic = s).
  { intros base s Hs Hname. apply suffix_has_token in Hs as (token & -> & Hno).
    change (Action.name_suffix action_topic)
      with (_name_suffix (Action.name action_topic)).
    rewrite Hname. apply name_of_base_and_token. assumption. }
  split; [|split; [exact Hdecode|]].
  - intros Hsep. unfold test_potential_action_topic_builder.
    rewrite bool_decide_eq_true. split.
    + intros Hin. exists (_name_base (Action.name action_topic)),
        (Action.name_suffix action_topic).
      split; [assumption|]. symmetry.
      apply (proj1 (name_base_suffix (Action.name action_topic)) Hsep).
    + intros (base & s & Hs & Hname).
      destruct (Hdecode base s Hs Hname) as [_ ->]. assumption.
  - intros Hno. unfold test_potential_action_topic_builder.
    change (Action.name_suffix action_topic)
      with (_name_suffix (Action.name action_topic)).
    rewrite (proj2 (proj2 (name_base_suffix (Action.name action_topic)) Hno)).
    reflexivity.
Qed.

Example name_parts :
  _name_base "/fibonacci/goal" = "/fibonacci"
  /\ _name_suffix "/fibonacci/goal" = "/goal"
  /\ _name_base "/talker" = "" /\ _name_suffix "/talker" = "/talker"
  /\ _name_base "talker" = "" /\ _name_suffix "talker" = "/talker".
Proof. repeat split; reflexivity. Qed.

Lemma name_base_suffix_witness :
  _name_base "/ns/robot/scan" ++ _name_suffix "/ns/robot/scan" = "/ns/robot/scan".
Proof.
  apply (proj1 (name_base_suffix "/ns/robot/scan")). reflexivity.
Defined.

Lemma potential_action_topic_witness :
  test_potential_action_topic_builder
    (Action.sample_topic "/fibonacci/goal" "pkg/FibonacciActionGoal") = true
  <-> exists base s,
        s ∈ Action.TOPIC_SUFFIXES
        /\ Action.name (Action.sample_topic "/fibonacci/goal"
                          "pkg/FibonacciActionGoal") = base ++ s.
Proof.
  apply (proj1 (potential_action_topic
                  (Action.sample_topic "/fibonacci/goal"
                     "pkg/FibonacciActionGoal"))).
  reflexivity.
Defined.

End EntityName.

(** ** snapshot/builders/base_builders.py: the other operations of a bank

    [add_entity_builders], [remove_entity_builder] and the effect of
    [prepare] on the names a bank holds, with the node bank's filter
    taken from [Filters]. *)

Module BankOps.
Import BankBuilder.

Section BankOps.

Context {Builder : Type}.

Variable name : Builder -> string.
Variable _create_entity_builder : string -> Builder.
Variable _should_filter_out : string -> Builder -> bool.
Variable entity_prepare : Builder -> Builder.

Hypothesis created_name : forall n, name (_create_entity_builder n) = n.

Local Abbreviation bank := (gmap string Builder).

(** [add_entity_builders]: the builders are added first to last. *)
Definition add_entity_builders (entity_builders : list Builder) (bk : bank)
    : bank :=
  foldl (fun bk b => add_entity_builder name b bk) bk entity_builders.

(** [remove_entity_builder]: [dict.pop(name)] has no default, so a
    missing name is a [KeyError], here [None]. *)
Definition remove_entity_builder (n : string) (bk : bank) : option bank :=
  match bk !! n with
  | Some _ => Some (delete n bk)
  | None => None
  end.

(** The builders of a list that are named [n]. *)
Definition named (n : string) (entity_builders : list Builder) : list Builder :=
  List.filter (fun b => bool_decide (name b = n)) entity_builders.

Lemma named_snoc n bs b :
  named n (bs ++ [b])
  = (named n bs ++ if bool_decide (name b = n) then [b] else [])%list.
Proof. unfold named. rewrite List.filter_app. reflexivity. Qed.

(** X10. After a list of builders is added, a name leads to the last builder
    of the list that has this name; a name none of them has leads to
    what it led to before. *)
Theorem add_entity_builders_last_wins (entity_builders : list Builder)
    (bk : bank) (n : string) :
  add_entity_builders entity_builders bk !! n
  = match last (named n entity_builders) with
    | Some b => Some b
    | None => bk !! n
    end.
Proof.
  induction entity_builders as [|b bs IH] using rev_ind; [reflexivity|].
  unfold add_entity_builders. rewrite foldl_app. cbn [foldl].
  fold (add_entity_builders bs bk). unfold add_entity_builder.
  rewrite named_snoc. case_bool_decide as Hn.
  - rewrite Hn, lookup_insert_eq, last_snoc. reflexivity.
  - rewrite lookup_insert_ne by assumption. rewrite app_nil_r. exact IH.
Qed.

(** X11. Removing a name that is not in the bank is an error.  Removing a
    builder that was just added under a new name gives the bank back.
    After a builder is removed, the next lookup of its name stores a
    fresh builder under it. *)
Theorem remove_entity_builder_spec (bk : bank) (n : string) :
  (bk !! n = None -> remove_entity_builder n bk = None)
  /\ (forall b, bk !! name b = None ->
        remove_entity_builder (name b) (add_entity_builder name b bk) = Some bk)
  /\ (forall b, bk !! n = Some b ->
        exists bk', remove_entity_builder n bk = Some bk'
                    /\ bk' !! n = None
                    /\ (forall m, m <> n -> bk' !! m = bk !! m)
                    /\ __getitem__ name _create_entity_builder n bk'
                       = Some (_create_entity_builder n,
                               <[n := _create_entity_builder n]> bk')).
Proof using created_name.
  split; [|split].
  - intros Hn. unfold remove_entity_builder. rewrite Hn. reflexivity.
  - intros b Hb. unfold remove_entity_builder, add_entity_builder.
    rewrite lookup_insert_eq. f_equal. apply delete_insert_id. assumption.
  - intros b Hb. exists (delete n bk). unfold remove_entity_builder.
    rewrite Hb. split; [reflexivity|]. split; [apply lookup_delete_eq|].
    split; [intros m Hm; apply lookup_delete_ne; congruence|].
    apply getitem_absent; [assumption | apply lookup_delete_eq].
Qed.

(** X12. [prepare] keeps exactly the names whose builder the filter accepts.
    When what the filter says does not change as a builder is prepared
    (the node and topic banks filter by name alone), a second [prepare]
    removes nothing more. *)
Theorem prepare_names (bk : bank) :
  (forall n, n ∈ dom (prepare _should_filter_out entity_prepare bk)
             <-> exists b, bk !! n = Some b /\ _should_filter_out n b = false)
  /\ ((forall n b, _should_filter_out n (entity_prepare b)
                   = _should_filter_out n b) ->
      dom (prepare _should_filter_out entity_prepare
             (prepare _should_filter_out entity_prepare bk))
      = dom (prepare _should_filter_out entity_prepare bk)).
Proof.
  assert (Hdom : forall (bk : bank) n,
            n ∈ dom (prepare _should_filter_out entity_prepare bk)
            <-> exists b, bk !! n = Some b /\ _should_filter_out n b = false).
  { intros bk0 n. rewrite elem_of_dom. split.
    - intros [b' Hb']. destruct (bk0 !! n) as [b|] eqn:Hb.
      + destruct (_should_filter_out n b) eqn:Hf; [|eauto].
        rewrite (prepare_filtered _ _ _ _ _ Hb Hf) in Hb'. discriminate.
      + unfold prepare, _post_prepare,
          _gather_filtered_names_to_entity_builders in Hb'.
        rewrite lookup_fmap in Hb'. apply fmap_Some in Hb' as (b & Hb0 & _).
        apply map_lookup_filter_Some in Hb0 as [Hb0 _]. congruence.
    - intros (b & Hb & Hf). rewrite (prepare_kept _ _ _ _ _ Hb Hf). eauto. }
  split; [apply Hdom|].
  intros Hstable. apply set_eq. intros n. rewrite (Hdom (prepare _ _ bk)).
  split.
  - intros (b & Hb & _). apply elem_of_dom. eauto.
  - intros Hn. pose proof Hn as Hn'. apply Hdom in Hn' as (b & Hb & Hf).
    exists (entity_prepare b). rewrite (prepare_kept _ _ _ _ _ Hb Hf).
    split; [reflexivity|]. rewrite Hstable. assumption.
Qed.

End BankOps.

Example later_builder_wins :
  add_entity_builders fst [("/a", 1); ("/b", 2); ("/a", 3)] ∅ !! "/a"
  = Some ("/a", 3).
Proof. reflexivity. Qed.

Lemma remove_entity_builder_spec_witness :
  remove_entity_builder "/chatter" sample_bank = None.
Proof.
  apply (proj1 (remove_entity_builder_spec fst sample_create
                  (fun n => eq_refl) sample_bank "/chatter")).
  reflexivity.
Defined.

Lemma prepare_names_witness :
  dom (prepare sample_filter id (prepare sample_filter id sample_bank))
  = dom (prepare sample_filter id sample_bank).
Proof.
  apply (proj2 (prepare_names sample_filter id sample_bank)).
  reflexivity.
Defined.

(** *** The node bank and the node filter *)

(** [NodeBankBuilder._should_filter_out]: the answer of the node filter
    singleton, in the state [st] of the filters module. *)
Definition node_should_filter_out {Builder : Type} (st : Filters.state)
    (n : string) (_ : Builder) : bool :=
  Filters.should_filter_out (Filters.get_filter Filters.NodeFilter st).1 n
    (Filters.get_filter Filters.NodeFilter st).2.

(** X13. A name that was put into [NodeFilter.BASE_EXCLUSIONS] at any time,
    as [snapshot] does with the names of its own nodes, is in no node
    bank after [prepare], whatever else was done with the filters. *)
Theorem excluded_node_is_not_prepared {Builder : Type}
    (entity_prepare : Builder -> Builder) (item : string)
    (o : Filters.op) (before after : list Filters.op) (st : Filters.state)
    (bk : gmap string Builder) :
  Filters.adds_to_base o Filters.NodeFilter item ->
  Filters.run (before ++ o :: after) Filters.initial_state = Some st ->
  prepare (node_should_filter_out st) entity_prepare bk !! item = None.
Proof.
  intros Hadd Hrun.
  assert (Hfiltered : forall b : Builder, node_should_filter_out st item b = true).
  { intros b. unfold node_should_filter_out.
    apply Filters.run_app in Hrun as (st1 & Hrun1 & Hrun2). simpl in Hrun2.
    destruct (Filters.step o st1) as [st2|] eqn:Hstep; [|discriminate].
    destruct (Filters.run_grows _ _ _ Filters.inv_initial Hrun1) as [Hinv1 _].
    destruct (Filters.step_grows _ _ _ Hinv1 Hstep) as [Hinv2 _].
    destruct (Filters.run_grows _ _ _ Hinv2 Hrun2) as [Hinv [Hin _]].
    destruct (Filters.get_filter_grows Filters.NodeFilter st Hinv)
      as [_ [Hin' _]].
    unfold Filters.should_filter_out.
    rewrite (Filters.get_filter_base Filters.NodeFilter st Hinv).
    rewrite (Hin' _ _ (Filters.BASE_EXCLUSIONS_lt Filters.NodeFilter));
      [reflexivity|].
    apply Hin; [apply Filters.BASE_EXCLUSIONS_lt|].
    eapply Filters.adds_to_base_in; eassumption. }
  destruct (bk !! item) as [b|] eqn:Hb.
  - apply (prepare_filtered _ _ _ b); [assumption | apply Hfiltered].
  - unfold prepare, _post_prepare, _gather_filtered_names_to_entity_builders.
    rewrite lookup_fmap. apply fmap_None, map_lookup_filter_None.
    left. assumption.
Qed.

Lemma excluded_node_is_not_prepared_witness :
  prepare (node_should_filter_out Filters.sample_state) id
    (<["/_ros2cli_daemon" := ("/_ros2cli_daemon", 1)]> sample_bank)
    !! "/_ros2cli_daemon" = None.
Proof.
  apply (excluded_node_is_not_prepared id "/_ros2cli_daemon"
           (Filters.AddBase Filters.NodeFilter "/_ros2cli_daemon")
           [Filters.AddBase Filters.NodeFilter "/ros_snapshot";
            Filters.SetDebugFlag true; Filters.SetTFFlag false;
            Filters.GetFilter Filters.NodeFilter]
           [Filters.SetDebugFlag false]).
  - left. reflexivity.
  - reflexivity.
Defined.

End BankOps.

(** ** snapshot/builders/topic_bank_builder.py: the type of a topic

    [ROSSnapshot.snapshot] turns the collected topics into the list of
    [(name, type)] pairs a [TopicBankBuilder] is made from, and
    [_find_topic_type] reads that list. *)

Module TopicTypes.

(** What stands for the type of a topic in the list: [None], a type
    name, or a list of type names. *)
Inductive topic_type :=
| TNone
| TStr (t : string)
| TList (ts : list string).

(** What [_find_topic_type] does: it returns a value, or the indexing
    of an empty list raises [IndexError]. *)
Inductive found :=
| Returns (t : topic_type)
| IndexError.

(** The loop of [snapshot] that builds [topics_list]; [topic_types] is
    [list(topic_info["types"])], the types of a set in some order. *)
Definition topics_list_entry (topic : string * list string)
    : string * topic_type :=
  let '(topic_name, topic_types) := topic in
  if (1 <? length topic_types)%nat then (topic_name, TList topic_types)
  else match topic_types with
       | [t] => (topic_name, TStr t)
       | _ => (topic_name, TNone)
       end.

Definition topics_list (topics : list (string * list string))
    : list (string * topic_type) :=
  topics_list_entry <$> topics.

(** [TopicBankBuilder._find_topic_type(desired_topic)] *)
Fixpoint _find_topic_type (_topic_types : list (string * topic_type))
    (desired_topic : string) : found :=
  match _topic_types with
  | [] => Returns (TStr "Error: Unknown Topic Name")
  | (topic, obtained_topic_type) :: rest =>
      if String.eqb topic desired_topic then
        match obtained_topic_type with
        | TList ts =>
            if (1 <? length ts)%nat then Returns (TList ts)   (* a warning *)
            else match ts with
                 | t :: _ => Returns (TStr t)
                 | [] => IndexError
                 end
        | _ => Returns obtained_topic_type
        end
      else _find_topic_type rest desired_topic
  end.

(** [TopicBankBuilder._remove_action_topic_builders]: [dict.pop] without
    a default, one name after the other; [None] is the [KeyError]. *)
Fixpoint _remove_action_topic_builders {Builder : Type}
    (action_topic_names : list string) (bk : gmap string Builder)
    : option (gmap string Builder) :=
  match action_topic_names with
  | [] => Some bk
  | n :: rest =>
      match bk !! n with
      | Some _ => _remove_action_topic_builders rest (delete n bk)
      | None => None
      end
  end.

Lemma find_unlisted l desired :
  desired ∉ l.*1 ->
  _find_topic_type l desired = Returns (TStr "Error: Unknown Topic Name").
Proof.
  induction l as [|[topic ty] l IH]; intros Hnot; [reflexivity|].
  cbn [_find_topic_type]. cbn in Hnot.
  destruct (String.eqb_spec topic desired) as [->|Hne].
  - exfalso. apply Hnot. left.
  - apply IH. intros Hin. apply Hnot. right. assumption.
Qed.

Lemma topics_list_names topics : (topics_list topics).*1 = topics.*1.
Proof.
  unfold topics_list. rewrite <- list_fmap_compose. apply list_fmap_ext.
  intros i [n tys] _. destruct tys as [|t [|t' tys]]; reflexivity.
Qed.

(** X14. The type found for a topic of the list [snapshot] builds: the
    topic's one type as a string, [None] when it has no type, the list
    of its types when it has several.  A topic that is not in the list
    gets the string ["Error: Unknown Topic Name"] for a type.  In no
    case does the lookup fail. *)
Theorem find_topic_type_of_snapshot (topics : list (string * list string)) :
  NoDup topics.*1 ->
  (forall topic_name topic_types, (topic_name, topic_types) ∈ topics ->
     _find_topic_type (topics_list topics) topic_name
     = Returns match topic_types with
               | [] => TNone
               | [t] => TStr t
               | _ => TList topic_types
               end)
  /\ (forall desired, desired ∉ topics.*1 ->
        _find_topic_type (topics_list topics) desired
        = Returns (TStr "Error: Unknown Topic Name"))
  /\ (forall desired, _find_topic_type (topics_list topics) desired <> IndexError).
Proof.
  intros Hnd.
  assert (Hlisted : forall topic_name topic_types,
            (topic_name, topic_types) ∈ topics ->
            _find_topic_type (topics_list topics) topic_name
            = Returns match topic_types with
                      | [] => TNone
                      | [t] => TStr t
                      | _ => TList topic_types
                      end).
  { induction topics as [|[n tys] topics IH]; intros topic_name topic_types Hin.
    - apply not_elem_of_nil in Hin. contradiction.
    - cbn in Hnd. apply NoDup_cons in Hnd as [Hn Hnd].
      cbn [topics_list fmap list_fmap topics_list_entry].
      apply elem_of_cons in Hin as [[= -> ->]|Hin].
      + destruct tys as [|t [|t' tys]]; cbn; rewrite String.eqb_refl;
          reflexivity.
      + assert (Hne : n <> topic_name).
        { intros ->. apply Hn. apply list_elem_of_fmap.
          exists (topic_name, topic_types). auto. }
        apply String.eqb_neq in Hne.
        destruct (1 <? length tys)%nat;
          [|destruct tys as [|t [|t' tys]]];
          cbn [_find_topic_type]; rewrite Hne; apply IH; assumption. }
  split; [exact Hlisted|]. split.
  - intros desired Hnot. apply find_unlisted. rewrite topics_list_names.
    assumption.
  - intros desired.
    destruct (decide (desired ∈ topics.*1)) as [Hin|Hnot].
    + apply list_elem_of_fmap in Hin as ([n tys] & -> & Hin).
      change ((n, tys).1) with n. rewrite (Hlisted _ _ Hin). discriminate.
    + rewrite find_unlisted by (rewrite topics_list_names; assumption).
      discriminate.
Qed.

(** A list that names a topic twice answers with the first entry; a
    one-element list of types is unwrapped, and an empty one is the
    error. *)
Example find_topic_type_direct :
  _find_topic_type [("/scan", TStr "A"); ("/scan", TStr "B")] "/scan"
  = Returns (TStr "A")
  /\ _find_topic_type [("/scan", TList ["A"])] "/scan" = Returns (TStr "A")
  /\ _find_topic_type [("/scan", TList [])] "/scan" = IndexError.
Proof. repeat split; reflexivity. Qed.

(** X15. Removing the topics of actions succeeds exactly when the names are
    pairwise different and all in the bank; the bank then has lost
    these names and kept the others.  A name given twice, or one the
    bank does not have, is a [KeyError]. *)
Theorem remove_action_topic_builders_spec {Builder : Type}
    (action_topic_names : list string) (bk : gmap string Builder) :
  (is_Some (_remove_action_topic_builders action_topic_names bk)
   <-> NoDup action_topic_names
       /\ forall n, n ∈ action_topic_names -> is_Some (bk !! n))
  /\ (forall bk', _remove_action_topic_builders action_topic_names bk = Some bk' ->
        forall n, bk' !! n
                  = if decide (n ∈ action_topic_names) then None else bk !! n).
Proof.
  revert bk. induction action_topic_names as [|x names IH]; intros bk.
  - split.
    + split; [intros _; split; [constructor|]|intros _; cbn; eauto].
      intros n Hn. apply not_elem_of_nil in Hn. contradiction.
    + intros bk' [= <-] n. rewrite decide_False by apply not_elem_of_nil.
      reflexivity.
  - cbn [_remove_action_topic_builders].
    destruct (bk !! x) as [b|] eqn:Hx.
    + destruct (IH (delete x bk)) as [IHiff IHlook]. split.
      * rewrite IHiff, NoDup_cons. split.
        -- intros [Hnd Hall]. split; [split; [|assumption]|].
           ++ intros Hin. destruct (Hall x Hin) as [b' Hb'].
              rewrite lookup_delete_eq in Hb'. discriminate.
           ++ intros n Hn. apply elem_of_cons in Hn as [->|Hn]; [eauto|].
              destruct (Hall n Hn) as [b' Hb'].
              apply lookup_delete_Some in Hb' as [_ Hb']. eauto.
        -- intros [[Hx' Hnd] Hall]. split; [assumption|].
           intros n Hn. destruct (Hall n ltac:(right; assumption)) as [b' Hb'].
           exists b'. apply lookup_delete_Some. split; [|assumption].
           intros ->. contradiction.
      * intros bk' Hrun n. rewrite (IHlook bk' Hrun n).
        destruct (decide (n = x)) as [->|Hne].
        -- rewrite (decide_True (P := x ∈ x :: names)) by left.
           case_decide; [reflexivity | apply lookup_delete_eq].
        -- rewrite lookup_delete_ne by congruence.
           destruct (decide (n ∈ names)) as [Hin|Hnot].
           ++ rewrite decide_True by (right; assumption). reflexivity.
           ++ rewrite decide_False; [reflexivity|].
              intros Hin. apply elem_of_cons in Hin as [?|?]; contradiction.
    + split; [|discriminate]. split.
      * intros [bk' Hbk']. discriminate.
      * intros [_ Hall]. destruct (Hall x ltac:(left)) as [b Hb]. congruence.
Qed.

Lemma remove_action_topic_builders_spec_witness :
  (delete "/fib/goal" ({["/fib/goal" := 1; "/scan" := 2]}
                       : gmap string nat)) !! "/scan"
  = if decide ("/scan" ∈ ["/fib/goal"]) then None
    else ({["/fib/goal" := 1; "/scan" := 2]} : gmap string nat) !! "/scan".
Proof.
  apply (proj2 (remove_action_topic_builders_spec ["/fib/goal"]
                  ({["/fib/goal" := 1; "/scan" := 2]} : gmap string nat))).
  reflexivity.
Defined.

Lemma find_topic_type_of_snapshot_witness :
  _find_topic_type
    (topics_list [("/scan", ["sensor_msgs/msg/LaserScan"]);
                  ("/odd", ["A"; "B"]); ("/bare", [])]) "/odd"
  = Returns (TList ["A"; "B"]).
Proof.
  apply (proj1 (find_topic_type_of_snapshot
                  [("/scan", ["sensor_msgs/msg/LaserScan"]);
                   ("/odd", ["A"; "B"]); ("/bare", [])]
                  ltac:(apply (bool_decide_unpack _); vm_compute; exact I))
           "/odd" ["A"; "B"]).
  right. left.
Defined.

End TopicTypes.

(** ** snapshot/builders/node_builder.py: the process table

    The first [NodeBuilder] that is made fills [NodeBuilder.__processes]
    from the processes [list_ros_like_processes] returns and marks every
    process that is the parent of another one.  [get_node_pid] marks the
    process it chooses, and [ROSSnapshot.find_unmatched_executables]
    reads the markers. *)

Module ProcessTable.
Import NodePid.

(** [NodeBuilder.__processes[proc["pid"]] = proc] *)
Definition table_set (p : proc) (processes : list proc) : list proc :=
  if has_pid processes (pid p)
  then (fun q => if Z.eqb (pid q) (pid p) then p else q) <$> processes
  else (processes ++ [p])%list.

(** The body of the second loop of [NodeBuilder.__init__]:
    [NodeBuilder.__processes[ppid]["assigned"] = str(proc["pid"])] when
    [ppid] is a key. *)
Definition mark_parent (processes : list proc) (p : proc) : list proc :=
  match ppid p with
  | Some parent =>
      if has_pid processes parent
      then (fun q => if Z.eqb (pid q) parent
                     then set_assigned (Some (pretty (pid p))) q
                     else q) <$> processes
      else processes
  | None => processes
  end.

(** The table after [NodeBuilder.__init__] has gone through [procs]. *)
Definition gather_processes (procs : list proc) : list proc :=
  foldl mark_parent (foldl (fun processes p => table_set p processes) [] procs)
        procs.

(** [ROSSnapshot.find_unmatched_executables] *)
Definition find_unmatched_executables (processes : list proc) : list proc :=
  List.filter (fun p => match assigned p with None => true | Some _ => false end)
              processes.

(** The table after the lookups [calls], each a namespace, a node name
    and the guess flag. *)
Definition after_lookups (calls : list (string * string * bool))
    (processes : list proc) : list proc :=
  foldl (fun processes call =>
           (get_node_pid call.1.1 call.1.2 call.2 processes).2)
        processes calls.

(** *** Filling the table *)

Lemma has_pid_false procs x :
  x ∉ pid <$> procs -> has_pid procs x = false.
Proof.
  intros Hnot. apply not_true_is_false. intros Hhas.
  apply has_pid_spec in Hhas as (p & Hp & <-). apply Hnot.
  apply list_elem_of_fmap. eauto.
Qed.

Lemma table_of_distinct procs :
  NoDup (pid <$> procs) ->
  foldl (fun processes p => table_set p processes) [] procs = procs.
Proof.
  induction procs as [|p procs IH] using rev_ind; intros Hnd; [reflexivity|].
  rewrite fmap_app in Hnd. apply NoDup_app in Hnd as (Hnd & Hdisj & _).
  rewrite foldl_app. cbn [foldl]. rewrite IH by assumption.
  unfold table_set. rewrite has_pid_false; [reflexivity|].
  intros Hin. apply (Hdisj _ Hin). left.
Qed.

(** The processes of [cs] whose parent is [q]. *)
Definition children_of (q : proc) (cs : list proc) : list proc :=
  List.filter (fun c => bool_decide (ppid c = Some (pid q))) cs.

(** [q] as the marking loop leaves it after the processes [cs]. *)
Definition marked (cs : list proc) (q : proc) : proc :=
  match last (children_of q cs) with
  | Some c => set_assigned (Some (pretty (pid c))) q
  | None => q
  end.

Lemma pid_marked cs q : pid (marked cs q) = pid q.
Proof. unfold marked. destruct (last (children_of q cs)); reflexivity. Qed.

Lemma marked_snoc cs c q :
  marked (cs ++ [c]) q
  = if bool_decide (ppid c = Some (pid q))
    then set_assigned (Some (pretty (pid c))) q
    else marked cs q.
Proof.
  unfold marked, children_of. rewrite List.filter_app. cbn [List.filter].
  case_bool_decide.
  - rewrite last_snoc. reflexivity.
  - rewrite app_nil_r. reflexivity.
Qed.

Lemma set_assigned_marked a cs q :
  set_assigned a (marked cs q) = set_assigned a q.
Proof. unfold marked. destruct (last (children_of q cs)); reflexivity. Qed.

Lemma mark_parent_marked cs c processes :
  mark_parent (marked cs <$> processes) c = marked (cs ++ [c]) <$> processes.
Proof.
  unfold mark_parent. destruct (ppid c) as [parent|] eqn:Hpp.
  - assert (Hmap : (fun q => if Z.eqb (pid q) parent
                             then set_assigned (Some (pretty (pid c))) q
                             else q) <$> (marked cs <$> processes)
                   = marked (cs ++ [c]) <$> processes).
    { rewrite <- list_fmap_compose. apply list_fmap_ext. intros i q _. cbn.
      rewrite marked_snoc, pid_marked, Hpp.
      destruct (Z.eqb_spec (pid q) parent) as [->|Hne].
      - rewrite bool_decide_eq_true_2 by reflexivity.
        apply set_assigned_marked.
      - rewrite bool_decide_eq_false_2 by congruence. reflexivity. }
    destruct (has_pid (marked cs <$> processes) parent) eqn:Hhas;
      [exact Hmap|].
    rewrite <- Hmap. symmetry. rewrite <- (list_fmap_id (marked cs <$> processes)) at 2.
    apply list_fmap_ext. intros i q Hq. cbn.
    destruct (Z.eqb_spec (pid q) parent) as [<-|Hne]; [|reflexivity].
    exfalso. apply not_true_iff_false in Hhas. apply Hhas, has_pid_spec.
    exists q. split; [|reflexivity]. eapply list_elem_of_lookup_2. eassumption.
  - apply list_fmap_ext. intros i q _. rewrite marked_snoc, Hpp.
    rewrite bool_decide_eq_false_2 by discriminate. reflexivity.
Qed.

Lemma marked_nil q : marked [] q = q.
Proof. reflexivity. Qed.

Lemma foldl_mark_parent cs : forall processes,
  foldl mark_parent processes cs = marked cs <$> processes.
Proof.
  induction cs as [|c cs IH] using rev_ind; intros processes.
  - cbn. symmetry. apply list_fmap_id.
  - rewrite foldl_app. cbn [foldl]. rewrite IH. apply mark_parent_marked.
Qed.

Lemma gather_processes_marked procs :
  NoDup (pid <$> procs) -> gather_processes procs = marked procs <$> procs.
Proof.
  intros Hnd. unfold gather_processes. rewrite table_of_distinct by assumption.
  apply foldl_mark_parent.
Qed.

Lemma last_children q cs c :
  last (children_of q cs) = Some c -> c ∈ cs /\ ppid c = Some (pid q).
Proof.
  intros Hlast. apply last_Some_elem_of in Hlast.
  apply elem_of_filter_bool in Hlast as [Hin Hpp].
  apply bool_decide_eq_true in Hpp. auto.
Qed.

Lemma no_children q cs :
  last (children_of q cs) = None <-> forall c, c ∈ cs -> ppid c <> Some (pid q).
Proof.
  rewrite last_None. split.
  - intros Hnil c Hc Hpp.
    assert (Hin : c ∈ children_of q cs)
      by (apply elem_of_filter_bool; split;
          [assumption | apply bool_decide_eq_true; assumption]).
    rewrite Hnil in Hin. apply not_elem_of_nil in Hin. contradiction.
  - intros Hno. destruct (children_of q cs) as [|c l] eqn:Hch; [reflexivity|].
    assert (Hin : c ∈ children_of q cs) by (rewrite Hch; left).
    apply elem_of_filter_bool in Hin as [Hin Hpp].
    apply bool_decide_eq_true in Hpp. exfalso. exact (Hno c Hin Hpp).
Qed.

(** X16. The table the first [NodeBuilder] builds from processes with
    pairwise different pids, none of them assigned: it lists the same
    processes in the same order, and a process is marked as assigned
    exactly when it is the parent of a listed process; the marker is the
    pid of such a child, written as a string. *)
Theorem gather_processes_marks_parents (procs : list proc) :
  NoDup (pid <$> procs) ->
  (forall p, p ∈ procs -> assigned p = None) ->
  let processes := gather_processes procs in
  (fun q => set_assigned None q) <$> processes = procs
  /\ (forall q, q ∈ processes ->
        (assigned q = None <-> forall c, c ∈ procs -> ppid c <> Some (pid q))
        /\ (forall a, assigned q = Some a ->
              exists c, c ∈ procs /\ ppid c = Some (pid q)
                        /\ a = pretty (pid c)))
  /\ (forall p, p ∈ find_unmatched_executables processes
                <-> p ∈ procs /\ forall c, c ∈ procs -> ppid c <> Some (pid p)).
Proof.
  intros Hnd Hnone processes. unfold processes.
  rewrite (gather_processes_marked procs Hnd).
  assert (Hq : forall p, p ∈ procs ->
            (assigned (marked procs p) = None
             <-> forall c, c ∈ procs -> ppid c <> Some (pid p))
            /\ (forall a, assigned (marked procs p) = Some a ->
                  exists c, c ∈ procs /\ ppid c = Some (pid p)
                            /\ a = pretty (pid c))
            /\ ((forall c, c ∈ procs -> ppid c <> Some (pid p)) ->
                marked procs p = p)).
  { intros p Hp. rewrite <- no_children. unfold marked.
    destruct (last (children_of p procs)) as [c|] eqn:Hlast; cbn.
    - apply last_children in Hlast as [Hc Hpp].
      split; [split; discriminate|]. split; [|discriminate].
      intros a [= <-]. eauto.
    - rewrite (Hnone p Hp). split; [tauto|]. split; [discriminate | reflexivity]. }
  split; [|split].
  - rewrite <- list_fmap_compose.
    transitivity (id <$> procs); [|apply list_fmap_id].
    apply list_fmap_ext. intros i p Hp. cbn. rewrite set_assigned_marked.
    apply list_elem_of_lookup_2 in Hp. specialize (Hnone p Hp).
    destruct p. cbn in *. subst. reflexivity.
  - intros q Hin. apply list_elem_of_fmap in Hin as (p & -> & Hp).
    rewrite pid_marked. destruct (Hq p Hp) as (H1 & H2 & _). auto.
  - intros p. unfold find_unmatched_executables.
    rewrite elem_of_filter_bool, list_elem_of_fmap. split.
    + intros [(p0 & -> & Hp0) Hun].
      destruct (Hq p0 Hp0) as (H1 & _ & H3).
      assert (Hno : forall c, c ∈ procs -> ppid c <> Some (pid p0)).
      { apply H1. destruct (assigned (marked procs p0)); [discriminate|reflexivity]. }
      rewrite (H3 Hno). auto.
    + intros [Hp Hno]. destruct (Hq p Hp) as (H1 & _ & H3).
      split; [exists p; split; [symmetry; apply H3 |]; assumption |].
      rewrite (Hnone p Hp). reflexivity.
Qed.

(** *** Lookups *)

Lemma select_pid_candidate namespace node_name guess processes chosen :
  select_pid namespace node_name guess processes = Some chosen ->
  exists p, p ∈ processes /\ pid p = chosen
            /\ is_candidate namespace node_name p = true.
Proof.
  unfold select_pid. cbv zeta.
  destruct (List.filter (is_candidate namespace node_name) processes)
    as [|p [|q l]] eqn:Hf; [discriminate| |].
  - intros [= <-]. exists p. split; [|split; [reflexivity|]];
      apply (elem_of_filter_bool (is_candidate namespace node_name) processes p);
      rewrite Hf; left.
  - fold (remaining (p :: q :: l)). intros Hsel.
    assert (Hsome : exists r, r ∈ remaining (p :: q :: l) /\ pid r = chosen).
    { destruct (remaining (p :: q :: l)) as [|p' [|q' l']]; [discriminate| |].
      - injection Hsel as <-. exists p'. split; [left | reflexivity].
      - destruct guess; [|discriminate]. injection Hsel as <-.
        exists p'. split; [left | reflexivity]. }
    destruct Hsome as (r & Hr & Hpid).
    apply remaining_unassigned in Hr as [Hr _]. rewrite <- Hf in Hr.
    apply elem_of_filter_bool in Hr as [Hr Hc]. eauto.
Qed.

Lemma find_unmatched_mark namespace node_name chosen processes :
  find_unmatched_executables (mark_assigned namespace node_name chosen processes)
  = List.filter (fun q => negb (Z.eqb (pid q) chosen))
      (find_unmatched_executables processes).
Proof.
  unfold find_unmatched_executables, mark_assigned.
  induction processes as [|p processes IH]; [reflexivity|].
  cbn [fmap list_fmap List.filter]. rewrite IH.
  destruct (Z.eqb (pid p) chosen) eqn:Hp; cbn.
  - destruct (assigned p); cbn; rewrite ?Hp; reflexivity.
  - destruct (assigned p); cbn; rewrite ?Hp; reflexivity.
Qed.

(** X17. [get_node_pid] returns the pid of a process of the table that is a
    candidate for the node, and nothing else; from then on
    [find_unmatched_executables] leaves that process out and lists the
    others as before.  When it returns [None] the table is as it
    was. *)
Theorem get_node_pid_marks_candidate (namespace node_name : string)
    (guess : bool) (processes : list proc) :
  match get_node_pid namespace node_name guess processes with
  | (Some chosen, processes') =>
      (exists p, p ∈ processes /\ pid p = chosen
                 /\ is_candidate namespace node_name p = true)
      /\ find_unmatched_executables processes'
         = List.filter (fun q => negb (Z.eqb (pid q) chosen))
             (find_unmatched_executables processes)
      /\ (fun q => set_assigned None q) <$> processes'
         = (fun q => set_assigned None q) <$> processes
  | (None, processes') => processes' = processes
  end.
Proof.
  unfold get_node_pid.
  destruct (select_pid namespace node_name guess processes) as [chosen|] eqn:Hsel;
    [|reflexivity].
  split; [eapply select_pid_candidate; eassumption|].
  split; [apply find_unmatched_mark|].
  unfold mark_assigned. rewrite <- list_fmap_compose.
  apply list_fmap_ext. intros i q _. cbn.
  destruct (Z.eqb (pid q) chosen); reflexivity.
Qed.

(** *** Launchers are passed over *)

(** Every process that is the parent of a listed process is marked. *)
Definition parents_marked (processes : list proc) : Prop :=
  forall q c, q ∈ processes -> c ∈ processes -> ppid c = Some (pid q) ->
              assigned q <> None.

Lemma elem_of_mark_assigned namespace node_name chosen processes q' :
  q' ∈ mark_assigned namespace node_name chosen processes ->
  exists q, q ∈ processes /\ pid q' = pid q /\ ppid q' = ppid q
            /\ (assigned q <> None -> assigned q' <> None).
Proof.
  unfold mark_assigned. intros Hin.
  apply list_elem_of_fmap in Hin as (q & -> & Hq). exists q.
  destruct (Z.eqb (pid q) chosen); cbn; repeat split; auto; discriminate.
Qed.

Lemma get_node_pid_keeps namespace node_name guess processes :
  NoDup (pid <$> processes) -> parents_marked processes ->
  NoDup (pid <$> (get_node_pid namespace node_name guess processes).2)
  /\ parents_marked (get_node_pid namespace node_name guess processes).2.
Proof.
  intros Hnd Hpm. unfold get_node_pid.
  destruct (select_pid namespace node_name guess processes) as [chosen|];
    [|auto]. cbn [snd]. split.
  - unfold mark_assigned. rewrite <- list_fmap_compose.
    erewrite list_fmap_ext; [exact Hnd|]. intros i q _. cbn.
    destruct (Z.eqb (pid q) chosen); reflexivity.
  - intros q' c' Hq' Hc' Hpp.
    apply elem_of_mark_assigned in Hq' as (q & Hq & Hpid & _ & Hkeep).
    apply elem_of_mark_assigned in Hc' as (c & Hc & _ & Hppid & _).
    apply Hkeep. apply (Hpm q c Hq Hc). congruence.
Qed.

Lemma after_lookups_keeps calls : forall processes,
  NoDup (pid <$> processes) -> parents_marked processes ->
  NoDup (pid <$> after_lookups calls processes)
  /\ parents_marked (after_lookups calls processes).
Proof.
  induction calls as [|[[ns nm] g] calls IH]; intros processes Hnd Hpm;
    [auto|].
  cbn. destruct (get_node_pid_keeps ns nm g processes Hnd Hpm).
  apply IH; assumption.
Qed.

Lemma ppid_marked cs q : ppid (marked cs q) = ppid q.
Proof. unfold marked. destruct (last (children_of q cs)); reflexivity. Qed.

Lemma gathered_table procs :
  NoDup (pid <$> procs) ->
  pid <$> gather_processes procs = pid <$> procs
  /\ parents_marked (gather_processes procs).
Proof.
  intros Hnd. rewrite (gather_processes_marked procs Hnd). split.
  - rewrite <- list_fmap_compose. apply list_fmap_ext. intros i p _.
    apply pid_marked.
  - intros q c Hq Hc Hpp.
    apply list_elem_of_fmap in Hq as (p & -> & Hp).
    apply list_elem_of_fmap in Hc as (p' & -> & Hp').
    rewrite ppid_marked, pid_marked in Hpp. unfold marked.
    destruct (last (children_of p procs)) as [c|] eqn:Hlast; [discriminate|].
    exfalso. exact (proj1 (no_children p procs) Hlast p' Hp' Hpp).
Qed.

(** X18. However many lookups there have been on the table the first
    [NodeBuilder] built: when a lookup finds several candidates, the
    process it chooses is not the parent of any listed process.  A
    process that launched another one is chosen only when it is the
    single candidate. *)
Theorem launcher_is_not_chosen (procs : list proc)
    (calls : list (string * string * bool))
    (namespace node_name : string) (guess : bool) (chosen : Z) :
  NoDup (pid <$> procs) ->
  let processes := after_lookups calls (gather_processes procs) in
  1 < length (List.filter (is_candidate namespace node_name) processes) ->
  (get_node_pid namespace node_name guess processes).1 = Some chosen ->
  forall c, c ∈ processes -> ppid c <> Some chosen.
Proof.
  intros Hnd processes Hmulti Hsel c Hc Hpp.
  assert (Hstart : NoDup (pid <$> gather_processes procs)
                   /\ parents_marked (gather_processes procs)).
  { destruct (gathered_table procs Hnd) as [Hpids Hmk].
    split; [rewrite Hpids; assumption | exact Hmk]. }
  destruct Hstart as [Hnd0 Hpm0].
  destruct (after_lookups_keeps calls _ Hnd0 Hpm0) as [Hnd' Hpm'].
  fold processes in Hnd', Hpm'.
  rewrite get_node_pid_fst in Hsel.
  destruct (select_pid_multi _ _ _ _ _ Hmulti Hsel) as (q & Hq & Hqpid).
  apply remaining_unassigned in Hq as [Hq Hqnone].
  apply elem_of_filter_bool in Hq as [Hq _].
  apply (Hpm' q c Hq Hc); [congruence | assumption].
Qed.

(** A launch process and the two nodes it started. *)
Definition launcher : proc :=
  {| pid := 1; ppid := None; name := "ros2";
     cmdline := ["/usr/bin/python3"; "/opt/ros/bin/ros2"; "launch"; "pkg";
                 "talker.launch.py"];
     assigned := None |}.

Definition launched : list proc := [launcher; talker; talker_2].

Example launched_table :
  assigned <$> gather_processes launched = [Some "101"; None; None]
  /\ find_unmatched_executables (gather_processes launched) = [talker; talker_2]
  /\ List.filter (is_candidate "/" "talker") (gather_processes launched)
     = gather_processes launched
  /\ (get_node_pid "/" "talker" true (gather_processes launched)).1
     = Some 100%Z.
Proof. vm_compute. auto. Qed.

Lemma launched_distinct : NoDup (pid <$> launched).
Proof. apply (bool_decide_unpack _). vm_compute. exact I. Qed.

Lemma gather_processes_marks_parents_witness :
  (fun q => set_assigned None q) <$> gather_processes launched = launched
  /\ (talker ∈ find_unmatched_executables (gather_processes launched)
      <-> talker ∈ launched
          /\ forall c, c ∈ launched -> ppid c <> Some (pid talker)).
Proof.
  assert (Hnone : forall p, p ∈ launched -> assigned p = None).
  { intros p Hp. unfold launched in Hp.
    repeat (apply elem_of_cons in Hp as [->|Hp]); try reflexivity.
    apply not_elem_of_nil in Hp. contradiction. }
  split.
  - apply (gather_processes_marks_parents launched launched_distinct Hnone).
  - apply (gather_processes_marks_parents launched launched_distinct Hnone).
Defined.

Lemma launcher_is_not_chosen_witness : ppid talker_2 <> Some 100%Z.
Proof.
  apply (launcher_is_not_chosen launched [] "/" "talker" true 100
           launched_distinct).
  - vm_compute. lia.
  - reflexivity.
  - do 2 (apply elem_of_cons; right). apply elem_of_cons. left. reflexivity.
Defined.

End ProcessTable.

(** ** snapshot/builders/node_builder.py: the topics and services of a node

    A [NodeBuilder] keeps the topics it is told about in three
    dictionaries, and its services in a fourth one, whose keys it copies
    into a list the first time [service_names_with_remap] is read.  The
    dictionary of services is a list of pairs here, in insertion order,
    since the order of its keys is what the copy shows. *)

Module NodeTopics.

Section NodeTopics.

(** the topic types and the service types the node is given *)
Context {T : Type}.

(** [filters.TopicFilter.get_filter().should_filter_out] *)
Variable topic_filter : string -> bool.

Record NodeBuilder := {
  _all_topic_names : gmap string (option string);
  _published : gmap string (option string);     (* [_topic_names["published"]] *)
  _subscribed : gmap string (option string);    (* [_topic_names["subscribed"]] *)
  _topic_names_to_types : gmap string T;
  _service_names_to_types : list (string * T);
  _service_names_to_remap : option (list string)
}.

(** the attributes after [NodeBuilder.__init__] *)
Definition new_node_builder : NodeBuilder :=
  {| _all_topic_names := ∅; _published := ∅; _subscribed := ∅;
     _topic_names_to_types := ∅; _service_names_to_types := [];
     _service_names_to_remap := None |}.

(** The two keys of [_topic_names]; any other status is a [KeyError]. *)
Inductive status := Published | Subscribed.

Definition status_of (s : string) : option status :=
  if String.eqb s "published" then Some Published
  else if String.eqb s "subscribed" then Some Subscribed
  else None.

Definition topic_names (st : status) (self : NodeBuilder)
    : gmap string (option string) :=
  match st with Published => _published self | Subscribed => _subscribed self end.

Definition set_topic_names (st : status) (d : gmap string (option string))
    (all : gmap string (option string)) (types : gmap string T)
    (self : NodeBuilder) : NodeBuilder :=
  {| _all_topic_names := all;
     _published := match st with Published => d | Subscribed => _published self end;
     _subscribed := match st with Published => _subscribed self | Subscribed => d end;
     _topic_names_to_types := types;
     _service_names_to_types := _service_names_to_types self;
     _service_names_to_remap := _service_names_to_remap self |}.

(** [add_topic_name]; [None] is the [KeyError] of an unknown status. *)
Definition add_topic_name (topic_name status : string) (topic_type : T)
    (remap : option string) (self : NodeBuilder) : option NodeBuilder :=
  if topic_filter topic_name then Some self
  else
    match status_of status with
    | None => None
    | Some st =>
        Some (set_topic_names st (<[topic_name := remap]> (topic_names st self))
                (<[topic_name := remap]> (_all_topic_names self))
                (<[topic_name := topic_type]> (_topic_names_to_types self))
                self)
    end.

(** [remove_topic_name]: [pop(topic_name, None)] on the dictionary of
    the status. *)
Definition remove_topic_name (topic_name status : string) (self : NodeBuilder)
    : option NodeBuilder :=
  match status_of status with
  | None => None
  | Some st =>
      Some (set_topic_names st (delete topic_name (topic_names st self))
              (_all_topic_names self) (_topic_names_to_types self) self)
  end.

(** [d[key] = value] on a dictionary kept in insertion order *)
Fixpoint dict_set (key : string) (value : T) (d : list (string * T))
    : list (string * T) :=
  match d with
  | [] => [(key, value)]
  | (k, v) :: rest =>
      if String.eqb k key then (k, value) :: rest
      else (k, v) :: dict_set key value rest
  end.

(** [service_names]: [set(self.service_names_to_types.keys())] *)
Definition service_names (self : NodeBuilder) : gset string :=
  list_to_set (_service_names_to_types self).*1.

(** The property [service_names_with_remap]: the list that is returned,
    and the builder afterwards. *)
Definition service_names_with_remap (self : NodeBuilder)
    : list string * NodeBuilder :=
  match _service_names_to_remap self with
  | Some names => (names, self)
  | None =>
      let names := (_service_names_to_types self).*1 in
      (names,
       {| _all_topic_names := _all_topic_names self;
          _published := _published self; _subscribed := _subscribed self;
          _topic_names_to_types := _topic_names_to_types self;
          _service_names_to_types := _service_names_to_types self;
          _service_names_to_remap := Some names |})
  end.

(** [published_topic_names] and [subscribed_topic_names], as sets *)
Definition published_topic_names (self : NodeBuilder) : gset string :=
  dom (_published self).
Definition subscribed_topic_names (self : NodeBuilder) : gset string :=
  dom (_subscribed self).

(** What is done with the topics of a node, one call at a time. *)
Inductive topic_op :=
| AddTopic (topic_name status : string) (topic_type : T) (remap : option string)
| RemoveTopic (topic_name status : string).

Definition topic_step (self : NodeBuilder) (o : topic_op) : option NodeBuilder :=
  match o with
  | AddTopic n s ty r => add_topic_name n s ty r self
  | RemoveTopic n s => remove_topic_name n s self
  end.

Fixpoint topic_run (ops : list topic_op) (self : NodeBuilder)
    : option NodeBuilder :=
  match ops with
  | [] => Some self
  | o :: rest =>
      match topic_step self o with
      | Some self' => topic_run rest self'
      | None => None
      end
  end.

(** The topic [n] was added, under any status, by one of [ops]. *)
Definition added (n : string) (ops : list topic_op) : Prop :=
  exists s ty r, AddTopic n s ty r ∈ ops.

(** *** Topics *)

Record topics_ok (ops : list topic_op) (self : NodeBuilder) : Prop := {
  ok_all : forall n, n ∈ dom (_all_topic_names self)
                     <-> topic_filter n = false /\ added n ops;
  ok_types : dom (_topic_names_to_types self) = dom (_all_topic_names self);
  ok_published : dom (_published self) ⊆ dom (_all_topic_names self);
  ok_subscribed : dom (_subscribed self) ⊆ dom (_all_topic_names self)
}.

Lemma added_snoc n ops o :
  added n (ops ++ [o]) <-> added n ops \/ exists s ty r, o = AddTopic n s ty r.
Proof.
  unfold added. split.
  - intros (s & ty & r & Hin). apply elem_of_app in Hin as [Hin|Hin]; [eauto 6|].
    apply list_elem_of_singleton in Hin. eauto 6.
  - intros [(s & ty & r & Hin) | (s & ty & r & ->)]; exists s, ty, r;
      apply elem_of_app; [left; assumption | right; left].
Qed.

Lemma topic_step_ok ops self o self' :
  topics_ok ops self -> topic_step self o = Some self' ->
  topics_ok (ops ++ [o]) self'.
Proof.
  intros [Hall Hty Hpub Hsub].
  destruct o as [n s ty r | n s]; cbn [topic_step].
  - unfold add_topic_name. destruct (topic_filter n) eqn:Hf.
    + intros [= <-]. split; try assumption.
      intros m. rewrite Hall, added_snoc. split; [tauto|].
      intros [Hm [Hadd | (s' & ty' & r' & [= -> _ _ _])]]; [tauto | congruence].
    + destruct (status_of s) as [st|]; [|discriminate]. intros [= <-].
      split; cbn.
      * intros m. rewrite dom_insert_L, elem_of_union, elem_of_singleton.
        rewrite Hall, added_snoc. split.
        -- intros [-> | [Hm Hadd]]; [|tauto]. split; [assumption|].
           right. eauto.
        -- intros [Hm [Hadd | (s' & ty' & r' & [= -> _ _ _])]]; tauto.
      * rewrite !dom_insert_L, Hty. reflexivity.
      * destruct st; rewrite ?dom_insert_L; [apply union_mono_l; assumption|].
        intros m Hm. apply elem_of_union. right. auto.
      * destruct st; rewrite ?dom_insert_L; [|apply union_mono_l; assumption].
        intros m Hm. apply elem_of_union. right. auto.
  - unfold remove_topic_name. destruct (status_of s) as [st|]; [|discriminate].
    intros [= <-]. split; cbn.
    + intros m. rewrite Hall, added_snoc. split; [tauto|].
      intros [Hm [Hadd | (s' & ty' & r' & Heq)]]; [tauto | discriminate].
    + assumption.
    + destruct st; [|assumption]. rewrite dom_delete_L.
      intros m Hm. apply elem_of_difference in Hm as [Hm _]. auto.
    + destruct st; [assumption|]. rewrite dom_delete_L.
      intros m Hm. apply elem_of_difference in Hm as [Hm _]. auto.
Qed.

Lemma topic_run_ok ops : forall done self self',
  topics_ok done self -> topic_run ops self = Some self' ->
  topics_ok (done ++ ops) self'.
Proof.
  induction ops as [|o ops IH]; intros done self self' Hok; cbn.
  - intros [= <-]. rewrite app_nil_r. assumption.
  - destruct (topic_step self o) as [self1|] eqn:Hstep; [|discriminate].
    intros Hrun. replace (done ++ o :: ops)%list with ((done ++ [o]) ++ ops)%list
      by (rewrite <- app_assoc; reflexivity).
    eapply IH; [eapply topic_step_ok|]; eassumption.
Qed.

(** X19. Whatever topics were added to and removed from a new node builder:
    [all_topic_names] holds exactly the topics that were added and that
    the topic filter lets through, removed ones included;
    [topic_names_to_types] has the same names; the published and the
    subscribed topics are among them. *)
Theorem topics_of_node (ops : list topic_op) (self : NodeBuilder) :
  topic_run ops new_node_builder = Some self ->
  (forall n, n ∈ dom (_all_topic_names self)
             <-> topic_filter n = false /\ added n ops)
  /\ dom (_topic_names_to_types self) = dom (_all_topic_names self)
  /\ published_topic_names self ∪ subscribed_topic_names self
     ⊆ dom (_all_topic_names self).
Proof.
  intros Hrun.
  destruct (topic_run_ok ops [] new_node_builder self) as [Hall Hty Hpub Hsub];
    [|assumption|].
  - split; cbn; try reflexivity.
    intros n. rewrite dom_empty_L. split.
    + intros Hin. apply not_elem_of_empty in Hin. contradiction.
    + intros [_ (s & ty & r & Hin)]. apply not_elem_of_nil in Hin. contradiction.
  - split; [assumption|]. split; [assumption|].
    apply union_least; assumption.
Qed.

(** *** Services *)

Section Services.

(** [filters.ServiceTypeFilter.get_filter().should_filter_out] *)
Variable service_filter : T -> bool.

Definition add_service_name_and_type (service_name : string) (service_type : T)
    (self : NodeBuilder) : NodeBuilder :=
  if service_filter service_type then self
  else
    {| _all_topic_names := _all_topic_names self;
       _published := _published self; _subscribed := _subscribed self;
       _topic_names_to_types := _topic_names_to_types self;
       _service_names_to_types :=
         dict_set service_name service_type (_service_names_to_types self);
       _service_names_to_remap := _service_names_to_remap self |}.

(** What is done with the services of a node. *)
Inductive service_op :=
| AddService (service_name : string) (service_type : T)
| ReadServices.                        (* [self.service_names_with_remap] *)

Definition service_step (self : NodeBuilder) (o : service_op) : NodeBuilder :=
  match o with
  | AddService n ty => add_service_name_and_type n ty self
  | ReadServices => (service_names_with_remap self).2
  end.

Lemma service_step_cached self o names :
  _service_names_to_remap self = Some names ->
  _service_names_to_remap (service_step self o) = Some names.
Proof.
  intros Hc. destruct o as [n ty|]; cbn.
  - unfold add_service_name_and_type. destruct (service_filter ty); assumption.
  - unfold service_names_with_remap. rewrite Hc. assumption.
Qed.

Lemma dict_set_keys key value d :
  key ∈ (dict_set key value d).*1
  /\ forall k, k ∈ d.*1 -> k ∈ (dict_set key value d).*1.
Proof.
  induction d as [|[k v] d [IH1 IH2]]; cbn.
  - split; [left|]. intros k Hk. apply not_elem_of_nil in Hk. contradiction.
  - destruct (String.eqb_spec k key) as [->|Hne]; cbn.
    + split; [left | auto].
    + split; [right; assumption|]. intros k' Hk'.
      apply elem_of_cons in Hk' as [->|Hk']; [left | right; auto].
Qed.

(** X20. The list [service_names_with_remap] returns is made at the first
    read: every later read returns that same list, whatever services
    were added in between, although [service_names] has them. *)
Theorem service_names_are_copied_once (self : NodeBuilder)
    (later : list service_op) :
  let first := service_names_with_remap self in
  let self' := foldl service_step first.2 later in
  (service_names_with_remap self').1 = first.1
  /\ (forall n ty, AddService n ty ∈ later -> service_filter ty = false ->
        n ∈ service_names self').
Proof.
  intros first self'. split.
  - assert (Hc : _service_names_to_remap first.2 = Some first.1).
    { unfold first, service_names_with_remap.
      destruct (_service_names_to_remap self) eqn:Hs; cbn; [assumption|reflexivity]. }
    assert (Hc' : _service_names_to_remap self' = Some first.1).
    { unfold self'. clear self'. revert Hc. generalize first.2 as b.
      induction later as [|o later IH]; intros b Hb; [assumption|].
      cbn. apply IH, service_step_cached. assumption. }
    unfold service_names_with_remap at 1. rewrite Hc'. reflexivity.
  - intros n ty Hin Hf. unfold self'. clear self'.
    generalize first.2 as b. unfold service_names.
    induction later as [|o later IH] using rev_ind; intros b.
    + apply not_elem_of_nil in Hin. contradiction.
    + rewrite foldl_app. cbn [foldl].
      apply elem_of_list_to_set.
      apply elem_of_app in Hin as [Hin|Hin].
      * specialize (IH Hin b). apply elem_of_list_to_set in IH.
        destruct o as [n' ty'|]; cbn.
        -- unfold add_service_name_and_type.
           destruct (service_filter ty'); [assumption|]. cbn.
           apply (proj2 (dict_set_keys _ _ _)). assumption.
        -- unfold service_names_with_remap.
           destruct (_service_names_to_remap _); assumption.
      * apply list_elem_of_singleton in Hin as <-. cbn.
        unfold add_service_name_and_type. rewrite Hf. cbn.
        apply (proj1 (dict_set_keys _ _ _)).
Qed.

End Services.

End NodeTopics.

Example removed_topic_stays_known :
  match topic_run (fun n => String.eqb n "/rosout")
          [AddTopic "/scan" "published" "LaserScan" None;
           AddTopic "/rosout" "published" "Log" None;
           RemoveTopic "/scan" "published"] new_node_builder with
  | Some self =>
      published_topic_names self = ∅
      /\ dom (_all_topic_names self) = {["/scan"]}
      /\ _topic_names_to_types self = {["/scan" := "LaserScan"]}
  | None => False
  end.
Proof. repeat split; reflexivity. Qed.

Example unknown_status :
  add_topic_name (fun _ => false) "/scan" "advertised" "LaserScan" None
    new_node_builder = None.
Proof. reflexivity. Qed.

Lemma topics_of_node_witness :
  dom (_topic_names_to_types
         (set_topic_names Published {["/scan" := None]} {["/scan" := None]}
            {["/scan" := "LaserScan"]} new_node_builder))
  = dom (_all_topic_names
           (set_topic_names Published {["/scan" := None]} {["/scan" := None]}
              {["/scan" := "LaserScan"]} new_node_builder)).
Proof.
  apply (topics_of_node (fun n => String.eqb n "/rosout")
           [AddTopic "/scan" "published" "LaserScan" None]).
  reflexivity.
Defined.

Example late_service_is_not_copied :
  let read := service_names_with_remap
                (add_service_name_and_type (fun _ : string => false)
                   "/a" "A" new_node_builder) in
  let later := add_service_name_and_type (fun _ : string => false)
                 "/b" "B" read.2 in
  read.1 = ["/a"]
  /\ (service_names_with_remap later).1 = ["/a"]
  /\ service_names later = {["/a"; "/b"]}.
Proof. repeat split; reflexivity. Qed.

End NodeTopics.

(** ** core/utilities/filters.py: what a filter rejects *)

Module FilterAnswers.
Import Filters.

(** The names a class excludes as the module is written: its base, its
    debug and its transform exclusions. *)
Definition listed (l : loc) : gset string :=
  match heap initial_state !! l with
  | Some c => members c
  | None => ∅
  end.

Definition static_exclusions (c : cls) : gset string :=
  listed (BASE_EXCLUSIONS c) ∪ listed (DEBUG_EXCLUSIONS c)
  ∪ listed (TF_EXCLUSIONS c).

(** One of [ops] put [item] into the base exclusions that [c] uses, be
    it through [c] or through a class that shares them. *)
Definition added_to_base_of (c : cls) (item : string) (ops : list op) : Prop :=
  exists o c', o ∈ ops /\ adds_to_base o c' item
               /\ BASE_EXCLUSIONS c' = BASE_EXCLUSIONS c.

(** Where the content of the containers comes from, and what a stored
    singleton refers to. *)
Record provenance (ops : list op) (st : state) : Prop := {
  prov_next : 8 <= next_loc st;
  prov_in : forall l item, py_in st item l = true ->
      item ∈ listed l
      \/ exists o c, o ∈ ops /\ adds_to_base o c item /\ BASE_EXCLUSIONS c = l;
  prov_fresh : forall l, next_loc st <= l -> heap st !! l = None;
  prov_instance : forall c i, INSTANCE st c = Some i ->
      _base_exclusions i = BASE_EXCLUSIONS c
      /\ (_debug_exclusions i = DEBUG_EXCLUSIONS c
          \/ 8 <= _debug_exclusions i < next_loc st)
      /\ (_tf_exclusions i = TF_EXCLUSIONS c
          \/ 8 <= _tf_exclusions i < next_loc st)
}.

Lemma py_in_listed item l :
  py_in initial_state item l = true -> item ∈ listed l.
Proof.
  unfold py_in, listed. destruct (heap initial_state !! l); [|discriminate].
  apply bool_decide_eq_true.
Qed.

Lemma listed_fresh l : 8 <= l -> listed l = ∅.
Proof.
  intros Hl. unfold listed. cbn.
  rewrite !lookup_insert_ne by (cbv; lia). rewrite lookup_empty. reflexivity.
Qed.

Lemma provenance_initial : provenance [] initial_state.
Proof.
  split; cbn.
  - lia.
  - intros l item Hin. left. apply py_in_listed. assumption.
  - intros l Hl. rewrite !lookup_insert_ne by (cbv; lia). apply lookup_empty.
  - discriminate.
Qed.

Lemma provenance_more ops o st :
  provenance ops st -> provenance (ops ++ [o]) st.
Proof.
  intros [Hn Hin Hfr Hi]. split; try assumption.
  intros l item Hl. destruct (Hin l item Hl) as [?|(o' & c & Ho & Hadd & Hc)];
    [left; assumption|].
  right. exists o', c. split; [apply elem_of_app; left; assumption | auto].
Qed.

Lemma py_in_alloc_new st item : py_in (alloc_dict st).2 item (next_loc st) = false.
Proof.
  unfold py_in, alloc_dict. cbn. rewrite lookup_insert_eq. cbn.
  apply bool_decide_eq_false. apply not_elem_of_empty.
Qed.

Lemma py_in_alloc_old st item l :
  l <> next_loc st -> py_in (alloc_dict st).2 item l = py_in st item l.
Proof.
  intros Hl. unfold py_in, alloc_dict. cbn.
  rewrite lookup_insert_ne by congruence. reflexivity.
Qed.

(** Building a filter allocates two empty dictionaries and changes
    nothing else. *)
Lemma init_provenance ops c d t st :
  provenance ops st ->
  provenance ops (__init__ c d t st).2
  /\ (let i := (__init__ c d t st).1 in
      _base_exclusions i = BASE_EXCLUSIONS c
      /\ (_debug_exclusions i = DEBUG_EXCLUSIONS c
          \/ 8 <= _debug_exclusions i < next_loc (__init__ c d t st).2)
      /\ (_tf_exclusions i = TF_EXCLUSIONS c
          \/ 8 <= _tf_exclusions i < next_loc (__init__ c d t st).2)).
Proof.
  intros [Hn Hin Hfr Hi]. unfold __init__. cbn. split.
  - split; cbn.
    + lia.
    + intros l item. unfold py_in. cbn.
      destruct (decide (l = S (next_loc st))) as [->|Hne1].
      * rewrite lookup_insert_eq. cbn. intros Hf.
        apply bool_decide_eq_true in Hf. apply not_elem_of_empty in Hf.
        contradiction.
      * rewrite lookup_insert_ne by congruence.
        destruct (decide (l = next_loc st)) as [->|Hne2].
        -- rewrite lookup_insert_eq. cbn. intros Hf.
           apply bool_decide_eq_true in Hf. apply not_elem_of_empty in Hf.
           contradiction.
        -- rewrite lookup_insert_ne by congruence. apply Hin.
    + intros l Hl. rewrite !lookup_insert_ne by lia. apply Hfr. lia.
    + intros c' i Hc'. destruct (Hi c' i Hc') as (Hb & Hd & Ht).
      split; [assumption|]. split; [destruct Hd; [left|right]|
                                    destruct Ht; [left|right]];
        try assumption; lia.
  - split; [reflexivity|]. split.
    + destruct d; [left; reflexivity | right; lia].
    + destruct t; [left; reflexivity | right; lia].
Qed.

Lemma get_filter_provenance ops c st :
  provenance ops st ->
  provenance ops (get_filter c st).2
  /\ (let i := (get_filter c st).1 in
      _base_exclusions i = BASE_EXCLUSIONS c
      /\ (_debug_exclusions i = DEBUG_EXCLUSIONS c
          \/ 8 <= _debug_exclusions i < next_loc (get_filter c st).2)
      /\ (_tf_exclusions i = TF_EXCLUSIONS c
          \/ 8 <= _tf_exclusions i < next_loc (get_filter c st).2)).
Proof.
  intros Hp. unfold get_filter. destruct (INSTANCE st c) as [i|] eqn:Hc.
  - split; [assumption|]. apply (prov_instance _ _ Hp). assumption.
  - destruct (init_provenance ops c (FILTER_OUT_DEBUG st) (FILTER_OUT_TF st)
                st Hp) as [[Hn Hin Hfr Hi] Hnew].
    destruct (__init__ c (FILTER_OUT_DEBUG st) (FILTER_OUT_TF st) st)
      as [i st'] eqn:Hinit.
    cbn in *. split; [|exact Hnew]. split; cbn; try assumption.
    intros c' i'. destruct (decide (c' = c)) as [->|Hne].
    + intros [= <-]. exact Hnew.
    + apply Hi.
Qed.

Lemma store_provenance ops o c item old st :
  adds_to_base o c item ->
  heap st !! BASE_EXCLUSIONS c = Some old ->
  forall new, members new = {[item]} ∪ members old ->
  provenance ops st ->
  provenance (ops ++ [o]) (store (BASE_EXCLUSIONS c) new st).
Proof.
  intros Hadd Hold new Hnew [Hn Hin Hfr Hi]. split; cbn; try assumption.
  - intros l x. unfold py_in. cbn.
    destruct (decide (BASE_EXCLUSIONS c = l)) as [<-|Hne].
    + rewrite lookup_insert_eq, Hnew. intros Hx.
      apply bool_decide_eq_true, elem_of_union in Hx as [Hx|Hx].
      * apply elem_of_singleton in Hx as ->. right. exists o, c.
        split; [apply elem_of_app; right; left | auto].
      * destruct (Hin (BASE_EXCLUSIONS c) x) as [?|(o' & c' & Ho & Ha & Hc)].
        -- unfold py_in. rewrite Hold. apply bool_decide_eq_true. assumption.
        -- left. assumption.
        -- right. exists o', c'.
           split; [apply elem_of_app; left; assumption | auto].
    + rewrite lookup_insert_ne by assumption. intros Hx.
      destruct (Hin l x Hx) as [?|(o' & c' & Ho & Ha & Hc)];
        [left; assumption|].
      right. exists o', c'. split; [apply elem_of_app; left; assumption | auto].
  - intros l Hl. rewrite lookup_insert_ne; [apply Hfr; assumption|].
    pose proof (BASE_EXCLUSIONS_lt c). lia.
Qed.

Lemma step_provenance ops o st st' :
  provenance ops st -> step o st = Some st' -> provenance (ops ++ [o]) st'.
Proof.
  intros Hp. destruct o as [c|c d t|c item|c item|b|b]; cbn [step].
  - intros [= <-]. apply provenance_more, get_filter_provenance. assumption.
  - intros [= <-]. apply provenance_more.
    apply (init_provenance ops c d t st Hp).
  - unfold set_add.
    destruct (heap st !! BASE_EXCLUSIONS c) as [[s|s]|] eqn:Hl; try discriminate.
    intros [= <-]. eapply store_provenance; eauto. left. reflexivity.
  - unfold dict_setitem.
    destruct (heap st !! BASE_EXCLUSIONS c) as [[s|s]|] eqn:Hl; try discriminate.
    intros [= <-]. eapply store_provenance; eauto. right. reflexivity.
  - intros [= <-]. apply provenance_more. destruct Hp. split; assumption.
  - intros [= <-]. apply provenance_more. destruct Hp. split; assumption.
Qed.

Lemma run_provenance ops : forall done st st',
  provenance done st -> run ops st = Some st' -> provenance (done ++ ops) st'.
Proof.
  induction ops as [|o ops IH]; intros done st st' Hp; cbn.
  - intros [= <-]. rewrite app_nil_r. assumption.
  - destruct (step o st) as [st1|] eqn:Hstep; [|discriminate]. intros Hrun.
    replace (done ++ o :: ops)%list with ((done ++ [o]) ++ ops)%list
      by (rewrite <- app_assoc; reflexivity).
    eapply IH; [eapply step_provenance|]; eassumption.
Qed.

Lemma base_is_not_debug_or_tf c c' :
  BASE_EXCLUSIONS c' <> DEBUG_EXCLUSIONS c /\ BASE_EXCLUSIONS c' <> TF_EXCLUSIONS c.
Proof. destruct c, c'; split; cbv; lia. Qed.

(** X21. Whatever was done with the filters module, the singleton of a class
    rejects an item only if the item is one of the exclusions the module
    lists for the class, or was put into base exclusions the class
    uses. *)
Theorem filter_rejects_only_listed (ops : list op) (st : state) (c : cls)
    (item : string) :
  run ops initial_state = Some st ->
  should_filter_out (get_filter c st).1 item (get_filter c st).2 = true ->
  item ∈ static_exclusions c \/ added_to_base_of c item ops.
Proof.
  intros Hrun Hrej.
  pose proof (run_provenance ops [] _ _ provenance_initial Hrun) as Hp.
  cbn [app] in Hp.
  destruct (get_filter_provenance ops c st Hp) as [[Hn Hin Hfr Hi] Hnew].
  cbv zeta in Hnew. destruct Hnew as (Hb & Hd & Ht).
  unfold should_filter_out in Hrej. rewrite Hb in Hrej.
  unfold static_exclusions, added_to_base_of.
  apply orb_true_iff in Hrej as [Hrej|Hrej];
    [apply orb_true_iff in Hrej as [Hrej|Hrej]|].
  - destruct (Hin _ _ Hrej) as [Hl|(o & c' & Ho & Ha & Hc)].
    + left. apply elem_of_union. left. apply elem_of_union. left. assumption.
    + right. eauto.
  - destruct (Hin _ _ Hrej) as [Hl|(o & c' & Ho & Ha & Hc)].
    + destruct Hd as [Hd|Hd].
      * left. apply elem_of_union. left. apply elem_of_union. right.
        rewrite <- Hd. assumption.
      * rewrite listed_fresh in Hl by lia.
        apply not_elem_of_empty in Hl. contradiction.
    + exfalso. destruct Hd as [Hd|Hd].
      * apply (proj1 (base_is_not_debug_or_tf c c')). congruence.
      * pose proof (BASE_EXCLUSIONS_lt c'). lia.
  - destruct (Hin _ _ Hrej) as [Hl|(o & c' & Ho & Ha & Hc)].
    + destruct Ht as [Ht|Ht].
      * left. apply elem_of_union. right. rewrite <- Ht. assumption.
      * rewrite listed_fresh in Hl by lia.
        apply not_elem_of_empty in Hl. contradiction.
    + exfalso. destruct Ht as [Ht|Ht].
      * apply (proj2 (base_is_not_debug_or_tf c c')). congruence.
      * pose proof (BASE_EXCLUSIONS_lt c'). lia.
Qed.

(** X22. [TopicFilter] and [ServiceTypeFilter] use the dictionary of [Filter]
    itself for their base exclusions: a key stored in it through one of
    the two classes makes the singleton of the other reject the key as
    well.  The node filter has a set of its own and is not concerned. *)
Theorem topic_and_service_filters_share_base (item : string)
    (c c' : cls) (before after : list op) (st : state) :
  c <> NodeFilter -> c' <> NodeFilter ->
  run (before ++ SetItemBase c item :: after) initial_state = Some st ->
  should_filter_out (get_filter c' st).1 item (get_filter c' st).2 = true
  /\ (forall st0 st1, step (SetItemBase c item) st0 = Some st1 ->
        forall x, py_in st1 x (BASE_EXCLUSIONS NodeFilter)
                  = py_in st0 x (BASE_EXCLUSIONS NodeFilter)).
Proof.
  intros Hc Hc' Hrun.
  assert (Hshare : BASE_EXCLUSIONS c = BASE_EXCLUSIONS c')
    by (destruct c, c'; try contradiction; reflexivity).
  split.
  - apply run_app in Hrun as (st1 & Hrun1 & Hrun2). cbn [run] in Hrun2.
    destruct (step (SetItemBase c item) st1) as [st2|] eqn:Hstep; [|discriminate].
    destruct (run_grows _ _ _ inv_initial Hrun1) as [Hinv1 _].
    destruct (step_grows _ _ _ Hinv1 Hstep) as [Hinv2 _].
    destruct (run_grows _ _ _ Hinv2 Hrun2) as [Hinv [Hin _]].
    destruct (get_filter_grows c' st Hinv) as [_ [Hin' _]].
    unfold should_filter_out.
    rewrite (get_filter_base c' st Hinv).
    rewrite (Hin' _ _ (BASE_EXCLUSIONS_lt c')); [reflexivity|].
    apply Hin; [apply BASE_EXCLUSIONS_lt|]. rewrite <- Hshare.
    eapply adds_to_base_in; [right; reflexivity | eassumption].
  - intros st0 st1. cbn [step]. unfold dict_setitem.
    destruct (heap st0 !! BASE_EXCLUSIONS c) as [[s|s]|]; try discriminate.
    intros [= <-] x. unfold py_in, store. cbn.
    rewrite lookup_insert_ne; [reflexivity|].
    destruct c; [contradiction | cbv; lia | cbv; lia].
Qed.

Example shared_base :
  match run [GetFilter ServiceTypeFilter; SetItemBase TopicFilter "/x"]
          initial_state with
  | Some st =>
      should_filter_out (get_filter ServiceTypeFilter st).1 "/x"
        (get_filter ServiceTypeFilter st).2 = true
      /\ should_filter_out (get_filter NodeFilter st).1 "/x"
           (get_filter NodeFilter st).2 = false
  | None => False
  end.
Proof. split; reflexivity. Qed.

Lemma filter_rejects_only_listed_witness :
  "/_ros2cli_daemon" ∈ static_exclusions NodeFilter
  \/ added_to_base_of NodeFilter "/_ros2cli_daemon" sample_run.
Proof.
  apply (filter_rejects_only_listed sample_run sample_state); reflexivity.
Defined.

Lemma topic_and_service_filters_share_base_witness :
  should_filter_out
    (get_filter ServiceTypeFilter
       (default initial_state
          (run [GetFilter ServiceTypeFilter; SetItemBase TopicFilter "/x"]
             initial_state))).1 "/x"
    (get_filter ServiceTypeFilter
       (default initial_state
          (run [GetFilter ServiceTypeFilter; SetItemBase TopicFilter "/x"]
             initial_state))).2 = true.
Proof.
  apply (proj1 (topic_and_service_filters_share_base "/x"
                  TopicFilter ServiceTypeFilter
                  [GetFilter ServiceTypeFilter] []
                  (default initial_state
                     (run [GetFilter ServiceTypeFilter;
                           SetItemBase TopicFilter "/x"] initial_state))
                  ltac:(discriminate) ltac:(discriminate) eq_refl)).
Defined.

End FilterAnswers.

(** ** core/utilities/ros_exe_filter.py

    The classification of the system's processes.  Command lines, names
    and paths are ASCII text here: [str.lower] and [str.strip] are the
    ASCII ones.  Of a process, [info] is what [psutil] reports for the
    attributes asked for (an attribute may be missing), and [exe] what
    [_exe_path] returns, the empty string when the path cannot be
    read. *)

Module RosExeFilter.

Definition ROS_TOKENS : list string :=
  ["ros2"; "rclcpp"; "rclpy"; "launch.py"; "ament"; "colcon";
   "micro_ros_agent"; "gzsim"; "gzserver"; "gzclient"; "rviz"; "rviz2";
   "robot_state_publisher"; "controller_manager"; "joint_state_broadcaster";
   "ros_gz"; "gazebo_ros"; "cyclonedds"; "fastdds"; "fastrtps"; "rmw_"].

Definition SYSTEM_NAME_DENY : gset string :=
  list_to_set
    ["systemd"; "systemd-journald"; "systemd-logind"; "dbus-daemon";
     "NetworkManager"; "ModemManager"; "gnome-shell"; "Xorg"; "Xwayland";
     "wayland"; "pipewire"; "wireplumber"; "pulseaudio"; "bluetoothd";
     "cupsd"; "chronyd"; "snapd"; "packagekitd"; "polkitd"; "agetty";
     "udisksd"; "upowerd"; "landscape-manag"; "landscape-monit";
     "gvfsd-fuse"; "gnome-keyring-daemon"; "gdm-x-session"; "ros2_snapshot";
     "ros2-daemon"].

Definition SYSTEM_PATH_PREFIXES : list string :=
  ["/usr/sbin"; "/sbin"; "/usr/lib/systemd"; "/lib/systemd"; "/usr/libexec"].

Definition ROS_PATH_HINTS : list string :=
  ["/opt/ros/"; "/install/"; "/build/"; "/ws/"; "/ros_ws/"].

Definition INTERACTIVE_DENY_TOKENS : list string :=
  ["bash"; "zsh"; "fish"; "tmux"; "screen"; "code"; "vim"; "nvim"; "emacs"].

(** *** The string operations *)

(** [c.lower()] *)
Definition lower_ascii (c : ascii) : ascii :=
  let n := nat_of_ascii c in
  if (65 <=? n)%nat && (n <=? 90)%nat then ascii_of_nat (n + 32) else c.

(** [s.lower()] *)
Fixpoint lower (s : string) : string :=
  match s with
  | EmptyString => EmptyString
  | String c s' => String (lower_ascii c) (lower s')
  end.

(** [c.isspace()] *)
Definition isspace (c : ascii) : bool :=
  let n := nat_of_ascii c in
  ((9 <=? n)%nat && (n <=? 13)%nat) || ((28 <=? n)%nat && (n <=? 32)%nat).

Fixpoint lstrip (s : string) : string :=
  match s with
  | EmptyString => EmptyString
  | String c s' => if isspace c then lstrip s' else s
  end.

(** [s.rstrip()]: a character stays if it is not a space or if
    something stays behind it *)
Fixpoint rstrip (s : string) : string :=
  match s with
  | EmptyString => EmptyString
  | String c s' =>
      match rstrip s' with
      | EmptyString => if isspace c then EmptyString else String c EmptyString
      | rest => String c rest
      end
  end.

(** [s.strip()] *)
Definition strip (s : string) : string := rstrip (lstrip s).

(** [" ".join(cmdline)] *)
Fixpoint join_spaces (cmdline : list string) : string :=
  match cmdline with
  | [] => ""
  | [c] => c
  | c :: rest => c ++ " " ++ join_spaces rest
  end.

(** [any(tok in hay for tok in toks)] *)
Definition any_in (toks : list string) (hay : string) : bool :=
  existsb (fun tok => PyStr.contains tok hay) toks.

(** [s.startswith(prefixes)] for a tuple of prefixes *)
Definition startswith_any (prefixes : list string) (s : string) : bool :=
  existsb (fun p => String.prefix p s) prefixes.

(** [bool(s)] *)
Definition nonempty (s : string) : bool := negb (String.eqb s "").

(** *** The regular expression of [looks_rosy]

    [r"/install/.+/lib/.+/.+"]: literal text and [.+], one or more
    characters other than a newline. *)
Inductive item :=
| Lit (text : string)
| DotPlus.

(** What can be left of [s] after [.+] has matched at its start. *)
Fixpoint after_dot_plus (s : string) : list string :=
  match s with
  | EmptyString => []
  | String c s' =>
      if Ascii.eqb c "010" then [] else s' :: after_dot_plus s'
  end.

Fixpoint drop_string (n : nat) (s : string) : string :=
  match n, s with
  | S n', String _ s' => drop_string n' s'
  | _, _ => s
  end.

Definition after_item (i : item) (s : string) : list string :=
  match i with
  | Lit text =>
      if String.prefix text s then [drop_string (String.length text) s] else []
  | DotPlus => after_dot_plus s
  end.

(** What can be left of [s] after the items have matched at its start,
    one after the other. *)
Definition after_items (items : list item) (s : string) : list string :=
  foldl (fun rests i => rests ≫= after_item i) [s] items.

(** [re.match(pattern, s)]: the pattern matches at the start of [s] *)
Definition re_match (items : list item) (s : string) : bool :=
  match after_items items s with
  | [] => false
  | _ :: _ => true
  end.

(** [re.search(pattern, s)]: the pattern matches somewhere in [s] *)
Fixpoint re_search (items : list item) (s : string) : bool :=
  re_match items s
  || match s with
     | EmptyString => false
     | String _ s' => re_search items s'
     end.

Definition install_lib_layout : list item :=
  [Lit "/install/"; DotPlus; Lit "/lib/"; DotPlus; Lit "/"; DotPlus].

(** *** The classification *)

(** [looks_rosy(cmdline, exe, name)] *)
Definition looks_rosy (cmdline : list string) (exe name : string)
    : bool * string :=
  let hay := lower (join_spaces cmdline) in
  if PyStr.contains "ros2_snapshot" hay then (false, "")
  else if any_in ROS_TOKENS hay then (true, "ros-token")
  else
    let python :=
      match cmdline with
      | first :: _ => PyStr.contains "python" (lower first)
      | [] => false
      end in
    if python && bool_decide ("-m" ∈ cmdline) then (true, "python-module")
    else if python
            && (any_in ROS_PATH_HINTS hay || PyStr.contains "site-packages" hay)
    then (true, "python-path-hint")
    else if nonempty exe && any_in ROS_PATH_HINTS exe
    then (true, "exe-path-hint")
    else if nonempty exe && re_search install_lib_layout exe
    then (true, "install-lib-layout")
    else (false, "").

(** [is_obvious_system_noise(cmdline, exe, name)] *)
Definition is_obvious_system_noise (cmdline : list string) (exe name : string)
    : bool * string :=
  let n := strip name in
  if bool_decide (n ∈ SYSTEM_NAME_DENY) then (true, "system-name-deny")
  else
    let hay := lower (join_spaces cmdline) in
    if any_in INTERACTIVE_DENY_TOKENS hay && negb (any_in ROS_TOKENS hay)
    then (true, "interactive-deny")
    else if nonempty exe && startswith_any SYSTEM_PATH_PREFIXES exe
            && negb (any_in ROS_TOKENS hay)
    then (true, "system-path-prefix")
    else (false, "").

(** What [psutil] reports of a process. *)
Record info := {
  info_pid : option Z;
  info_ppid : option Z;
  info_name : option string;
  info_cmdline : option (list string)
}.

(** The part of the record [classify_process] returns that the node
    builder reads; [None] for a pid is the string ["Unknown"]. *)
Record data := {
  pid : option Z;
  ppid : option Z;
  name : string;
  cmdline : list string;
  exe : string;
  reason : string;
  assigned : option string
}.

(** [_safe_cmdline(p)] *)
Definition _safe_cmdline (p : info) : list string :=
  List.filter nonempty (default [] (info_cmdline p)).

(** [p.info.get(key) or "Unknown"] for a pid: zero is false *)
Definition pid_or_unknown (x : option Z) : option Z :=
  match x with
  | Some 0%Z | None => None
  | Some z => Some z
  end.

(** [classify_process(p)] *)
Definition classify_process (p : info) (exe_path : string) : option data :=
  let cmd := _safe_cmdline p in
  let name := default "" (info_name p) in
  if bool_decide (cmd = []) && negb (nonempty name) then None
  else
    let '(noise, _) := is_obvious_system_noise cmd exe_path name in
    let '(rosy, ros_reason) := looks_rosy cmd exe_path name in
    if rosy && (negb noise || PyStr.contains "ros2" (lower (join_spaces cmd)))
    then Some {| pid := pid_or_unknown (info_pid p);
                 ppid := pid_or_unknown (info_ppid p);
                 name := if nonempty name then name else "Unknown";
                 cmdline := cmd; exe := exe_path; reason := ros_reason;
                 assigned := None |}
    else None.

(** *** Substrings *)

Lemma prefix_contains a b : String.prefix a b = true -> PyStr.contains a b = true.
Proof.
  intros Hp. destruct b as [|c b]; cbn [PyStr.contains]; rewrite Hp; reflexivity.
Qed.

Lemma contains_String a c b :
  PyStr.contains a b = true -> PyStr.contains a (String c b) = true.
Proof.
  intros Hc.
  change (PyStr.contains a (String c b))
    with (String.prefix a (String c b) || PyStr.contains a b).
  rewrite Hc. apply orb_true_r.
Qed.

(** A pattern that starts with literal text is found only in strings
    that have the text in them. *)
Lemma foldl_bind_nil (items : list item) :
  foldl (fun rests i => rests ≫= after_item i) [] items = [].
Proof. induction items as [|i items IH]; [reflexivity | exact IH]. Qed.

Lemma re_match_literal text items s :
  re_match (Lit text :: items) s = true -> String.prefix text s = true.
Proof.
  unfold re_match, after_items. cbn [foldl mbind list_bind after_item].
  destruct (String.prefix text s); [reflexivity|].
  cbn. rewrite foldl_bind_nil. discriminate.
Qed.

Lemma re_search_literal text items s :
  re_search (Lit text :: items) s = true -> PyStr.contains text s = true.
Proof.
  induction s as [|c s IH]; cbn [re_search].
  - rewrite orb_false_r. intros Hm. apply prefix_contains.
    eapply re_match_literal. eassumption.
  - intros Hs. apply orb_true_iff in Hs as [Hm|Hs].
    + apply prefix_contains. eapply re_match_literal. eassumption.
    + apply contains_String, IH. assumption.
Qed.

Lemma any_in_elem toks tok hay :
  tok ∈ toks -> PyStr.contains tok hay = true -> any_in toks hay = true.
Proof.
  intros Hin Hc. unfold any_in. apply existsb_exists. exists tok.
  split; [apply list_elem_of_In; assumption | assumption].
Qed.

(** X23. [looks_rosy] never gives the reason ["install-lib-layout"]: a path
    the expression [/install/.+/lib/.+/.+] is found in has [/install/]
    in it, which is one of the path hints, so that the reason is
    ["exe-path-hint"] already. *)
Theorem install_lib_layout_is_never_the_reason (cmdline : list string)
    (exe name : string) :
  (looks_rosy cmdline exe name).2 <> "install-lib-layout"
  /\ (nonempty exe = true -> re_search install_lib_layout exe = true ->
      any_in ROS_PATH_HINTS exe = true).
Proof.
  assert (Hhint : re_search install_lib_layout exe = true ->
                  any_in ROS_PATH_HINTS exe = true).
  { intros Hs. apply (any_in_elem _ "/install/"); [right; left|].
    eapply re_search_literal. exact Hs. }
  split; [|auto].
  unfold looks_rosy. cbv zeta.
  repeat match goal with
         | |- context [if ?b then _ else _] =>
             let E := fresh "E" in destruct b eqn:E; cbn [snd]; try discriminate
         end.
  apply andb_true_iff in E4 as [Hne Hs].
  rewrite Hne, (Hhint Hs) in E3. discriminate.
Qed.

(** *** What is kept *)

Lemma classify_kept p exe_path :
  PyStr.contains "ros2" (lower (join_spaces (_safe_cmdline p))) = true ->
  PyStr.contains "ros2_snapshot" (lower (join_spaces (_safe_cmdline p))) = false ->
  exists d, classify_process p exe_path = Some d
            /\ reason d = "ros-token" /\ cmdline d = _safe_cmdline p
            /\ assigned d = None.
Proof.
  intros Hros Hsnap. unfold classify_process. cbv zeta.
  assert (Hcmd : _safe_cmdline p <> []).
  { intros Hnil. rewrite Hnil in Hros. discriminate. }
  rewrite bool_decide_eq_false_2 by assumption. cbn [andb].
  destruct (is_obvious_system_noise (_safe_cmdline p) exe_path
              (default "" (info_name p))) as [noise noise_reason].
  unfold looks_rosy. cbv zeta. rewrite Hsnap.
  rewrite (any_in_elem ROS_TOKENS "ros2" _ ltac:(left) Hros).
  rewrite Hros, orb_true_r. cbn [andb].
  eexists. split; [reflexivity|]. cbn. auto.
Qed.

(** X24. A process whose command line has [ros2_snapshot] in it, in any
    case of letters, is never kept.  One whose command line has [ros2]
    in it and not [ros2_snapshot] is always kept, with the reason
    ["ros-token"], whatever its name and its path are: the lists of
    denied names and paths do not apply to it.  What is kept has no
    empty word in its command line and is not assigned. *)
Theorem classify_process_ros2 (p : info) (exe_path : string) :
  let hay := lower (join_spaces (_safe_cmdline p)) in
  (PyStr.contains "ros2_snapshot" hay = true ->
     classify_process p exe_path = None)
  /\ (PyStr.contains "ros2" hay = true ->
      PyStr.contains "ros2_snapshot" hay = false ->
      exists d, classify_process p exe_path = Some d
                /\ reason d = "ros-token")
  /\ (forall d, classify_process p exe_path = Some d ->
        assigned d = None /\ ("" ∉ cmdline d)
        /\ (looks_rosy (cmdline d) exe_path (default "" (info_name p))).1 = true).
Proof.
  intros hay. split; [|split].
  - intros Hsnap. unfold classify_process. cbv zeta.
    destruct (bool_decide (_safe_cmdline p = [])
              && negb (nonempty (default "" (info_name p)))); [reflexivity|].
    destruct (is_obvious_system_noise _ _ _) as [noise noise_reason].
    unfold looks_rosy. cbv zeta. fold hay. rewrite Hsnap. reflexivity.
  - intros Hros Hsnap.
    destruct (classify_kept p exe_path Hros Hsnap) as (d & Hd & Hr & _).
    eauto.
  - intros d. unfold classify_process. cbv zeta.
    destruct (bool_decide (_safe_cmdline p = [])
              && negb (nonempty (default "" (info_name p)))); [discriminate|].
    destruct (is_obvious_system_noise _ _ _) as [noise noise_reason].
    destruct (looks_rosy (_safe_cmdline p) exe_path (default "" (info_name p)))
      as [rosy ros_reason] eqn:Hrosy.
    destruct (rosy && _) eqn:Hkeep; [|discriminate].
    intros [= <-]. cbn. split; [reflexivity|]. split.
    + unfold _safe_cmdline. intros Hin.
      apply list_elem_of_In, filter_In in Hin as [_ Hne]. discriminate.
    + rewrite Hrosy. apply andb_true_iff in Hkeep as [-> _]. reflexivity.
Qed.

(** The daemon of the command-line tools: its name is on the list of
    denied names, and yet it is kept. *)
Definition ros2_daemon : info :=
  {| info_pid := Some 4242%Z; info_ppid := Some 1%Z;
     info_name := Some "ros2-daemon";
     info_cmdline := Some ["/usr/bin/python3"; "/opt/ros/jazzy/bin/_ros2_daemon";
                           "--rmw-implementation"; "rmw_fastrtps_cpp"] |}.

Example denied_name_is_kept :
  (is_obvious_system_noise (_safe_cmdline ros2_daemon) "/usr/bin/python3.12"
     "ros2-daemon").1 = true
  /\ reason <$> classify_process ros2_daemon "/usr/bin/python3.12"
     = Some "ros-token".
Proof. split; vm_compute; reflexivity. Qed.

Example regular_expression :
  re_search install_lib_layout "/home/u/ws/install/pkg/lib/pkg/talker" = true
  /\ re_search install_lib_layout "/home/u/ws/install/lib/talker" = false.
Proof. split; vm_compute; reflexivity. Qed.

Lemma classify_process_ros2_witness :
  exists d, classify_process ros2_daemon "/usr/bin/python3.12" = Some d
            /\ reason d = "ros-token".
Proof.
  apply (proj1 (proj2 (classify_process_ros2 ros2_daemon "/usr/bin/python3.12")));
    vm_compute; reflexivity.
Defined.

Lemma install_lib_layout_is_never_the_reason_witness :
  any_in ROS_PATH_HINTS "/home/u/ws/install/pkg/lib/pkg/talker" = true.
Proof.
  apply (proj2 (install_lib_layout_is_never_the_reason []
                  "/home/u/ws/install/pkg/lib/pkg/talker" ""));
    vm_compute; reflexivity.
Defined.

End RosExeFilter.

(** ** snapshot/snapshot.py: [collect_system_info] *)

Module SystemInfo.
Local Open Scope list_scope.

(** What the ROS graph calls ([get_publisher_info] and the like) give
    for one name: the [TopicInfo] tuple. *)
Record TopicInfo := { name : string; types : list string }.

(** The dictionary kept for one action, service or topic: three sets
    under three string keys. *)
Abbreviation users := (gmap string (gset string)).

(** [s.split(sep)[0]]: what stands before the first [sep] in [s], all of
    [s] without one. *)
Fixpoint before (sep s : string) : string :=
  if String.prefix sep s then ""
  else match s with
       | EmptyString => ""
       | String c r => String c (before sep r)
       end.

Definition set_at (e : users) (key : string) : gset string :=
  default ∅ (e !! key).

Definition new_users (first second : string) : users :=
  <[first := ∅]> (<[second := ∅]> (<["types" := ∅]> ∅)).

(** One turn of a [for action in ...] loop: the entry is created when
    missing, the node is added under [role], the types under [types]. *)
Definition record (first second role node_name : string)
    (d : gmap string users) (i : TopicInfo) : gmap string users :=
  let e := match d !! name i with
           | Some e => e
           | None => new_users first second
           end in
  let e := <[role := set_at e role ∪ {[node_name]}]> e in
  let e := <["types" := set_at e "types" ∪ list_to_set (types i)]> e in
  <[name i := e]> d.

(** One turn of a [for topic in ...] loop, with its [continue]. *)
Definition record_topic (actions_dict : gmap string users)
    (role node_name : string) (d : gmap string users) (i : TopicInfo)
    : gmap string users :=
  if bool_decide (before "/_action" (name i) ∈ dom actions_dict) then d
  else record "publishers" "subscribers" role node_name d i.

(** the sets found in [d] for [k] under [key] *)
Definition recorded (d : gmap string users) (k key : string) : gset string :=
  match d !! k with
  | Some e => set_at e key
  | None => ∅
  end.

Record state {NodeName : Type} := {
  actions_dict : gmap string users;
  nodes_list : list NodeName;
  services_dict : gmap string users;
  topics_dict : gmap string users;
}.
Arguments state : clear implicits.

Section SystemInfo.

(** the objects [get_node_names] gives, with their [full_name] *)
Context {NodeName : Type}.
Variable full_name : NodeName -> string.
(** [filters.NodeFilter(True, True).should_filter_out] *)
Variable should_filter_out : string -> bool.
(** The graph calls, by remote node name.  The graph is taken not to
    change while it is crawled: the same call gives the same list. *)
Variable get_action_server_info : string -> list TopicInfo.
Variable get_action_client_info : string -> list TopicInfo.
Variable get_publisher_info : string -> list TopicInfo.
Variable get_subscriber_info : string -> list TopicInfo.
Variable get_service_server_info : string -> list TopicInfo.

(** The body of [for each_node in list_of_node_names]. *)
Definition visit (st : state NodeName) (each_node : NodeName) : state NodeName :=
  let node_name := full_name each_node in
  if should_filter_out node_name then st
  else
    let nodes_list := (nodes_list st ++ [each_node])%list in
    let action_servers := get_action_server_info node_name in
    let actions_dict :=
      foldl (record "servers" "clients" "servers" node_name)
        (actions_dict st) action_servers in
    let action_clients := get_action_client_info node_name in
    let actions_dict :=
      foldl (record "servers" "clients" "clients" node_name)
        actions_dict action_clients in
    let publisher_topics := get_publisher_info node_name in
    let topics_dict :=
      foldl (record_topic actions_dict "publishers" node_name)
        (topics_dict st) publisher_topics in
    let subscriber_topics := get_subscriber_info node_name in
    let topics_dict :=
      foldl (record_topic actions_dict "subscribers" node_name)
        topics_dict subscriber_topics in
    let service_servers := get_service_server_info node_name in
    let services_dict :=
      foldl (record "servers" "clients" "servers" node_name)
        (services_dict st) service_servers in
    let service_clients := get_service_server_info node_name in
    let services_dict :=
      foldl (record "servers" "clients" "clients" node_name)
        services_dict service_clients in
    {| actions_dict := actions_dict; nodes_list := nodes_list;
       services_dict := services_dict; topics_dict := topics_dict |}.

Definition crawl (list_of_node_names : list NodeName) : state NodeName :=
  foldl visit
    {| actions_dict := ∅; nodes_list := []; services_dict := ∅;
       topics_dict := ∅ |}
    list_of_node_names.

Definition collect_system_info (list_of_node_names : list NodeName)
    : gmap string users * list NodeName * gmap string users
      * gmap string users :=
  let st := crawl list_of_node_names in
  (actions_dict st, nodes_list st, services_dict st, topics_dict st).

(** A node that is crawled: listed, and not filtered out. *)
Definition crawled (l : list NodeName) (node : NodeName) : Prop :=
  node ∈ l /\ should_filter_out (full_name node) = false.

(** An action that a crawled node of [l] serves or uses. *)
Definition declared (l : list NodeName) (a : string) : Prop :=
  exists node, crawled l node
    /\ a ∈ name <$> (get_action_server_info (full_name node)
                      ++ get_action_client_info (full_name node)).

(** The node [x] is met with [t] in its [info] list, at a time when no
    action is known under the name that [t] has before [/_action]. *)
Definition heard (info : string -> list TopicInfo) (l : list NodeName)
    (x t : string) : Prop :=
  exists l1 node l2,
    l = l1 ++ node :: l2 /\ full_name node = x
    /\ should_filter_out x = false
    /\ t ∈ name <$> info x
    /\ ~ declared (l1 ++ [node]) (before "/_action" t).

End SystemInfo.

(** *** One loop over a list of [TopicInfo] *)

Lemma set_at_new first second key : set_at (new_users first second) key = ∅.
Proof.
  unfold set_at, new_users.
  destruct (decide (key = first)) as [->|H1]; [rewrite lookup_insert_eq; reflexivity|].
  rewrite lookup_insert_ne by congruence.
  destruct (decide (key = second)) as [->|H2]; [rewrite lookup_insert_eq; reflexivity|].
  rewrite lookup_insert_ne by congruence.
  destruct (decide (key = "types")) as [->|H3]; [rewrite lookup_insert_eq; reflexivity|].
  rewrite lookup_insert_ne by congruence. reflexivity.
Qed.

Lemma recorded_record first second role n d i k key x :
  role <> "types" ->
  x ∈ recorded (record first second role n d i) k key
  <-> x ∈ recorded d k key
      \/ (name i = k /\ ((key = role /\ x = n)
                         \/ (key = "types" /\ x ∈ types i))).
Proof.
  intros Hrole. unfold recorded, record.
  destruct (decide (name i = k)) as [<-|Hk].
  - rewrite lookup_insert_eq.
    assert (Hold : set_at (match d !! name i with
                           | Some e => e
                           | None => new_users first second
                           end) key
                   = match d !! name i with
                     | Some e => set_at e key
                     | None => ∅
                     end).
    { destruct (d !! name i); [reflexivity | apply set_at_new]. }
    rewrite <- Hold. clear Hold.
    set (e := match d !! name i with
              | Some e => e
              | None => new_users first second
              end).
    unfold set_at at 1.
    destruct (decide (key = "types")) as [->|Htypes].
    + rewrite lookup_insert_eq. cbn.
      unfold set_at at 1. rewrite lookup_insert_ne by congruence.
      fold (set_at e "types").
      rewrite elem_of_union, elem_of_list_to_set.
      split.
      * intros [H|H]; [left; assumption | right; split; [reflexivity|]].
        right. split; [reflexivity | assumption].
      * intros [H|[_ [[Hkey _]|[_ H]]]]; [left; assumption | | right; assumption].
        congruence.
    + rewrite lookup_insert_ne by congruence.
      destruct (decide (key = role)) as [->|Hkey].
      * rewrite lookup_insert_eq. cbn.
        rewrite elem_of_union, elem_of_singleton.
        split.
        -- intros [H|H]; [left; assumption | right; split; [reflexivity|]].
           left. split; [reflexivity | assumption].
        -- intros [H|[_ [[_ H]|[Hkey _]]]]; [left; assumption | right; assumption |].
           congruence.
      * rewrite lookup_insert_ne by congruence.
        fold (set_at e key).
        split; [intros H; left; assumption|].
        intros [H|[_ [[Hkey' _]|[Hkey' _]]]]; [assumption | congruence | congruence].
  - rewrite lookup_insert_ne by congruence.
    split; [intros H; left; assumption|].
    intros [H|[Hk' _]]; [assumption | congruence].
Qed.

Lemma recorded_fold first second role n infos d k key x :
  role <> "types" ->
  x ∈ recorded (foldl (record first second role n) d infos) k key
  <-> x ∈ recorded d k key
      \/ (exists i, i ∈ infos /\ name i = k
                    /\ ((key = role /\ x = n)
                        \/ (key = "types" /\ x ∈ types i))).
Proof.
  intros Hrole. revert d. induction infos as [|i infos IH]; intros d; cbn.
  - split; [intros H; left; assumption|].
    intros [H|(i & Hi & _)]; [assumption|].
    apply not_elem_of_nil in Hi. contradiction.
  - rewrite IH, recorded_record by assumption.
    split.
    + intros [[H|[Hk H]]|(j & Hj & Hk & H)].
      * left. assumption.
      * right. exists i. split; [apply elem_of_cons; left; reflexivity | auto].
      * right. exists j. split; [apply elem_of_cons; right; assumption | auto].
    + intros [H|(j & Hj & Hk & H)]; [left; left; assumption|].
      apply elem_of_cons in Hj as [->|Hj].
      * left. right. auto.
      * right. exists j. auto.
Qed.

Lemma dom_fold first second role n infos d k :
  k ∈ dom (foldl (record first second role n) d infos)
  <-> k ∈ dom d \/ k ∈ name <$> infos.
Proof.
  revert d. induction infos as [|i infos IH]; intros d; cbn.
  - split; [intros H; left; assumption|].
    intros [H|H]; [assumption|]. apply not_elem_of_nil in H. contradiction.
  - rewrite IH. unfold record. rewrite dom_insert_L, elem_of_union, elem_of_singleton.
    rewrite elem_of_cons. split.
    + intros [[H|H]|H]; auto.
    + intros [H|[H|H]]; auto.
Qed.

(** Every entry has its two sets of nodes. *)
Definition complete (first second : string) (d : gmap string users) : Prop :=
  forall k e, d !! k = Some e -> is_Some (e !! first) /\ is_Some (e !! second).

Lemma complete_record first second role n d i :
  complete first second d -> complete first second (record first second role n d i).
Proof.
  intros Hd k e. unfold record.
  destruct (decide (name i = k)) as [<-|Hk].
  - rewrite lookup_insert_eq. intros [= <-].
    assert (Hold : is_Some (match d !! name i with
                            | Some e => e
                            | None => new_users first second
                            end !! first)
                   /\ is_Some (match d !! name i with
                               | Some e => e
                               | None => new_users first second
                               end !! second)).
    { destruct (d !! name i) as [e|] eqn:He; [exact (Hd _ _ He)|].
      unfold new_users. split.
      - rewrite lookup_insert_eq. eauto.
      - destruct (decide (second = first)) as [->|Hne].
        + rewrite lookup_insert_eq. eauto.
        + rewrite lookup_insert_ne, lookup_insert_eq by congruence. eauto. }
    destruct Hold as [H1 H2].
    split; rewrite !lookup_insert_is_Some'; auto.
  - rewrite lookup_insert_ne by congruence. apply Hd.
Qed.

Lemma complete_fold first second role n infos d :
  complete first second d ->
  complete first second (foldl (record first second role n) d infos).
Proof.
  revert d. induction infos as [|i infos IH]; intros d Hd; cbn; [assumption|].
  apply IH, complete_record, Hd.
Qed.

Lemma record_topic_filter actions role n infos d :
  foldl (record_topic actions role n) d infos
  = foldl (record "publishers" "subscribers" role n) d
      (filter (fun i => before "/_action" (name i) ∉ dom actions) infos).
Proof.
  revert d. induction infos as [|i infos IH]; intros d; [reflexivity|].
  cbn [foldl]. rewrite IH. unfold record_topic.
  rewrite filter_cons.
  destruct (decide (before "/_action" (name i) ∉ dom actions)) as [Hin|Hin].
  - rewrite bool_decide_eq_false_2 by assumption. reflexivity.
  - rewrite bool_decide_eq_true_2; [reflexivity|].
    destruct (decide (before "/_action" (name i) ∈ dom actions)); tauto.
Qed.

Lemma snoc_split {A} (l l1 l2 : list A) (new node : A) :
  l ++ [new] = l1 ++ node :: l2
  <-> (exists l2', l2 = l2' ++ [new] /\ l = l1 ++ node :: l2')
      \/ (l1 = l /\ node = new /\ l2 = []).
Proof.
  split.
  - intros H. destruct l2 as [|z l2 _] using rev_ind.
    + right. change (l1 ++ [node]) with (l1 ++ [node]) in H.
      apply app_inj_tail in H as [-> ->]. auto.
    + left. exists l2.
      change (l1 ++ node :: l2 ++ [z]) with (l1 ++ (node :: l2) ++ [z]) in H.
      rewrite app_assoc in H. apply app_inj_tail in H as [-> ->]. auto.
  - intros [(l2' & -> & ->)|(-> & -> & ->)]; [|reflexivity].
    rewrite <- app_assoc. reflexivity.
Qed.

(** *** One of the dictionaries, over the loop on the nodes *)

Section Gathered.

Context {NodeName : Type}.
Variable full_name : NodeName -> string.
Variable should_filter_out : string -> bool.
(** the dictionary after the nodes of a list *)
Variable after : list NodeName -> gmap string users.
Variables first second : string.
(** what the two loops of a node go through, for the nodes before it *)
Variables A B : list NodeName -> NodeName -> list TopicInfo.

Hypothesis first_key : first <> "types".
Hypothesis second_key : second <> "types".
Hypothesis after_nil : after [] = ∅.
Hypothesis after_filtered : forall l node,
  should_filter_out (full_name node) = true -> after (l ++ [node]) = after l.
Hypothesis after_crawled : forall l node,
  should_filter_out (full_name node) = false ->
  after (l ++ [node])
  = foldl (record first second second (full_name node))
      (foldl (record first second first (full_name node)) (after l) (A l node))
      (B l node).

Definition member (l : list NodeName) (k key x : string) : Prop :=
  exists l1 node l2 i,
    l = l1 ++ node :: l2
    /\ should_filter_out (full_name node) = false
    /\ name i = k
    /\ ((i ∈ A l1 node /\ key = first /\ x = full_name node)
        \/ (i ∈ B l1 node /\ key = second /\ x = full_name node)
        \/ (i ∈ A l1 node ++ B l1 node /\ key = "types" /\ x ∈ types i)).

Lemma gathered_members l k key x :
  x ∈ recorded (after l) k key <-> member l k key x.
Proof using first_key second_key after_nil after_filtered after_crawled.
  induction l as [|new l IH] using rev_ind.
  - rewrite after_nil. unfold recorded. rewrite lookup_empty. split.
    + intros H. apply not_elem_of_empty in H. contradiction.
    + intros (l1 & node & l2 & i & Hl & _). destruct l1; discriminate.
  - assert (Hold : member (l ++ [new]) k key x
                   <-> member l k key x
                       \/ (should_filter_out (full_name new) = false
                           /\ exists i, name i = k
                              /\ ((i ∈ A l new /\ key = first /\ x = full_name new)
                                  \/ (i ∈ B l new /\ key = second /\ x = full_name new)
                                  \/ (i ∈ A l new ++ B l new /\ key = "types"
                                      /\ x ∈ types i)))).
    { unfold member. split.
      - intros (l1 & node & l2 & i & Hl & Hf & Hk & H).
        apply snoc_split in Hl as [(l2' & -> & ->)|(-> & -> & ->)].
        + left. exists l1, node, l2', i. auto.
        + right. split; [assumption|]. exists i. auto 10.
      - intros [(l1 & node & l2 & i & -> & Hf & Hk & H)|(Hf & i & Hk & H)].
        + exists l1, node, (l2 ++ [new]), i.
          split; [rewrite <- app_assoc; reflexivity | auto].
        + exists l, new, [], i. auto. }
    rewrite Hold. clear Hold.
    destruct (should_filter_out (full_name new)) eqn:Hf.
    + rewrite after_filtered by assumption. rewrite IH.
      split; [intros H; left; assumption|].
      intros [H|[H _]]; [assumption | discriminate].
    + rewrite after_crawled by assumption.
      rewrite !recorded_fold by assumption. rewrite IH.
      split.
      * intros [[H|(i & Hi & Hk & [[-> ->]|[-> Hx]])]|(i & Hi & Hk & [[-> ->]|[-> Hx]])].
        -- left. assumption.
        -- right. split; [reflexivity|]. exists i. auto 10.
        -- right. split; [reflexivity|]. exists i. split; [assumption|].
           right. right. rewrite elem_of_app. auto 10.
        -- right. split; [reflexivity|]. exists i. auto 10.
        -- right. split; [reflexivity|]. exists i. split; [assumption|].
           right. right. rewrite elem_of_app. auto 10.
      * intros [H|(_ & i & Hk & [(Hi & -> & ->)|[(Hi & -> & ->)|(Hi & -> & Hx)]])].
        -- left. left. assumption.
        -- left. right. exists i. auto 10.
        -- right. exists i. auto 10.
        -- apply elem_of_app in Hi as [Hi|Hi].
           ++ left. right. exists i. auto 10.
           ++ right. exists i. auto 10.
Qed.

Lemma gathered_dom l k :
  k ∈ dom (after l)
  <-> exists l1 node l2,
        l = l1 ++ node :: l2
        /\ should_filter_out (full_name node) = false
        /\ k ∈ name <$> (A l1 node ++ B l1 node).
Proof using after_nil after_filtered after_crawled.
  induction l as [|new l IH] using rev_ind.
  - rewrite after_nil, dom_empty_L. split.
    + intros H. apply not_elem_of_empty in H. contradiction.
    + intros (l1 & node & l2 & Hl & _). destruct l1; discriminate.
  - assert (Hold : (exists l1 node l2,
                      l ++ [new] = l1 ++ node :: l2
                      /\ should_filter_out (full_name node) = false
                      /\ k ∈ name <$> (A l1 node ++ B l1 node))
                   <-> (exists l1 node l2,
                          l = l1 ++ node :: l2
                          /\ should_filter_out (full_name node) = false
                          /\ k ∈ name <$> (A l1 node ++ B l1 node))
                       \/ (should_filter_out (full_name new) = false
                           /\ k ∈ name <$> (A l new ++ B l new))).
    { split.
      - intros (l1 & node & l2 & Hl & Hf & H).
        apply snoc_split in Hl as [(l2' & -> & ->)|(-> & -> & ->)].
        + left. exists l1, node, l2'. auto.
        + right. auto.
      - intros [(l1 & node & l2 & -> & Hf & H)|(Hf & H)].
        + exists l1, node, (l2 ++ [new]).
          split; [rewrite <- app_assoc; reflexivity | auto].
        + exists l, new, []. auto. }
    rewrite Hold. clear Hold.
    destruct (should_filter_out (full_name new)) eqn:Hf.
    + rewrite after_filtered by assumption. rewrite IH.
      split; [intros H; left; assumption|].
      intros [H|[H _]]; [assumption | discriminate].
    + rewrite after_crawled by assumption.
      rewrite !dom_fold, IH, fmap_app, elem_of_app.
      split.
      * intros [[H|H]|H]; auto.
      * intros [H|[_ [H|H]]]; auto.
Qed.

Lemma gathered_complete l : complete first second (after l).
Proof using after_nil after_filtered after_crawled.
  induction l as [|new l IH] using rev_ind.
  - rewrite after_nil. intros k e H. rewrite lookup_empty in H. discriminate.
  - destruct (should_filter_out (full_name new)) eqn:Hf.
    + rewrite after_filtered by assumption. assumption.
    + rewrite after_crawled by assumption.
      apply complete_fold, complete_fold, IH.
Qed.

End Gathered.

(** *** The loop over the nodes *)

Section Crawl.

Context {NodeName : Type}.
Variable full_name : NodeName -> string.
Variable should_filter_out : string -> bool.
Variable get_action_server_info : string -> list TopicInfo.
Variable get_action_client_info : string -> list TopicInfo.
Variable get_publisher_info : string -> list TopicInfo.
Variable get_subscriber_info : string -> list TopicInfo.
Variable get_service_server_info : string -> list TopicInfo.

Abbreviation crawl :=
  (crawl full_name should_filter_out get_action_server_info
     get_action_client_info get_publisher_info get_subscriber_info
     get_service_server_info).
Abbreviation visit :=
  (visit full_name should_filter_out get_action_server_info
     get_action_client_info get_publisher_info get_subscriber_info
     get_service_server_info).
Abbreviation collect_system_info :=
  (collect_system_info full_name should_filter_out get_action_server_info
     get_action_client_info get_publisher_info get_subscriber_info
     get_service_server_info).
Abbreviation crawled := (crawled full_name should_filter_out).
Abbreviation declared :=
  (declared full_name should_filter_out get_action_server_info
     get_action_client_info).
Abbreviation heard :=
  (heard full_name should_filter_out get_action_server_info
     get_action_client_info).

Lemma crawl_snoc l node : crawl (l ++ [node]) = visit (crawl l) node.
Proof. unfold SystemInfo.crawl. rewrite foldl_app. reflexivity. Qed.

Lemma crawl_filtered l node :
  should_filter_out (full_name node) = true -> crawl (l ++ [node]) = crawl l.
Proof.
  intros Hf. rewrite crawl_snoc. unfold SystemInfo.visit. rewrite Hf. reflexivity.
Qed.

Lemma crawled_split l node :
  crawled l node
  <-> exists l1 l2, l = l1 ++ node :: l2
                    /\ should_filter_out (full_name node) = false.
Proof.
  unfold SystemInfo.crawled. split.
  - intros [Hin Hf]. apply list_elem_of_split in Hin as (l1 & l2 & ->). eauto.
  - intros (l1 & l2 & -> & Hf). split; [|assumption].
    apply elem_of_app. right. apply elem_of_cons. left. reflexivity.
Qed.

Lemma nodes_list_crawl l :
  nodes_list (crawl l)
  = filter (fun node => should_filter_out (full_name node) = false) l.
Proof.
  induction l as [|new l IH] using rev_ind; [reflexivity|].
  rewrite crawl_snoc, filter_app, filter_cons, filter_nil.
  unfold SystemInfo.visit.
  destruct (should_filter_out (full_name new)) eqn:Hf; cbn.
  - rewrite decide_False by discriminate. rewrite app_nil_r. exact IH.
  - rewrite decide_True by reflexivity. rewrite IH. reflexivity.
Qed.

Lemma actions_crawl l a :
  a ∈ dom (actions_dict (crawl l)) <-> declared l a.
Proof.
  rewrite (gathered_dom full_name should_filter_out
             (fun l => actions_dict (crawl l)) "servers" "clients"
             (fun _ node => get_action_server_info (full_name node))
             (fun _ node => get_action_client_info (full_name node))).
  - unfold SystemInfo.declared. split.
    + intros (l1 & node & l2 & Hl & Hf & Ha). exists node.
      split; [apply crawled_split; eauto | assumption].
    + intros (node & Hc & Ha).
      apply crawled_split in Hc as (l1 & l2 & Hl & Hf). eauto 10.
  - reflexivity.
  - intros l' node Hf. rewrite crawl_filtered by assumption. reflexivity.
  - intros l' node Hf. rewrite crawl_snoc. unfold SystemInfo.visit.
    rewrite Hf. reflexivity.
Qed.

(** X25. The services: a node is put among the servers and among the clients
    of every service its server list names, so the two sets are the
    same: the crawled nodes whose server list names the service.  What
    nodes are clients of a service is not asked of the graph. *)
Theorem service_clients_are_its_servers (l : list NodeName)
    (actions : gmap string users) (nodes : list NodeName)
    (services topics : gmap string users) (k : string) (e : users) :
  collect_system_info l = (actions, nodes, services, topics) ->
  services !! k = Some e ->
  exists users_of_k,
    e !! "servers" = Some users_of_k
    /\ e !! "clients" = Some users_of_k
    /\ forall x, x ∈ users_of_k
         <-> exists node, crawled l node /\ full_name node = x
               /\ k ∈ name <$> get_service_server_info x.
Proof.
  intros [= _ _ <- _] He.
  pose (after := fun l => services_dict (crawl l)).
  pose (A := fun (_ : list NodeName) node => get_service_server_info (full_name node)).
  assert (Hnil : after [] = ∅) by reflexivity.
  assert (Hskip : forall l node, should_filter_out (full_name node) = true ->
                                 after (l ++ [node]) = after l).
  { intros l' node Hf. unfold after. rewrite crawl_filtered by assumption.
    reflexivity. }
  assert (Hstep : forall l node, should_filter_out (full_name node) = false ->
            after (l ++ [node])
            = foldl (record "servers" "clients" "clients" (full_name node))
                (foldl (record "servers" "clients" "servers" (full_name node))
                   (after l) (A l node))
                (A l node)).
  { intros l' node Hf. unfold after. rewrite crawl_snoc. unfold SystemInfo.visit.
    rewrite Hf. reflexivity. }
  pose proof (gathered_complete full_name should_filter_out after
                "servers" "clients" A A Hnil Hskip Hstep l k e He)
    as [[servers Hservers] [clients Hclients]].
  pose proof (fun key x =>
    gathered_members full_name should_filter_out after "servers" "clients"
      A A ltac:(discriminate) ltac:(discriminate) Hnil Hskip Hstep l k key x)
    as Hmem.
  unfold recorded, after in Hmem. rewrite He in Hmem. unfold set_at in Hmem.
  assert (Hwho : forall key, key = "servers" \/ key = "clients" ->
            forall x, x ∈ default ∅ (e !! key)
              <-> exists node, crawled l node /\ full_name node = x
                    /\ k ∈ name <$> get_service_server_info x).
  { intros key Hkey x. rewrite Hmem. unfold member, A. split.
    - intros (l1 & node & l2 & i & Hl & Hf & Hk & H).
      assert (Hi : i ∈ get_service_server_info (full_name node)
                   /\ x = full_name node).
      { destruct H as [(Hi & _ & ->)|[(Hi & _ & ->)|(_ & -> & _)]]; auto.
        destruct Hkey; discriminate. }
      destruct Hi as [Hi ->]. exists node.
      split; [apply crawled_split; eauto|]. split; [reflexivity|].
      apply list_elem_of_fmap. exists i. auto.
    - intros (node & Hc & <- & Hk).
      apply crawled_split in Hc as (l1 & l2 & Hl & Hf).
      apply list_elem_of_fmap in Hk as (i & -> & Hi).
      exists l1, node, l2, i.
      split; [assumption|]. split; [assumption|]. split; [reflexivity|].
      destruct Hkey as [->| ->]; auto. }
  exists servers. split; [assumption|].
  pose proof (Hwho "servers" (or_introl eq_refl)) as Hs.
  pose proof (Hwho "clients" (or_intror eq_refl)) as Hc.
  rewrite Hservers in Hs. rewrite Hclients in Hc. cbn in Hs, Hc.
  split; [|exact Hs].
  rewrite Hclients. f_equal. apply set_eq. intros x. rewrite Hs, Hc. reflexivity.
Qed.

(** X26. The actions and the nodes: the nodes returned are the listed ones
    that are not filtered out, in their order, and an action's servers
    and clients are the crawled nodes whose action server list, or
    action client list, names it. *)
Theorem actions_and_nodes_of_the_graph (l : list NodeName)
    (actions : gmap string users) (nodes : list NodeName)
    (services topics : gmap string users) :
  collect_system_info l = (actions, nodes, services, topics) ->
  nodes = filter (fun node => should_filter_out (full_name node) = false) l
  /\ forall a,
       (a ∈ dom actions <-> declared l a)
       /\ forall e, actions !! a = Some e ->
            exists servers clients,
              e !! "servers" = Some servers
              /\ e !! "clients" = Some clients
              /\ (forall x, x ∈ servers
                    <-> exists node, crawled l node /\ full_name node = x
                          /\ a ∈ name <$> get_action_server_info x)
              /\ (forall x, x ∈ clients
                    <-> exists node, crawled l node /\ full_name node = x
                          /\ a ∈ name <$> get_action_client_info x).
Proof.
  intros [= <- <- _ _]. split; [apply nodes_list_crawl|].
  intros a. split; [apply actions_crawl|]. intros e He.
  pose (after := fun l => actions_dict (crawl l)).
  pose (A := fun (_ : list NodeName) node => get_action_server_info (full_name node)).
  pose (B := fun (_ : list NodeName) node => get_action_client_info (full_name node)).
  assert (Hnil : after [] = ∅) by reflexivity.
  assert (Hskip : forall l node, should_filter_out (full_name node) = true ->
                                 after (l ++ [node]) = after l).
  { intros l' node Hf. unfold after. rewrite crawl_filtered by assumption.
    reflexivity. }
  assert (Hstep : forall l node, should_filter_out (full_name node) = false ->
            after (l ++ [node])
            = foldl (record "servers" "clients" "clients" (full_name node))
                (foldl (record "servers" "clients" "servers" (full_name node))
                   (after l) (A l node))
                (B l node)).
  { intros l' node Hf. unfold after. rewrite crawl_snoc. unfold SystemInfo.visit.
    rewrite Hf. reflexivity. }
  pose proof (gathered_complete full_name should_filter_out after
                "servers" "clients" A B Hnil Hskip Hstep l a e He)
    as [[servers Hservers] [clients Hclients]].
  pose proof (fun key x =>
    gathered_members full_name should_filter_out after "servers" "clients"
      A B ltac:(discriminate) ltac:(discriminate) Hnil Hskip Hstep l a key x)
    as Hmem.
  unfold recorded, after in Hmem. rewrite He in Hmem. unfold set_at in Hmem.
  exists servers, clients. split; [assumption|]. split; [assumption|].
  split; intros x.
  - specialize (Hmem "servers" x). rewrite Hservers in Hmem. cbn in Hmem.
    rewrite Hmem. unfold member, A, B. split.
    + intros (l1 & node & l2 & i & Hl & Hf & Hk & H).
      destruct H as [(Hi & _ & ->)|[(_ & Hkey & _)|(_ & Hkey & _)]];
        try discriminate.
      exists node. split; [apply crawled_split; eauto|]. split; [reflexivity|].
      apply list_elem_of_fmap. exists i. auto.
    + intros (node & Hc & <- & Hk).
      apply crawled_split in Hc as (l1 & l2 & Hl & Hf).
      apply list_elem_of_fmap in Hk as (i & -> & Hi).
      exists l1, node, l2, i. auto 10.
  - specialize (Hmem "clients" x). rewrite Hclients in Hmem. cbn in Hmem.
    rewrite Hmem. unfold member, A, B. split.
    + intros (l1 & node & l2 & i & Hl & Hf & Hk & H).
      destruct H as [(_ & Hkey & _)|[(Hi & _ & ->)|(_ & Hkey & _)]];
        try discriminate.
      exists node. split; [apply crawled_split; eauto|]. split; [reflexivity|].
      apply list_elem_of_fmap. exists i. auto.
    + intros (node & Hc & <- & Hk).
      apply crawled_split in Hc as (l1 & l2 & Hl & Hf).
      apply list_elem_of_fmap in Hk as (i & -> & Hi).
      exists l1, node, l2, i. auto 10.
Qed.

(** X27. The topics: a topic is recorded for a node only when, at that node,
    no action is known under the name the topic has before [/_action];
    the actions known then are those of the nodes crawled so far, that
    node included.  So the topics of an action are left out from the
    first node that serves or uses the action on, and are recorded for
    the nodes met before it. *)
Theorem topics_of_the_graph (l : list NodeName)
    (actions : gmap string users) (nodes : list NodeName)
    (services topics : gmap string users) (t : string) :
  collect_system_info l = (actions, nodes, services, topics) ->
  (t ∈ dom topics
   <-> exists x, heard get_publisher_info l x t
                 \/ heard get_subscriber_info l x t)
  /\ forall e, topics !! t = Some e ->
       exists publishers subscribers,
         e !! "publishers" = Some publishers
         /\ e !! "subscribers" = Some subscribers
         /\ (forall x, x ∈ publishers <-> heard get_publisher_info l x t)
         /\ (forall x, x ∈ subscribers <-> heard get_subscriber_info l x t).
Proof.
  intros [= _ _ _ <-].
  pose (after := fun l => topics_dict (crawl l)).
  pose (ok := fun (l1 : list NodeName) (node : NodeName) (i : TopicInfo) =>
                before "/_action" (name i)
                ∉ dom (actions_dict (crawl (l1 ++ [node])))).
  pose (A := fun l1 node => filter (ok l1 node) (get_publisher_info (full_name node))).
  pose (B := fun l1 node => filter (ok l1 node) (get_subscriber_info (full_name node))).
  assert (Hnil : after [] = ∅) by reflexivity.
  assert (Hskip : forall l node, should_filter_out (full_name node) = true ->
                                 after (l ++ [node]) = after l).
  { intros l' node Hf. unfold after. rewrite crawl_filtered by assumption.
    reflexivity. }
  assert (Hstep : forall l node, should_filter_out (full_name node) = false ->
            after (l ++ [node])
            = foldl (record "publishers" "subscribers" "subscribers" (full_name node))
                (foldl (record "publishers" "subscribers" "publishers" (full_name node))
                   (after l) (A l node))
                (B l node)).
  { intros l' node Hf. unfold after, A, B, ok. rewrite !crawl_snoc.
    unfold SystemInfo.visit. rewrite Hf. cbn [topics_dict actions_dict].
    rewrite !record_topic_filter. reflexivity. }
  assert (Hin : forall (info : string -> list TopicInfo) l1 node,
            t ∈ name <$> filter (ok l1 node) (info (full_name node))
            <-> t ∈ name <$> info (full_name node)
                /\ ~ declared (l1 ++ [node]) (before "/_action" t)).
  { intros info l1 node. rewrite !list_elem_of_fmap. split.
    - intros (i & -> & Hi). apply list_elem_of_filter in Hi as [Hok Hi].
      unfold ok in Hok. rewrite actions_crawl in Hok. eauto.
    - intros [(i & -> & Hi) Hok]. exists i. split; [reflexivity|].
      apply list_elem_of_filter. split; [|assumption].
      unfold ok. rewrite actions_crawl. assumption. }
  assert (Hheard : forall (info : string -> list TopicInfo) x,
            heard info l x t
            <-> exists l1 node l2 i,
                  l = l1 ++ node :: l2
                  /\ should_filter_out (full_name node) = false
                  /\ name i = t
                  /\ i ∈ filter (ok l1 node) (info (full_name node))
                  /\ x = full_name node).
  { intros info x. unfold SystemInfo.heard. split.
    - intros (l1 & node & l2 & Hl & <- & Hf & Ht & Hok).
      assert (Hi : t ∈ name <$> filter (ok l1 node) (info (full_name node)))
        by (apply Hin; auto).
      apply list_elem_of_fmap in Hi as (i & -> & Hi). eauto 10.
    - intros (l1 & node & l2 & i & Hl & Hf & <- & Hi & ->).
      assert (Ht : name i ∈ name <$> filter (ok l1 node) (info (full_name node)))
        by (apply list_elem_of_fmap; eauto).
      apply Hin in Ht as [Ht Hok]. exists l1, node, l2. auto 10. }
  split.
  - change (topics_dict (crawl l)) with (after l).
    rewrite (gathered_dom full_name should_filter_out after
               "publishers" "subscribers" A B Hnil Hskip Hstep).
    split.
    + intros (l1 & node & l2 & Hl & Hf & Ht).
      rewrite fmap_app, elem_of_app in Ht. exists (full_name node).
      destruct Ht as [Ht|Ht]; [left | right];
        apply Hin in Ht as [Ht Hok]; exists l1, node, l2; auto 10.
    + intros (x & [H|H]); destruct H as (l1 & node & l2 & Hl & <- & Hf & Ht & Hok);
        exists l1, node, l2; (split; [assumption|]); (split; [assumption|]);
        rewrite fmap_app, elem_of_app; [left | right]; apply Hin; auto.
  - intros e He.
    pose proof (gathered_complete full_name should_filter_out after
                  "publishers" "subscribers" A B Hnil Hskip Hstep l t e He)
      as [[publishers Hpub] [subscribers Hsub]].
    pose proof (fun key x =>
      gathered_members full_name should_filter_out after "publishers"
        "subscribers" A B ltac:(discriminate) ltac:(discriminate)
        Hnil Hskip Hstep l t key x)
      as Hmem.
    unfold recorded, after in Hmem. rewrite He in Hmem. unfold set_at in Hmem.
    exists publishers, subscribers. split; [assumption|]. split; [assumption|].
    split; intros x.
    + specialize (Hmem "publishers" x). rewrite Hpub in Hmem. cbn in Hmem.
      rewrite Hmem, Hheard. unfold member. split.
      * intros (l1 & node & l2 & i & Hl & Hf & Hk & H).
        destruct H as [(Hi & _ & ->)|[(_ & Hkey & _)|(_ & Hkey & _)]];
          try discriminate.
        exists l1, node, l2, i. auto 10.
      * intros (l1 & node & l2 & i & Hl & Hf & Hk & Hi & ->).
        exists l1, node, l2, i. auto 10.
    + specialize (Hmem "subscribers" x). rewrite Hsub in Hmem. cbn in Hmem.
      rewrite Hmem, Hheard. unfold member. split.
      * intros (l1 & node & l2 & i & Hl & Hf & Hk & H).
        destruct H as [(_ & Hkey & _)|[(Hi & _ & ->)|(_ & Hkey & _)]];
          try discriminate.
        exists l1, node, l2, i. auto 10.
      * intros (l1 & node & l2 & i & Hl & Hf & Hk & Hi & ->).
        exists l1, node, l2, i. auto 10.
Qed.

End Crawl.

(** A graph of three nodes and the command line daemon.  [/early]
    listens to the feedback of an action whose server is met later. *)
Definition sample_nodes : list string :=
  ["/early"; "/_ros2cli_daemon"; "/fib_server"; "/late"].

Definition sample_filter (node_name : string) : bool :=
  String.eqb node_name "/_ros2cli_daemon".

Definition sample_action_servers (node_name : string) : list TopicInfo :=
  if String.eqb node_name "/fib_server"
  then [{| name := "/fibonacci"; types := ["example_interfaces/action/Fibonacci"] |}]
  else [].

Definition sample_action_clients (node_name : string) : list TopicInfo :=
  if String.eqb node_name "/late"
  then [{| name := "/fibonacci"; types := ["example_interfaces/action/Fibonacci"] |}]
  else [].

Definition feedback : TopicInfo :=
  {| name := "/fibonacci/_action/feedback";
     types := ["example_interfaces/action/Fibonacci_FeedbackMessage"] |}.

Definition chatter : TopicInfo :=
  {| name := "/chatter"; types := ["std_msgs/msg/String"] |}.

Definition sample_publishers (node_name : string) : list TopicInfo :=
  if String.eqb node_name "/fib_server" then [feedback]
  else if String.eqb node_name "/early" then [chatter]
  else [].

Definition sample_subscribers (node_name : string) : list TopicInfo :=
  if String.eqb node_name "/fib_server" then []
  else [feedback; chatter].

Definition sample_service_servers (node_name : string) : list TopicInfo :=
  if String.eqb node_name "/late" then []
  else [{| name := "/reset"; types := ["std_srvs/srv/Empty"] |}].

Definition sample_info : state string :=
  crawl id sample_filter sample_action_servers sample_action_clients
    sample_publishers sample_subscribers sample_service_servers sample_nodes.

Definition sample_reset : users :=
  <["servers" := {["/early"; "/fib_server"]}]> (
  <["clients" := {["/early"; "/fib_server"]}]> (
  <["types" := {["std_srvs/srv/Empty"]}]> ∅)).

Definition sample_fibonacci : users :=
  <["servers" := {["/fib_server"]}]> (
  <["clients" := {["/late"]}]> (
  <["types" := {["example_interfaces/action/Fibonacci"]}]> ∅)).

Definition sample_feedback : users :=
  <["publishers" := ∅]> (
  <["subscribers" := {["/early"]}]> (
  <["types" := {["example_interfaces/action/Fibonacci_FeedbackMessage"]}]> ∅)).

Lemma service_clients_are_its_servers_witness :
  exists users_of_k,
    sample_reset !! "servers" = Some users_of_k
    /\ sample_reset !! "clients" = Some users_of_k
    /\ forall x, x ∈ users_of_k
         <-> exists node, crawled id sample_filter sample_nodes node
               /\ id node = x
               /\ "/reset" ∈ name <$> sample_service_servers x.
Proof.
  apply (service_clients_are_its_servers id sample_filter
           sample_action_servers sample_action_clients sample_publishers
           sample_subscribers sample_service_servers sample_nodes
           (actions_dict sample_info) (nodes_list sample_info)
           (services_dict sample_info) (topics_dict sample_info)
           "/reset" sample_reset).
  - reflexivity.
  - reflexivity.
Defined.

Lemma actions_and_nodes_of_the_graph_witness :
  nodes_list sample_info
  = filter (fun node => sample_filter (id node) = false) sample_nodes
  /\ forall a,
       (a ∈ dom (actions_dict sample_info)
        <-> declared id sample_filter sample_action_servers
              sample_action_clients sample_nodes a)
       /\ forall e, actions_dict sample_info !! a = Some e ->
            exists servers clients,
              e !! "servers" = Some servers
              /\ e !! "clients" = Some clients
              /\ (forall x, x ∈ servers
                    <-> exists node, crawled id sample_filter sample_nodes node
                          /\ id node = x
                          /\ a ∈ name <$> sample_action_servers x)
              /\ (forall x, x ∈ clients
                    <-> exists node, crawled id sample_filter sample_nodes node
                          /\ id node = x
                          /\ a ∈ name <$> sample_action_clients x).
Proof.
  apply (actions_and_nodes_of_the_graph id sample_filter
           sample_action_servers sample_action_clients sample_publishers
           sample_subscribers sample_service_servers sample_nodes
           (actions_dict sample_info) (nodes_list sample_info)
           (services_dict sample_info) (topics_dict sample_info)).
  reflexivity.
Defined.

Lemma topics_of_the_graph_witness :
  ("/fibonacci/_action/feedback" ∈ dom (topics_dict sample_info)
   <-> exists x,
         heard id sample_filter sample_action_servers sample_action_clients
           sample_publishers sample_nodes x "/fibonacci/_action/feedback"
         \/ heard id sample_filter sample_action_servers sample_action_clients
              sample_subscribers sample_nodes x "/fibonacci/_action/feedback")
  /\ forall e, topics_dict sample_info !! "/fibonacci/_action/feedback" = Some e ->
       exists publishers subscribers,
         e !! "publishers" = Some publishers
         /\ e !! "subscribers" = Some subscribers
         /\ (forall x, x ∈ publishers
               <-> heard id sample_filter sample_action_servers
                     sample_action_clients sample_publishers sample_nodes x
                     "/fibonacci/_action/feedback")
         /\ (forall x, x ∈ subscribers
               <-> heard id sample_filter sample_action_servers
                     sample_action_clients sample_subscribers sample_nodes x
                     "/fibonacci/_action/feedback").
Proof.
  apply (topics_of_the_graph id sample_filter
           sample_action_servers sample_action_clients sample_publishers
           sample_subscribers sample_service_servers sample_nodes
           (actions_dict sample_info) (nodes_list sample_info)
           (services_dict sample_info) (topics_dict sample_info)
           "/fibonacci/_action/feedback").
  reflexivity.
Defined.

(** The sample graph, crawled: [/reset] has its servers as clients,
    [/fibonacci] its server and its client, and the feedback topic of
    [/fibonacci] is recorded for [/early] alone, met before the server. *)
Example sample_crawled :
  nodes_list sample_info = ["/early"; "/fib_server"; "/late"]
  /\ services_dict sample_info !! "/reset" = Some sample_reset
  /\ actions_dict sample_info !! "/fibonacci" = Some sample_fibonacci
  /\ topics_dict sample_info !! "/fibonacci/_action/feedback"
     = Some sample_feedback.
Proof. repeat split; reflexivity. Qed.

End SystemInfo.

(** ** snapshot/snapshot.py: what learning records

    [_update_node_specification_data] numbers the names that end in
    the same token.  This part says under which key every name is
    stored, when the numbering works, and what type is stored for a
    parameter. *)

Module LearntSpecification.
Import Metamodel Reconciler.
Local Open Scope list_scope.

(** *** The type of a parameter

    snapshot/builders/parameter_builder.py: the type recorded for a
    parameter is [ParameterBuilder.construct_type], which returns
    [value_type], a string made of [str(type(self.value))]. *)

(** [s.replace(old, "")] for a non-empty [old]: the occurrences of
    [old] are taken out from the left, an occurrence starting only
    behind the one before it.  [skip] counts the characters of an
    occurrence that are still to be dropped. *)
Fixpoint remove_go (old : string) (skip : nat) (s : string) : string :=
  match s with
  | EmptyString => EmptyString
  | String c s' =>
      match skip with
      | S k => remove_go old k s'
      | 0 =>
          if String.prefix old s
          then remove_go old (String.length old - 1) s'
          else String c (remove_go old 0 s')
      end
  end.

Definition remove (old s : string) : string :=
  match old with
  | EmptyString => s
  | _ => remove_go old 0 s
  end.

(** [str(type(value))] for a value whose class prints as [cls] *)
Definition str_type (cls : string) : string := ("<class '" ++ cls ++ "'>")%string.

(** [ParameterBuilder.value_type] *)
Definition value_type (cls : string) : string :=
  RosExeFilter.strip
    (remove "'" (remove "type" (remove ">" (remove "<" (str_type cls))))).

(** [ParameterBuilder.construct_type] *)
Definition construct_type (cls : string) : string := value_type cls.

(** *** The numbered keys *)

(** [spec_token + "_" + str(n)] *)
Definition numbered (token : string) (n : nat) : string :=
  (token ++ "_" ++ pretty n)%string.

(** How many names of [names] end in [token]. *)
Definition seen (token : string) (names : list string) : nat :=
  length (filter (fun n => PyStr.last_token "/" n = token) names).

(** The key under which the pass stores [spec_name], met after the
    names [earlier], when it started from [spec_data]: the token
    itself for the first name of a token that is new, the token with
    the next number otherwise. *)
Definition stored_as (spec_data : gmap string scalar) (earlier : list string)
    (spec_name : string) : string :=
  let token := PyStr.last_token "/" spec_name in
  match spec_data !! token, seen token earlier with
  | Some _, k => numbered token (S k)
  | None, 0 => token
  | None, S k => numbered token (S k)
  end.

(** No key of [spec_data] and no token of [names] is a numbered token
    of [names] already. *)
Definition numbering_free (spec_data : gmap string scalar)
    (names : list string) : Prop :=
  forall n k, n ∈ names ->
    spec_data !! numbered (PyStr.last_token "/" n) (S k) = None
    /\ numbered (PyStr.last_token "/" n) (S k) ∉ PyStr.last_token "/" <$> names.

(** *** A number has no underscore in it *)

Fixpoint plain (s : string) : bool :=
  match s with
  | EmptyString => true
  | String c s' => negb (Ascii.eqb c "_") && plain s'
  end.

Lemma pretty_N_go_plain x s : plain s = true -> plain (pretty_N_go x s) = true.
Proof.
  revert s. induction (N.lt_wf_0 x) as [x _ IH]. intros s Hs.
  assert (Hx : (x = 0 \/ 0 < x)%N) by lia.
  destruct Hx as [->|Hx]; [rewrite pretty_N_go_0; assumption|].
  rewrite pretty_N_go_step by assumption. apply IH.
  - apply N.div_lt; [assumption | reflexivity].
  - unfold pretty_N_char. repeat case_match; cbn; assumption.
Qed.

Lemma pretty_nat_plain (n : nat) : plain (pretty n) = true.
Proof.
  unfold pretty, pretty_nat, pretty, pretty_N.
  destruct (decide (N.of_nat n = 0%N)); [reflexivity|].
  apply pretty_N_go_plain. reflexivity.
Qed.

Lemma plain_underscore r d : plain (r ++ String "_" d)%string = false.
Proof.
  induction r as [|c r IH].
  - reflexivity.
  - change (plain (String c (r ++ String "_" d)%string) = false). cbn [plain].
    rewrite IH. apply andb_false_r.
Qed.

Lemma append_underscore_inj t t' d d' :
  plain d = true -> plain d' = true ->
  (t ++ String "_" d)%string = (t' ++ String "_" d')%string ->
  t = t' /\ d = d'.
Proof.
  intros Hd Hd'. revert t'. induction t as [|c t IH]; intros [|c' t'].
  - intros [= ->]. auto.
  - change (String "_" d = String c' (t' ++ String "_" d')%string
            -> "" = String c' t' /\ d = d').
    intros [= <- ->]. rewrite plain_underscore in Hd. discriminate.
  - change (String c (t ++ String "_" d)%string = String "_" d'
            -> String c t = "" /\ d = d').
    intros [= -> <-]. rewrite plain_underscore in Hd'. discriminate.
  - change (String c (t ++ String "_" d)%string
            = String c' (t' ++ String "_" d')%string
            -> String c t = String c' t' /\ d = d').
    intros [= -> H]. destruct (IH _ H) as [-> ->]. auto.
Qed.

Lemma numbered_inj t t' k k' :
  numbered t k = numbered t' k' -> t = t' /\ k = k'.
Proof.
  unfold numbered.
  change ("_" ++ pretty k)%string with (String "_" (pretty k)).
  change ("_" ++ pretty k')%string with (String "_" (pretty k')).
  intros H.
  apply append_underscore_inj in H as [-> H]; try apply pretty_nat_plain.
  split; [reflexivity|]. apply (inj pretty). assumption.
Qed.

(** *** Counting the names of a token *)

Lemma seen_nil t : seen t [] = 0.
Proof. reflexivity. Qed.

Lemma seen_app t a b : seen t (a ++ b) = seen t a + seen t b.
Proof. unfold seen. rewrite filter_app, length_app. reflexivity. Qed.

Lemma seen_cons t n a :
  seen t (n :: a)
  = (if decide (PyStr.last_token "/" n = t) then 1 else 0) + seen t a.
Proof.
  unfold seen. rewrite filter_cons.
  destruct (decide (PyStr.last_token "/" n = t)); reflexivity.
Qed.

Lemma seen_snoc t a n :
  seen t (a ++ [n])
  = seen t a + (if decide (PyStr.last_token "/" n = t) then 1 else 0).
Proof. rewrite seen_app, seen_cons, seen_nil. lia. Qed.

(** The first name of a token that was met. *)
Lemma seen_first t names :
  0 < seen t names ->
  exists b n a, names = b ++ n :: a /\ PyStr.last_token "/" n = t /\ seen t b = 0.
Proof.
  induction names as [|m names IH]; [rewrite seen_nil; lia|].
  rewrite seen_cons. destruct (decide (PyStr.last_token "/" m = t)) as [Hm|Hm].
  - intros _. exists [], m, names. auto.
  - intros H. destruct IH as (b & n & a & -> & Hn & Hb); [lia|].
    exists (m :: b), n, a. split; [reflexivity|]. split; [assumption|].
    rewrite seen_cons, decide_False by assumption. lia.
Qed.

(** *** The keys of a pass are pairwise different *)

Lemma stored_as_cases spec_data earlier n :
  let t := PyStr.last_token "/" n in
  (stored_as spec_data earlier n = t
   /\ spec_data !! t = None /\ seen t earlier = 0)
  \/ (exists j, stored_as spec_data earlier n = numbered t (S j)
                /\ (is_Some (spec_data !! t) -> j = seen t earlier)
                /\ (spec_data !! t = None -> S j = seen t earlier)).
Proof.
  intros t. unfold stored_as. fold t.
  destruct (spec_data !! t) as [v|] eqn:Ht.
  - right. exists (seen t earlier). split; [reflexivity|].
    split; [reflexivity | discriminate].
  - destruct (seen t earlier) as [|k] eqn:Hk.
    + left. auto.
    + right. exists k. split; [reflexivity|].
      split; [intros [? ?]; discriminate | reflexivity].
Qed.

Section Pass.

Variable ty : string -> scalar.
Variable spec_data : gmap string scalar.
Variable names : list string.
Hypothesis free : numbering_free spec_data names.

Lemma numbered_not_token n k m :
  n ∈ names -> m ∈ names ->
  numbered (PyStr.last_token "/" n) (S k) <> PyStr.last_token "/" m.
Proof using free.
  intros Hn Hm Heq. destruct (free n k Hn) as [_ Hnot]. apply Hnot.
  rewrite Heq. apply list_elem_of_fmap. eauto.
Qed.

Lemma stored_as_new earlier n :
  n ∈ names -> spec_data !! stored_as spec_data earlier n = None.
Proof using free.
  intros Hn.
  destruct (stored_as_cases spec_data earlier n) as [(-> & H & _)|(j & -> & _)].
  - assumption.
  - apply (free n j Hn).
Qed.

Lemma stored_as_inj b n a m :
  n ∈ names -> m ∈ names ->
  stored_as spec_data b n <> stored_as spec_data (b ++ n :: a) m.
Proof using free.
  intros Hn Hm Heq.
  assert (Hseen : PyStr.last_token "/" n = PyStr.last_token "/" m ->
                  seen (PyStr.last_token "/" m) b
                  < seen (PyStr.last_token "/" m) (b ++ n :: a)).
  { intros Ht. rewrite seen_app, seen_cons, decide_True by assumption. lia. }
  destruct (stored_as_cases spec_data b n) as [(Hb & Hnone & Hzero)|(j & Hb & Hsome & Hnone)];
    destruct (stored_as_cases spec_data (b ++ n :: a) m)
      as [(Hc & Hnone' & Hzero')|(j' & Hc & Hsome' & Hnone')];
    rewrite Hb, Hc in Heq.
  - specialize (Hseen Heq). lia.
  - symmetry in Heq. exact (numbered_not_token _ _ _ Hm Hn Heq).
  - exact (numbered_not_token _ _ _ Hn Hm Heq).
  - apply numbered_inj in Heq as [Ht [= ->]]. specialize (Hseen Ht).
    rewrite Ht in Hsome, Hnone.
    destruct (spec_data !! PyStr.last_token "/" m) as [v|] eqn:Hv.
    + rewrite <- (Hsome (mk_is_Some _ _ eq_refl)) in Hseen.
      rewrite <- (Hsome' (mk_is_Some _ _ eq_refl)) in Hseen. lia.
    + rewrite <- (Hnone eq_refl) in Hseen.
      rewrite <- (Hnone' eq_refl) in Hseen. lia.
Qed.

(** What holds of the dictionary and of the counters after the names
    [done]. *)
Record pass_state (done : list string)
    (acc : gmap string scalar * gmap string nat) : Prop := {
  kept : forall key v, spec_data !! key = Some v -> acc.1 !! key = Some v;
  stored : forall b n a, done = b ++ n :: a ->
             acc.1 !! stored_as spec_data b n = Some (ty n);
  nothing_else : forall key, is_Some (acc.1 !! key) ->
                   is_Some (spec_data !! key)
                   \/ exists b n a, done = b ++ n :: a
                                    /\ key = stored_as spec_data b n;
  counted : size acc.1 = size spec_data + length done;
  counters : forall t,
               acc.2 !! t
               = match spec_data !! t, seen t done with
                 | Some _, k => Some k
                 | None, 0 => None
                 | None, S k => Some k
                 end;
}.

Lemma pass_state_start :
  pass_state [] (spec_data, (fun _ => 0) <$> spec_data).
Proof.
  split; cbn.
  - auto.
  - intros b n a H. destruct b; discriminate.
  - auto.
  - lia.
  - intros t. rewrite lookup_fmap.
    destruct (spec_data !! t); reflexivity.
Qed.

Lemma token_is_key done acc n :
  pass_state done acc -> (forall m, m ∈ done -> m ∈ names) -> n ∈ names ->
  let t := PyStr.last_token "/" n in
  is_Some (acc.1 !! t) <-> is_Some (spec_data !! t) \/ 0 < seen t done.
Proof using free.
  intros Hst Hdone Hn t. split.
  - intros Hkey. apply (nothing_else _ _ Hst) in Hkey as [H|(b & m & a & -> & Hkey)];
      [left; assumption|].
    right. assert (Hm : m ∈ names).
    { apply Hdone, elem_of_app. right. apply elem_of_cons. left. reflexivity. }
    destruct (stored_as_cases spec_data b m) as [(Hb & _ & _)|(j & Hb & _)];
      rewrite Hb in Hkey.
    + rewrite seen_app, seen_cons, decide_True by (symmetry; assumption). lia.
    + exfalso. symmetry in Hkey. exact (numbered_not_token _ _ _ Hm Hn Hkey).
  - intros [[v Hv]|Hseen].
    + exists v. apply (kept _ _ Hst). assumption.
    + destruct (spec_data !! t) as [v|] eqn:Hv.
      { exists v. apply (kept _ _ Hst). assumption. }
      apply seen_first in Hseen as (b & m & a & -> & Hm & Hb).
      exists (ty m). rewrite <- (stored _ _ Hst b m a eq_refl).
      unfold stored_as. rewrite Hm. fold t. rewrite Hv, Hb. reflexivity.
Qed.

Lemma pass_state_step done acc n :
  pass_state done acc -> (forall m, m ∈ done -> m ∈ names) -> n ∈ names ->
  exists acc', record_one ty acc n = Done acc'
               /\ pass_state (done ++ [n]) acc'.
Proof using free.
  intros Hst Hdone Hn. destruct acc as [cur tm].
  set (t := PyStr.last_token "/" n).
  pose proof (token_is_key _ _ n Hst Hdone Hn) as Hkey. fold t in Hkey.
  cbn [fst] in Hkey.
  pose proof (counters _ _ Hst t) as Htm. cbn [snd] in Htm.
  assert (Hstep : exists tm',
            record_one ty (cur, tm) n
            = Done (<[stored_as spec_data done n := ty n]> cur, tm')
            /\ forall t', tm' !! t'
                 = match spec_data !! t', seen t' (done ++ [n]) with
                   | Some _, k => Some k
                   | None, 0 => None
                   | None, S k => Some k
                   end).
  { unfold record_one, stored_as. fold t.
    destruct (cur !! t) as [v|] eqn:Hcur.
    - assert (Hwhy : is_Some (spec_data !! t) \/ 0 < seen t done)
        by (apply Hkey; eauto).
      destruct (spec_data !! t) as [v0|] eqn:Hv0.
      + rewrite Htm. eexists. split; [reflexivity|].
        intros t'. rewrite seen_snoc. fold t.
        destruct (decide (t' = t)) as [->|Hne].
        * rewrite lookup_insert_eq, Hv0, decide_True by reflexivity.
          f_equal. lia.
        * rewrite lookup_insert_ne by congruence.
          rewrite decide_False by congruence. rewrite Nat.add_0_r.
          apply (counters _ _ Hst).
      + destruct Hwhy as [[? [=]]|Hpos].
        destruct (seen t done) as [|k] eqn:Hk; [lia|].
        rewrite Htm. eexists. split; [reflexivity|].
        intros t'. rewrite seen_snoc. fold t.
        destruct (decide (t' = t)) as [->|Hne].
        * rewrite lookup_insert_eq, Hv0, decide_True, Hk by reflexivity.
          replace (S k + 1) with (S (S k)) by lia. reflexivity.
        * rewrite lookup_insert_ne by congruence.
          rewrite decide_False by congruence. rewrite Nat.add_0_r.
          apply (counters _ _ Hst).
    - assert (Hnot : ~ (is_Some (spec_data !! t) \/ 0 < seen t done)).
      { intros H. apply Hkey in H as [? H]. congruence. }
      destruct (spec_data !! t) as [v0|] eqn:Hv0; [exfalso; apply Hnot; eauto|].
      destruct (seen t done) as [|k] eqn:Hk; [|exfalso; apply Hnot; right; lia].
      eexists. split; [reflexivity|].
      intros t'. rewrite seen_snoc. fold t.
      destruct (decide (t' = t)) as [->|Hne].
      + rewrite lookup_insert_eq, Hv0, decide_True, Hk by reflexivity.
        reflexivity.
      + rewrite lookup_insert_ne by congruence.
        rewrite decide_False by congruence. rewrite Nat.add_0_r.
        apply (counters _ _ Hst). }
  destruct Hstep as (tm' & Hrun & Htm').
  exists (<[stored_as spec_data done n := ty n]> cur, tm').
  split; [assumption|].
  assert (Hfresh : cur !! stored_as spec_data done n = None).
  { destruct (cur !! stored_as spec_data done n) as [v|] eqn:Hv; [|reflexivity].
    exfalso.
    destruct (nothing_else _ _ Hst _ (mk_is_Some _ _ Hv))
      as [[v0 Hv0]|(b & m & a & -> & Heq)].
    - rewrite stored_as_new in Hv0 by assumption. discriminate.
    - symmetry in Heq. revert Heq. apply stored_as_inj; [|assumption].
      apply Hdone, elem_of_app. right. apply elem_of_cons. left. reflexivity. }
  split; cbn [fst snd].
  - intros key v Hv. rewrite lookup_insert_ne; [apply (kept _ _ Hst); assumption|].
    intros <-. rewrite stored_as_new in Hv by assumption. discriminate.
  - intros b m a Hsplit.
    apply SystemInfo.snoc_split in Hsplit as [(a' & -> & ->)|(-> & -> & ->)].
    + rewrite lookup_insert_ne; [apply (stored _ _ Hst _ _ a'); reflexivity|].
      intros Heq. symmetry in Heq. revert Heq. apply stored_as_inj; [|assumption].
      apply Hdone, elem_of_app. right. apply elem_of_cons. left. reflexivity.
    + apply lookup_insert_eq.
  - intros key Hkey'.
    destruct (decide (key = stored_as spec_data done n)) as [->|Hne].
    + right. exists done, n, []. auto.
    + rewrite lookup_insert_ne in Hkey' by congruence.
      destruct (nothing_else _ _ Hst _ Hkey') as [H|(b & m & a & -> & ->)];
        [left; assumption|].
      right. exists b, m, (a ++ [n]).
      split; [rewrite <- app_assoc; reflexivity | reflexivity].
  - rewrite map_size_insert_None by assumption.
    pose proof (counted _ _ Hst) as Hsize. cbn [fst] in Hsize.
    rewrite Hsize, length_app. cbn. lia.
  - exact Htm'.
Qed.

Lemma pass_state_all rest : forall done acc,
  pass_state done acc ->
  (forall m, m ∈ done ++ rest -> m ∈ names) ->
  exists acc', record_all ty acc rest = Done acc'
               /\ pass_state (done ++ rest) acc'.
Proof using free.
  induction rest as [|n rest IH]; intros done acc Hst Hin.
  - exists acc. rewrite app_nil_r. auto.
  - destruct (pass_state_step done acc n Hst) as (acc1 & Hone & Hst1).
    + intros m Hm. apply Hin, elem_of_app. auto.
    + apply Hin, elem_of_app. right. apply elem_of_cons. left. reflexivity.
    + cbn [record_all]. rewrite Hone. cbn [mbind outcome_bind].
      destruct (IH (done ++ [n]) acc1 Hst1) as (acc' & Hall & Hst').
      * intros m Hm. apply Hin. rewrite <- app_assoc in Hm. exact Hm.
      * exists acc'. rewrite <- app_assoc in Hst'. auto.
Qed.

End Pass.

(** One pass, when the numbering is free: it succeeds, keeps what was
    there, stores every name under a key of its own, and stores
    nothing else. *)
Lemma pass_records ty spec_data names :
  numbering_free spec_data names ->
  exists final,
    _update_node_specification_data spec_data names ty = Done final
    /\ (forall key v, spec_data !! key = Some v -> final !! key = Some v)
    /\ (forall b n a, PyStr.sorted names = b ++ n :: a ->
          final !! stored_as spec_data b n = Some (ty n))
    /\ (forall key, is_Some (final !! key) ->
          is_Some (spec_data !! key)
          \/ exists b n a, PyStr.sorted names = b ++ n :: a
                           /\ key = stored_as spec_data b n)
    /\ size final = size spec_data + length names.
Proof.
  intros Hfree.
  destruct (pass_state_all ty spec_data names Hfree (PyStr.sorted names) []
              (spec_data, (fun _ => 0) <$> spec_data)
              (pass_state_start ty spec_data))
    as ([final tm] & Hrun & Hst).
  { intros m Hm. apply sorted_elem_of. exact Hm. }
  exists final. unfold _update_node_specification_data.
  rewrite Hrun. cbn [mbind outcome_bind]. split; [reflexivity|].
  cbn [app] in Hst. destruct Hst as [Hkept Hstored Hnothing Hcounted _].
  cbn [fst] in *.
  split; [exact Hkept|]. split; [exact Hstored|]. split; [exact Hnothing|].
  rewrite Hcounted. f_equal.
  apply Permutation_length, merge_sort_Permutation.
Qed.

(** Tokens and keys without an underscore cannot be numbered tokens. *)
Lemma numbering_free_plain spec_data names :
  map_Forall (fun key _ => plain key = true) spec_data ->
  Forall (fun n => plain (PyStr.last_token "/" n) = true) names ->
  numbering_free spec_data names.
Proof.
  intros Hkeys Htokens n k Hn.
  assert (Hnumbered : plain (numbered (PyStr.last_token "/" n) (S k)) = false).
  { unfold numbered.
    change ("_" ++ pretty (S k))%string with (String "_" (pretty (S k))).
    apply plain_underscore. }
  split.
  - destruct (spec_data !! numbered (PyStr.last_token "/" n) (S k))
      as [v|] eqn:Hv; [|reflexivity].
    apply Hkeys in Hv. cbn in Hv. congruence.
  - intros Hin. apply list_elem_of_fmap in Hin as (m & Heq & Hm).
    rewrite Forall_forall in Htokens. specialize (Htokens m Hm).
    rewrite <- Heq in Htokens. congruence.
Qed.

Lemma numbering_free_nil spec_data : numbering_free spec_data [].
Proof. intros n k Hn. apply not_elem_of_nil in Hn. contradiction. Qed.


Example value_type_of_values :
  value_type "float" = "class float"
  /\ value_type "int" = "class int"
  /\ value_type "str" = "class str"
  /\ value_type "NoneType" = "class NoneType".
Proof. repeat split; reflexivity. Qed.

(** The second scenario: [/bar] with its one parameter, whose value is
    a [float], and the bank of parameter builders that holds it. *)
Definition bar_node : NodeBuilder :=
  {| parameter_names := ["/bar/thresh"]; action_clients := [];
     action_servers := []; published_topic_names := [];
     subscribed_topic_names := []; service_names_with_remap := [] |}.

Definition bar_parameter_type (spec_name : string) : scalar :=
  SStr (construct_type "float").



(** What else the call does in the scenario: [source] gains
    [ros_snapshot] and the version is raised. *)
Example bar_is_learnt :
  exists learnt,
    _update_node_specification bar_parameter_type sample_type sample_type
      sample_type (fun _ => None) (fun _ => "") bar_spec bar_node = Done learnt
    /\ learnt !! "source"
       = Some (VList [SStr "workspace_modeler"; SStr "ros_snapshot"])
    /\ learnt !! "version" = Some (Scalar (SInt 2)).
Proof. eexists. repeat split; reflexivity. Qed.

(** When the specification already has a dictionary of parameters, even
    an empty one, [parameters] and [set_parameters] are that one
    dictionary: the second pass meets the tokens of the first and
    records every name once more, under a number. *)
Example parameters_learnt_into_a_dictionary :
  learn_parameters (<["parameters" := VDict ∅]> bar_spec) ["/bar/thresh"]
    bar_parameter_type
  = Done (<["parameters" := VDict (<["thresh" := SStr "class float"]>
                                    {["thresh_1" := SStr "class float"]})]> bar_spec,
          <["thresh" := SStr "class float"]> {["thresh_1" := SStr "class float"]}).
Proof. reflexivity. Qed.

(** Three names of one token, learnt into a dictionary that has the
    token already: all three are numbered. *)
Example existing_token_is_numbered :
  _update_node_specification_data {["x" := SStr "old"]}
    ["/c/x"; "/a/x"; "/b/x"] (fun n => SStr n)
  = Done (<["x" := SStr "old"]> (<["x_1" := SStr "/a/x"]>
            (<["x_2" := SStr "/b/x"]> {["x_3" := SStr "/c/x"]}))).
Proof. reflexivity. Qed.

(** Where the numbering is not free.  A name whose token is a numbered
    token of other names loses its entry to one of them, or, coming
    after them, meets a key that has no counter. *)
Example numbered_token_is_overwritten :
  _update_node_specification_data ∅ ["/a/x_1"; "/b/x"; "/c/x"] (fun n => SStr n)
  = Done (<["x" := SStr "/b/x"]> {["x_1" := SStr "/c/x"]}).
Proof. reflexivity. Qed.

Example numbered_token_raises :
  _update_node_specification_data ∅ ["/a/x"; "/b/x"; "/c/x_1"] (fun n => SStr n)
  = Raises KeyError.
Proof. reflexivity. Qed.

End LearntSpecification.
